(** * scrcpy-web: the device session engine

    A shallow embedding of [ScrcpyClient.js] (stream framer, touch encoder,
    teardown) and of the registry part of [main.js] (port pool, NAL cache,
    viewer replay, device scanner), with the properties of the
    specification proved or refuted against it. *)

From stdpp Require Import base gmap sets list strings.
From Stdlib Require Import ZArith Lia SpecFloat.
From Stdlib.Strings Require Import Byte.

Local Open Scope Z_scope.

(** ** Bytes and Node's [Buffer] *)

Definition b2z (b : byte) : Z := Z.of_N (Byte.to_N b).

(** The byte holding [z mod 256]. *)
Definition z2b (z : Z) : byte :=
  default x00 (Byte.of_N (Z.to_N (z mod 256))).

Definition Buffer := list byte.

(** [buf.length] *)
Definition Buffer_length (buf : Buffer) : Z := Z.of_nat (length buf).

(** [Buffer.alloc(n)]: [n] zero bytes. *)
Definition Buffer_alloc (n : nat) : Buffer := replicate n x00.

(** [buf.subarray(start, end)] for [0 <= start]; like Node, the view is
    clamped to the end of the buffer. The view shares memory with [buf] in
    Node; no code of the repository writes into a buffer after it has been
    handed out, so a view is modelled by its contents. *)
Definition subarray (buf : Buffer) (start end_ : Z) : Buffer :=
  take (Z.to_nat (end_ - start)) (drop (Z.to_nat start) buf).

(** JavaScript exceptions the modelled code can raise. *)
Inductive JsError :=
| RangeError                 (* ERR_OUT_OF_RANGE of the Buffer read/write methods *)
| TypeError
| Error (message : string).

(** Outcome of a computation: a value, a thrown exception, or [Diverge]
    when the fuel given to a [while] loop did not suffice. *)
Inductive result (A : Type) :=
| Ok (a : A)
| Throw (e : JsError)
| Diverge.
Arguments Ok {A} a.
Arguments Throw {A} e.
Arguments Diverge {A}.

Definition bind {A B} (m : result A) (k : A -> result B) : result B :=
  match m with
  | Ok a => k a
  | Throw e => Throw e
  | Diverge => Diverge
  end.

Notation "'let*' x ':=' m 'in' k" := (bind m (fun x => k))
  (at level 10, x name, m at level 100, k at level 200).

(** [buf.readUInt32BE(offset)]: big-endian, throws when the four bytes are
    not all inside the buffer. *)
Definition readUInt32BE (buf : Buffer) (offset : Z) : result Z :=
  if offset <? 0 then Throw RangeError
  else match drop (Z.to_nat offset) buf with
       | b0 :: b1 :: b2 :: b3 :: _ =>
           Ok (b2z b0 * 2 ^ 24 + b2z b1 * 2 ^ 16 + b2z b2 * 2 ^ 8 + b2z b3)
       | _ => Throw RangeError
       end.

(** *** [buf.toString('utf8')]

    Node decodes with the WHATWG UTF-8 decoder: every maximal ill-formed
    subsequence becomes U+FFFD, a byte order mark is kept. A JavaScript
    string is given here by its sequence of code points. *)

Definition JsString := list Z.

Definition REPLACEMENT : Z := 0xFFFD.

(** Decoder reaction to a byte read outside a multi-byte sequence:
    emitted code points, continuation bytes needed, partial code point and
    the bounds for the next byte. *)
Definition utf8_lead (v : Z) : list Z * nat * Z * Z * Z :=
  if v <=? 0x7F then ([v], 0%nat, 0, 0x80, 0xBF)
  else if (0xC2 <=? v) && (v <=? 0xDF) then ([], 1%nat, Z.land v 0x1F, 0x80, 0xBF)
  else if (0xE0 <=? v) && (v <=? 0xEF) then
    ([], 2%nat, Z.land v 0xF, (if v =? 0xE0 then 0xA0 else 0x80),
     (if v =? 0xED then 0x9F else 0xBF))
  else if (0xF0 <=? v) && (v <=? 0xF4) then
    ([], 3%nat, Z.land v 0x7, (if v =? 0xF0 then 0x90 else 0x80),
     (if v =? 0xF4 then 0x8F else 0xBF))
  else ([REPLACEMENT], 0%nat, 0, 0x80, 0xBF).

Fixpoint utf8_go (needed : nat) (cp lower upper : Z) (bs : list byte) : JsString :=
  match bs with
  | [] => match needed with O => [] | S _ => [REPLACEMENT] end
  | b :: rest =>
      let v := b2z b in
      match needed with
      | O =>
          let '(out, n, cp', lo, hi) := utf8_lead v in
          out ++ utf8_go n cp' lo hi rest
      | S k =>
          if (lower <=? v) && (v <=? upper) then
            let cp' := Z.lor (Z.shiftl cp 6) (Z.land v 0x3F) in
            match k with
            | O => cp' :: utf8_go 0 0 0x80 0xBF rest
            | S _ => utf8_go k cp' 0x80 0xBF rest
            end
          else
            (* the sequence is abandoned and the byte is read again *)
            let '(out, n, cp', lo, hi) := utf8_lead v in
            REPLACEMENT :: out ++ utf8_go n cp' lo hi rest
      end
  end.

Definition toString_utf8 (buf : Buffer) : JsString := utf8_go 0 0 0x80 0xBF buf.

(** [s.replace(/\0/g, '')]: every NUL character goes, wherever it is. *)
Definition replace_nul (s : JsString) : JsString :=
  filter (fun c => c ≠ 0) s.

(** ** ScrcpyClient *)

Module CONSTANTS.
Definition HEADER_SIZE : Z := 76.
Definition DEVICE_NAME_FIELD_LENGTH : Z := 64.
Definition PACKET_META_SIZE : Z := 12.
Definition ACTION_DOWN : Z := 0.
Definition ACTION_UP : Z := 1.
End CONSTANTS.

Inductive ReadState := HEADER | STREAMING.
Inductive StreamState := PACKET_META | PACKET_DATA.

Record DeviceInfo := mkDeviceInfo {
  name : JsString;
  width : Z;
  height : Z
}.

(** Events emitted by a client through its EventEmitter. *)
Inductive Event :=
| ready (info : DeviceInfo)
| video_data (videoData : Buffer)
| disconnected
| error
| stopped.

(** Operating-system handles (listener, subprocess, socket) are tokens. *)
Definition handle := nat.

(** The fields of [this]. The paths and the encoder options of the
    constructor only feed the adb command lines and are left out. *)
Record ScrcpyClient := mkClient {
  serial : string;
  port : Z;
  localServer : option handle;
  adbProcess : option handle;
  socket : option handle;
  buffer : Buffer;
  readState : ReadState;
  streamState : StreamState;
  currentPacketSize : Z;
  deviceInfo : DeviceInfo
}.

(** [new ScrcpyClient(serial, { port })] *)
Definition new_ScrcpyClient (serial : string) (port : Z) : ScrcpyClient :=
  {| serial := serial; port := port;
     localServer := None; adbProcess := None; socket := None;
     buffer := Buffer_alloc 0;
     readState := HEADER; streamState := PACKET_META; currentPacketSize := 0;
     deviceInfo := {| name := []; width := 0; height := 0 |} |}.

Definition set_buffer (b : Buffer) (c : ScrcpyClient) : ScrcpyClient :=
  {| serial := serial c; port := port c; localServer := localServer c;
     adbProcess := adbProcess c; socket := socket c;
     buffer := b;
     readState := readState c; streamState := streamState c;
     currentPacketSize := currentPacketSize c; deviceInfo := deviceInfo c |}.

Definition set_header (info : DeviceInfo) (c : ScrcpyClient) : ScrcpyClient :=
  {| serial := serial c; port := port c; localServer := localServer c;
     adbProcess := adbProcess c; socket := socket c;
     buffer := buffer c;
     readState := STREAMING; streamState := streamState c;
     currentPacketSize := currentPacketSize c; deviceInfo := info |}.

Definition set_stream (st : StreamState) (size : Z) (c : ScrcpyClient) : ScrcpyClient :=
  {| serial := serial c; port := port c; localServer := localServer c;
     adbProcess := adbProcess c; socket := socket c;
     buffer := buffer c;
     readState := readState c; streamState := st;
     currentPacketSize := size; deviceInfo := deviceInfo c |}.

(** *** The stream framer: [_processData] *)

(** One turn of the [while] body: [Break], or the state it leaves. *)
Inductive Turn :=
| Break
| Next (c : ScrcpyClient) (offset remaining : Z) (emitted : list Event).

Definition loop_body (c : ScrcpyClient) (offset remaining : Z) : result Turn :=
  match readState c with
  | HEADER =>
      if remaining <? CONSTANTS.HEADER_SIZE then Ok Break
      else
        let nameBytes :=
          subarray (buffer c) offset (offset + CONSTANTS.DEVICE_NAME_FIELD_LENGTH) in
        let name := replace_nul (toString_utf8 nameBytes) in
        let* width := readUInt32BE (buffer c) (offset + 68) in
        let* height := readUInt32BE (buffer c) (offset + 72) in
        let info := {| name := name; width := width; height := height |} in
        Ok (Next (set_header info c)
                 (offset + CONSTANTS.HEADER_SIZE)
                 (remaining - CONSTANTS.HEADER_SIZE)
                 [ready info])
  | STREAMING =>
      match streamState c with
      | PACKET_META =>
          if remaining <? CONSTANTS.PACKET_META_SIZE then Ok Break
          else
            let* size := readUInt32BE (buffer c) (offset + 8) in
            Ok (Next (set_stream PACKET_DATA size c)
                     (offset + CONSTANTS.PACKET_META_SIZE)
                     (remaining - CONSTANTS.PACKET_META_SIZE)
                     [])
      | PACKET_DATA =>
          if remaining <? currentPacketSize c then Ok Break
          else
            let videoData :=
              subarray (buffer c) offset (offset + currentPacketSize c) in
            Ok (Next (set_stream PACKET_META (currentPacketSize c) c)
                     (offset + currentPacketSize c)
                     (remaining - currentPacketSize c)
                     [video_data videoData])
      end
  end.

(** [while (remaining > 0) { ... }], returning the client, the final
    [offset] and the events emitted, in order. *)
Fixpoint while_loop (fuel : nat) (c : ScrcpyClient) (offset remaining : Z)
    (emitted : list Event) : result (ScrcpyClient * Z * list Event) :=
  match fuel with
  | O => Diverge
  | S fuel' =>
      if 0 <? remaining then
        let* t := loop_body c offset remaining in
        match t with
        | Break => Ok (c, offset, emitted)
        | Next c' offset' remaining' evs =>
            while_loop fuel' c' offset' remaining' (emitted ++ evs)
        end
      else Ok (c, offset, emitted)
  end.

(** Every turn that does not break either consumes bytes or leaves
    [PACKET_DATA]; twice the buffer length plus two bounds the turns. *)
Definition loop_fuel (buf : Buffer) : nat := (2 * length buf + 2)%nat.

Definition _processData (c : ScrcpyClient) (chunk : Buffer)
    : result (ScrcpyClient * list Event) :=
  let c :=
    if 0 <? Buffer_length (buffer c)
    then set_buffer (buffer c ++ chunk) c
    else set_buffer chunk c in
  let offset := 0 in
  let remaining := Buffer_length (buffer c) in
  let* r := while_loop (loop_fuel (buffer c)) c offset remaining [] in
  let '(c, offset, emitted) := r in
  let c :=
    if offset =? Buffer_length (buffer c) then set_buffer (Buffer_alloc 0) c
    else if 0 <? offset then set_buffer (drop (Z.to_nat offset) (buffer c)) c
    else c in
  Ok (c, emitted).

(** Feeding chunks one after the other, as the socket's ['data'] listener
    does, collecting the events of all calls. *)
Fixpoint feed (c : ScrcpyClient) (chunks : list Buffer)
    : result (ScrcpyClient * list Event) :=
  match chunks with
  | [] => Ok (c, [])
  | chunk :: chunks' =>
      let* r := _processData c chunk in
      let* r' := feed r.1 chunks' in
      Ok (r'.1, r.2 ++ r'.2)
  end.


(** *** The touch encoder: [sendTouch] *)

(** What the client does to the outside, in order. *)
Inductive Effect :=
| socket_write (s : handle) (data : Buffer)
| socket_destroy (s : handle)
| server_close (l : handle)
| process_kill (p : handle)
| emit (e : Event)
| console_error.

(** Numbers handed to the Buffer write methods: [Math.round] yields an
    integer, NaN or an infinity. *)
Inductive JsNumber :=
| Int (z : Z)
| NaN
| Infinity (negative : bool).

(** [value > max || value < min]; both comparisons are false for NaN. *)
Definition out_of_range (value : JsNumber) (min max : Z) : bool :=
  match value with
  | Int z => (z >? max) || (z <? min)
  | NaN => false
  | Infinity _ => true
  end.

(** The integer whose low bytes are stored; NaN is stored as 0. *)
Definition stored (value : JsNumber) : Z :=
  match value with
  | Int z => z
  | _ => 0
  end.

(** The low [n] bytes of [z], most significant first. *)
Fixpoint be_bytes (n : nat) (z : Z) : Buffer :=
  match n with
  | O => []
  | S k => z2b (z / 2 ^ (8 * Z.of_nat k)) :: be_bytes k z
  end.

(** The big-endian integer writers of [Buffer]: a value out of range or
    a field that does not fit the buffer throws. *)
Definition write_be (byteLength : nat) (min max : Z)
    (buf : Buffer) (value : JsNumber) (offset : Z) : result Buffer :=
  if out_of_range value min max then Throw RangeError
  else if (offset <? 0) || (Buffer_length buf <? offset + Z.of_nat byteLength)
  then Throw RangeError
  else Ok (take (Z.to_nat offset) buf ++ be_bytes byteLength (stored value) ++
           drop (Z.to_nat offset + byteLength) buf).

Definition writeUInt8 := write_be 1 0 255.
Definition writeUInt16BE := write_be 2 0 65535.
Definition writeUInt32BE := write_be 4 0 4294967295.
Definition writeInt32BE := write_be 4 (-2147483648) 2147483647.

Section Control.

(** The fractions a viewer sends are IEEE doubles. Their arithmetic is
    taken as given: [round_scale f d] is [Math.round(f * d)]. *)
Variable Fraction : Type.
Variable round_scale : Fraction -> Z -> JsNumber.

(** Whether [socket.write] throws on this message. *)
Variable write_throws : handle -> Buffer -> bool.

(** [action] is the integer action code of the viewer's touch message.
    The client itself is not changed. *)
Definition sendTouch (c : ScrcpyClient) (action : Z) (xPercent yPercent : Fraction)
    : result (ScrcpyClient * list Effect) :=
  match socket c with
  | None => Ok (c, [])
  | Some sock =>
      if width (deviceInfo c) =? 0 then Ok (c, [])
      else
        let x := round_scale xPercent (width (deviceInfo c)) in
        let y := round_scale yPercent (height (deviceInfo c)) in
        let buffer := Buffer_alloc 32 in
        let* buffer := writeUInt8 buffer (Int 2) 0 in
        let* buffer := writeUInt8 buffer (Int action) 1 in
        let* buffer := writeInt32BE buffer x 10 in
        let* buffer := writeInt32BE buffer y 14 in
        let* buffer := writeUInt16BE buffer (Int (width (deviceInfo c))) 18 in
        let* buffer := writeUInt16BE buffer (Int (height (deviceInfo c))) 20 in
        let* buffer := writeUInt16BE buffer (Int (if action =? 1 then 0 else 65535)) 22 in
        let* buffer := writeUInt32BE buffer (Int 1) 24 in
        let* buffer := writeInt32BE buffer (Int 0) 28 in
        (* try { this.socket.write(buffer); } catch (e) { console.error(e); } *)
        Ok (c, socket_write sock buffer ::
               (if write_throws sock buffer then [console_error] else []))
  end.

End Control.

(** *** Teardown: [stop] *)

Definition set_handles (l p s : option handle) (c : ScrcpyClient) : ScrcpyClient :=
  {| serial := serial c; port := port c;
     localServer := l; adbProcess := p; socket := s;
     buffer := buffer c;
     readState := readState c; streamState := streamState c;
     currentPacketSize := currentPacketSize c; deviceInfo := deviceInfo c |}.

(** [net.Socket.destroy] and [net.Server.close] report failures through
    events and do not throw. [kill] may throw; the exception is caught and
    dropped, so what follows does not depend on it. *)
Definition stop (c : ScrcpyClient) : ScrcpyClient * list Effect :=
  let e1 := match socket c with Some s => [socket_destroy s] | None => [] end in
  let c := set_handles (localServer c) (adbProcess c) None c in
  let e2 := match localServer c with Some l => [server_close l] | None => [] end in
  let c := set_handles None (adbProcess c) (socket c) c in
  let e3 := match adbProcess c with Some p => [process_kill p] | None => [] end in
  let c := set_handles (localServer c) None (socket c) c in
  (c, e1 ++ e2 ++ e3 ++ [emit stopped]).

(** The listeners a client installs on its own socket and subprocess. *)

(** [socket.on('close', ...)] *)
Definition socket_on_close (c : ScrcpyClient) : ScrcpyClient * list Effect :=
  (c, [emit disconnected]).

(** [socket.on('error', ...)] *)
Definition socket_on_error (c : ScrcpyClient) : ScrcpyClient * list Effect :=
  (c, [console_error; emit error]).

(** [adbProcess.on('close', ...)]: the agent has exited. *)
Definition adbProcess_on_close (c : ScrcpyClient) : ScrcpyClient * list Effect :=
  stop c.

(** ** main.js *)

(** A JavaScript [Map] with string keys: entries in insertion order. *)
Definition JsMap (V : Type) := list (string * V).

Fixpoint Map_get {V} (k : string) (m : JsMap V) : option V :=
  match m with
  | [] => None
  | (k', v) :: m' => if decide (k' = k) then Some v else Map_get k m'
  end.

Definition Map_has {V} (k : string) (m : JsMap V) : bool :=
  match Map_get k m with Some _ => true | None => false end.

(** [set] keeps the position of a key already present. *)
Fixpoint Map_set {V} (k : string) (v : V) (m : JsMap V) : JsMap V :=
  match m with
  | [] => [(k, v)]
  | (k', v') :: m' =>
      if decide (k' = k) then (k, v) :: m' else (k', v') :: Map_set k v m'
  end.

Definition Map_delete {V} (k : string) (m : JsMap V) : JsMap V :=
  filter (fun e => e.1 ≠ k) m.

(** [{ client, port }] *)
Record Entry := mkEntry {
  client : ScrcpyClient;
  info_port : Z
}.

(** [{ sps, pps, idr }], all absent in a fresh cache [{}]. *)
Record NalCache := mkNalCache {
  sps : option Buffer;
  pps : option Buffer;
  idr : option Buffer
}.

Inductive ReadyState := CONNECTING | OPEN | CLOSING | CLOSED.

(** A viewer's WebSocket, with the messages sent to it so far. *)
Record WebSocket := mkWebSocket {
  ws_id : nat;
  ws_serial : option string;
  readyState : ReadyState;
  sent : list Buffer
}.

(** The global state. *)
Record Main := mkMain {
  activeClients : JsMap Entry;
  deviceBuffers : JsMap NalCache;
  usedPorts : gset Z;
  scanning : bool;
  wss_clients : list WebSocket
}.

(** *** Port management *)

Fixpoint allocPort_loop (fuel : nat) (p : Z) (usedPorts : gset Z)
    : result (Z * gset Z) :=
  match fuel with
  | O => Diverge
  | S fuel' =>
      if p <? 28000 then
        if bool_decide (p ∈ usedPorts) then allocPort_loop fuel' (p + 1) usedPorts
        else Ok (p, {[p]} ∪ usedPorts)
      else Throw (Error "No available ports")
  end.

(** The loop makes at most 817 turns before its condition fails. *)
Definition allocPort (usedPorts : gset Z) : result (Z * gset Z) :=
  allocPort_loop 818 27183 usedPorts.

Definition freePort (p : Z) (usedPorts : gset Z) : gset Z := usedPorts ∖ {[p]}.

(** *** Broadcast and NAL cache *)

(** [ws.send(data)] on an open socket. *)
Definition ws_send (data : Buffer) (ws : WebSocket) : WebSocket :=
  {| ws_id := ws_id ws; ws_serial := ws_serial ws; readyState := readyState ws;
     sent := sent ws ++ [data] |}.

Definition is_open (ws : WebSocket) : bool :=
  match readyState ws with OPEN => true | _ => false end.

Definition broadcast (serial : string) (data : Buffer) (clients : list WebSocket)
    : list WebSocket :=
  map (fun ws =>
         if is_open ws && bool_decide (ws_serial ws = Some serial)
         then ws_send data ws else ws) clients.

(** [buf[4] & 0x1f]; a missing byte reads [undefined], which [&] turns
    into 0. *)
Definition nalType (buf : Buffer) : Z :=
  match buf !! 4%nat with
  | Some b => Z.land (b2z b) 0x1f
  | None => 0
  end.

Definition cacheNal (serial : string) (buf : Buffer) (deviceBuffers : JsMap NalCache)
    : JsMap NalCache :=
  match Map_get serial deviceBuffers with
  | None => deviceBuffers
  | Some cache =>
      if nalType buf =? 7 then
        Map_set serial {| sps := Some buf; pps := pps cache; idr := idr cache |} deviceBuffers
      else if nalType buf =? 8 then
        Map_set serial {| sps := sps cache; pps := Some buf; idr := idr cache |} deviceBuffers
      else if nalType buf =? 5 then
        Map_set serial {| sps := sps cache; pps := pps cache; idr := Some buf |} deviceBuffers
      else deviceBuffers
  end.

Definition set_clients (ws : list WebSocket) (m : Main) : Main :=
  {| activeClients := activeClients m; deviceBuffers := deviceBuffers m;
     usedPorts := usedPorts m; scanning := scanning m; wss_clients := ws |}.

Definition set_deviceBuffers (b : JsMap NalCache) (m : Main) : Main :=
  {| activeClients := activeClients m; deviceBuffers := b;
     usedPorts := usedPorts m; scanning := scanning m; wss_clients := wss_clients m |}.

Definition set_scanning (b : bool) (m : Main) : Main :=
  {| activeClients := activeClients m; deviceBuffers := deviceBuffers m;
     usedPorts := usedPorts m; scanning := b; wss_clients := wss_clients m |}.

(** The ['video-data'] listener the scanner installs for a device. *)
Definition on_video_data (serial : string) (data : Buffer) (m : Main) : Main :=
  let m := set_deviceBuffers (cacheNal serial data (deviceBuffers m)) m in
  set_clients (broadcast serial data (wss_clients m)) m.

(** *** Viewer connection: [wss.on('connection', ...)] *)

Definition send_if_cached (slot : option Buffer) (ws : WebSocket) : WebSocket :=
  match slot with
  | Some data => ws_send data ws
  | None => ws
  end.

(** [id] names the new socket, which the WebSocket server has just added,
    open, to [wss.clients]; [serial] is the query parameter, if given. The
    power status and the device details are sent by later, asynchronous
    steps. *)
Definition on_connection (id : nat) (serial : option string) (m : Main)
    : Main * result unit :=
  let ws := {| ws_id := id; ws_serial := None; readyState := OPEN; sent := [] |} in
  let invalid :=
    match serial with
    | None => true
    | Some s => bool_decide (s = "") || negb (Map_has s (deviceBuffers m))
    end in
  if invalid then
    (* ws.close(1008, 'Invalid serial') *)
    let ws := {| ws_id := id; ws_serial := None; readyState := CLOSING; sent := [] |} in
    (set_clients (wss_clients m ++ [ws]) m, Ok tt)
  else
    let ws := {| ws_id := id; ws_serial := serial; readyState := OPEN; sent := [] |} in
    let target := from_option (fun s => Map_get s (activeClients m)) None serial in
    let buf := from_option (fun s => Map_get s (deviceBuffers m)) None serial in
    let ws := from_option
                (fun buf => send_if_cached (idr buf)
                              (send_if_cached (pps buf)
                                 (send_if_cached (sps buf) ws)))
                ws buf in
    let m := set_clients (wss_clients m ++ [ws]) m in
    match target with
    | None => (m, Throw TypeError)       (* target.client of undefined *)
    | Some _ => (m, Ok tt)
    end.

(** What reaches the viewers after a connection: live packets, and the
    status and detail replies addressed to one socket. *)
Inductive Incoming :=
| live_packet (serial : string) (data : Buffer)
| status_reply (id : nat) (data : Buffer).

Definition on_incoming (m : Main) (i : Incoming) : Main :=
  match i with
  | live_packet serial data => on_video_data serial data m
  | status_reply id data =>
      set_clients
        (map (fun ws => if is_open ws && bool_decide (ws_id ws = id)
                        then ws_send data ws else ws) (wss_clients m)) m
  end.

(** The messages sent to socket [id]. *)
Definition sent_to (id : nat) (m : Main) : list Buffer :=
  concat (map (fun ws => if bool_decide (ws_id ws = id) then sent ws else [])
              (wss_clients m)).

(** *** The device scanner *)

Record Device := mkDevice {
  dev_serial : string;
  model : string
}.

(** What a scan does to sessions and ports, in order. *)
Inductive Action :=
| client_stopped (serial : string) (effects : list Effect)
| port_released (p : Z)
| session_removed (serial : string)
| port_allocated (p : Z)
| session_created (serial : string) (p : Z)
| client_started (serial : string)
| scanner_error (e : JsError).

Definition set_registry (a : JsMap Entry) (b : JsMap NalCache) (u : gset Z)
    (m : Main) : Main :=
  {| activeClients := a; deviceBuffers := b; usedPorts := u;
     scanning := scanning m; wss_clients := wss_clients m |}.

(** The first loop, over the entries of [activeClients]. *)
Fixpoint remove_absent (entries : JsMap Entry) (currentSerials : gset string)
    (m : Main) : Main * list Action :=
  match entries with
  | [] => (m, [])
  | (serial, info) :: rest =>
      if bool_decide (serial ∈ currentSerials)
      then remove_absent rest currentSerials m
      else
        let '(_, effects) := stop (client info) in
        let m := set_registry (Map_delete serial (activeClients m))
                              (Map_delete serial (deviceBuffers m))
                              (freePort (info_port info) (usedPorts m)) m in
        let '(m, acts) := remove_absent rest currentSerials m in
        (m, [client_stopped serial effects; port_released (info_port info);
             session_removed serial] ++ acts)
  end.

(** The second loop, over the devices found. An exception leaves the
    loop; what was done before it stays done. *)
Fixpoint add_devices (devices : list Device) (m : Main)
    : Main * list Action * result unit :=
  match devices with
  | [] => (m, [], Ok tt)
  | d :: rest =>
      if Map_has (dev_serial d) (activeClients m) then add_devices rest m
      else
        match allocPort (usedPorts m) with
        | Ok (port, used) =>
            let client := new_ScrcpyClient (dev_serial d) port in
            let m :=
              set_registry
                (Map_set (dev_serial d) {| client := client; info_port := port |}
                         (activeClients m))
                (Map_set (dev_serial d) {| sps := None; pps := None; idr := None |}
                         (deviceBuffers m))
                used m in
            let '(m, acts, r) := add_devices rest m in
            (m, [port_allocated port; session_created (dev_serial d) port;
                 client_started (dev_serial d)] ++ acts, r)
        | Throw e => (m, [], Throw e)
        | Diverge => (m, [], Diverge)
        end
  end.

(** [devices] is what [getAdbDevices()] resolved to. *)
Definition deviceScanner (devices : list Device) (m : Main) : Main * list Action :=
  if scanning m then (m, [])
  else
    let m := set_scanning true m in
    let currentSerials : gset string := list_to_set (dev_serial <$> devices) in
    let '(m, acts1) := remove_absent (activeClients m) currentSerials m in
    let '(m, acts2, r) := add_devices devices m in
    let acts3 := match r with Throw e => [scanner_error e] | _ => [] end in
    (set_scanning false m, acts1 ++ acts2 ++ acts3).

(** The agent of a registered session exits: its client, shared between
    the listener and the registry entry, stops itself. *)
Definition agent_exited (serial : string) (m : Main) : Main * list Effect :=
  match Map_get serial (activeClients m) with
  | None => (m, [])
  | Some info =>
      let '(c, effects) := adbProcess_on_close (client info) in
      (set_registry
         (Map_set serial {| client := c; info_port := info_port info |} (activeClients m))
         (deviceBuffers m) (usedPorts m) m, effects)
  end.

(** The transport socket of a registered session fails and closes. *)
Definition transport_failed (serial : string) (m : Main) : Main * list Effect :=
  match Map_get serial (activeClients m) with
  | None => (m, [])
  | Some info =>
      let '(c, e1) := socket_on_error (client info) in
      let '(c, e2) := socket_on_close c in
      (set_registry
         (Map_set serial {| client := c; info_port := info_port info |} (activeClients m))
         (deviceBuffers m) (usedPorts m) m, e1 ++ e2)
  end.

Definition is_scanner_error (a : Action) : Prop :=
  match a with scanner_error _ => True | _ => False end.
(** ** The framer seen from the unconsumed bytes

    The loop only looks at the bytes from [offset] on. [consume] is one turn
    of the loop on that suffix; [Runs] iterates it until no turn applies. *)

(** Big-endian value of the first four bytes. *)
Definition be32 (l : Buffer) : Z :=
  match l with
  | b0 :: b1 :: b2 :: b3 :: _ =>
      b2z b0 * 2 ^ 24 + b2z b1 * 2 ^ 16 + b2z b2 * 2 ^ 8 + b2z b3
  | _ => 0
  end.

(** The device info a 76-byte header decodes to. *)
Definition header_info (l : Buffer) : DeviceInfo :=
  {| name := replace_nul (toString_utf8 (take 64 l));
     width := be32 (drop 68 l);
     height := be32 (drop 72 l) |}.

Definition consume (c : ScrcpyClient) (l : Buffer)
    : option (ScrcpyClient * Buffer * list Event) :=
  let n := Buffer_length l in
  if n <=? 0 then None
  else match readState c with
       | HEADER =>
           if n <? 76 then None
           else Some (set_header (header_info l) c, drop 76 l, [ready (header_info l)])
       | STREAMING =>
           match streamState c with
           | PACKET_META =>
               if n <? 12 then None
               else Some (set_stream PACKET_DATA (be32 (drop 8 l)) c, drop 12 l, [])
           | PACKET_DATA =>
               let size := currentPacketSize c in
               if n <? size then None
               else Some (set_stream PACKET_META size c,
                          drop (Z.to_nat size) l,
                          [video_data (take (Z.to_nat size) l)])
           end
       end.

Inductive Runs : ScrcpyClient -> Buffer -> ScrcpyClient -> Buffer -> list Event -> Prop :=
| Runs_stop c l :
    consume c l = None -> Runs c l c l []
| Runs_turn c l c1 l1 ev c2 l2 evs :
    consume c l = Some (c1, l1, ev) ->
    Runs c1 l1 c2 l2 evs ->
    Runs c l c2 l2 (ev ++ evs).

(** No turn applies to the client's own buffer: the state every call of
    [_processData] leaves. *)
Definition quiescent (c : ScrcpyClient) : Prop := consume c (buffer c) = None.

(** Sizes come from [readUInt32BE]: they are never negative. *)
Definition wf (c : ScrcpyClient) : Prop := 0 <= currentPacketSize c.

(** Turns still possible are bounded by this measure. *)
Definition measure (c : ScrcpyClient) (l : Buffer) : nat :=
  (2 * length l + match readState c, streamState c with
                  | STREAMING, PACKET_DATA => 1
                  | _, _ => 0
                  end)%nat.

Definition is_video (e : Event) : Prop :=
  match e with video_data _ => True | _ => False end.

Definition is_ready (e : Event) : Prop :=
  match e with ready _ => True | _ => False end.

(** The payloads of the video events of a trace, in order. *)
Fixpoint payloads (evs : list Event) : list Buffer :=
  match evs with
  | [] => []
  | video_data d :: evs' => d :: payloads evs'
  | _ :: evs' => payloads evs'
  end.

(** *** Well-formed streams: a header and complete packets *)

Record Packet := mkPacket {
  pts : Buffer;          (* presentation time stamp, 8 bytes *)
  payload : Buffer
}.

Definition valid_packet (p : Packet) : Prop :=
  length (pts p) = 8%nat /\ Buffer_length (payload p) < 2 ^ 32.

Definition uint32be_bytes (n : Z) : Buffer :=
  [z2b (n / 2 ^ 24); z2b (n / 2 ^ 16); z2b (n / 2 ^ 8); z2b n].

Definition encode_packet (p : Packet) : Buffer :=
  pts p ++ uint32be_bytes (Buffer_length (payload p)) ++ payload p.

Definition encode_packets (ps : list Packet) : Buffer :=
  concat (map encode_packet ps).

(** The events a run over complete packets emits. An empty payload is
    emitted by the turn after its meta, which needs [remaining > 0]: an
    empty last packet has no byte behind it and stays pending. *)
Fixpoint packet_events (ps : list Packet) : list Event :=
  match ps with
  | [] => []
  | p :: ps' =>
      match payload p, ps' with
      | [], [] => []
      | _, _ => video_data (payload p) :: packet_events ps'
      end
  end.


(** Whether a framer outcome is an error: an exception, or an ['error']
    event among those emitted. *)
Definition raises_framing_error (r : result (ScrcpyClient * list Event)) : Prop :=
  match r with
  | Ok (_, evs) => error ∈ evs
  | Throw _ => True
  | Diverge => False
  end.

(** The name as the specification words it: the 64 name bytes with the
    trailing NUL bytes stripped, read as text. *)
Fixpoint strip_trailing_nul (l : Buffer) : Buffer :=
  match l with
  | [] => []
  | b :: rest =>
      match strip_trailing_nul rest with
      | [] => if Byte.eqb b x00 then [] else [b]
      | rest' => b :: rest'
      end
  end.

Definition spec_name (hdr : Buffer) : JsString :=
  toString_utf8 (strip_trailing_nul (take 64 hdr)).

(** *** Sample data *)

(** Header of a device named "Pixel", 1080 x 2400. *)
Definition sample_header : Buffer :=
  [x50; x69; x78; x65; x6c] ++ replicate 59 x00 ++
  [x00; x00; x00; x00] ++ [x00; x00; x04; x38] ++ [x00; x00; x09; x60].

(** Header whose name field holds "A", NUL, "B" and NUL padding. *)
Definition nul_header : Buffer :=
  [x41; x00; x42] ++ replicate 61 x00 ++
  [x00; x00; x00; x00] ++ [x00; x00; x04; x38] ++ [x00; x00; x09; x60].

Definition sample_pts : Buffer := replicate 8 x00.

Definition sample_packets : list Packet :=
  [ {| pts := sample_pts; payload := [x00; x00; x00; x01; x67; x42] |};
    {| pts := sample_pts; payload := [] |};
    {| pts := sample_pts; payload := [x00; x00; x00; x01; x65] |} ].

(** A client that has read the sample header and waits for a meta. *)
Definition streaming_client : ScrcpyClient :=
  set_header (header_info sample_header) (new_ScrcpyClient "A" 27183).

(** *** The touch message *)

(** The 32 bytes [sendTouch] builds, field after field. *)
Definition touch_message (action x y w h : Z) : Buffer :=
  be_bytes 1 2 ++ be_bytes 1 action ++ replicate 8 x00 ++
  be_bytes 4 x ++ be_bytes 4 y ++
  be_bytes 2 w ++ be_bytes 2 h ++
  be_bytes 2 (if action =? 1 then 0 else 65535) ++
  be_bytes 4 1 ++ be_bytes 4 0.

(** The layout the code produces: width and height come before the
    pressure field. *)
Definition touch_layout (msg : Buffer) (action x y w h : Z) : Prop :=
  length msg = 32%nat /\
  subarray msg 0 1 = be_bytes 1 2 /\
  subarray msg 1 2 = be_bytes 1 action /\
  subarray msg 10 14 = be_bytes 4 x /\
  subarray msg 14 18 = be_bytes 4 y /\
  subarray msg 18 20 = be_bytes 2 w /\
  subarray msg 20 22 = be_bytes 2 h /\
  subarray msg 22 24 = be_bytes 2 (if action =? 1 then 0 else 65535) /\
  subarray msg 24 28 = be_bytes 4 1 /\
  subarray msg 28 32 = be_bytes 4 0.

(** No value is truncated by its field. *)
Definition touch_fields_fit (action x y w h : Z) : Prop :=
  0 <= action <= 255 /\
  - 2 ^ 31 <= x <= 2 ^ 31 - 1 /\
  - 2 ^ 31 <= y <= 2 ^ 31 - 1 /\
  0 <= w <= 65535 /\
  0 <= h <= 65535.

(** The layout as the specification words it: the pressure field comes
    before width and height. *)
Definition spec_touch_layout (msg : Buffer) (action x y w h : Z) : Prop :=
  length msg = 32%nat /\
  subarray msg 0 1 = be_bytes 1 2 /\
  subarray msg 1 2 = be_bytes 1 action /\
  subarray msg 10 14 = be_bytes 4 x /\
  subarray msg 14 18 = be_bytes 4 y /\
  subarray msg 18 20 = be_bytes 2 (if action =? 1 then 0 else 65535) /\
  subarray msg 20 22 = be_bytes 2 w /\
  subarray msg 22 24 = be_bytes 2 h /\
  subarray msg 24 28 = be_bytes 4 1 /\
  subarray msg 28 32 = be_bytes 4 0.

(** *** Numbers

    A Number is an IEEE 754 binary64 value; [spec_float] with precision
    53 and maximal exponent 1024 is the Standard Library's specification
    of it. *)
Definition double : Type := spec_float.

(** [x * y]: the exact product rounded to the nearest double, ties to
    even. *)
Definition double_mul : double -> double -> double := SFmul 53 1024.

(** The Number of an integer; exact below 2^53, so for every width and
    height [readUInt32BE] returns. *)
Definition double_of_Z (z : Z) : double := binary_normalize 53 1024 z 0 false.

(** [Math.round(x)]: the integer nearest to [x], a half going towards
    +Infinity, so floor(x + 1/2) taken exactly; NaN and the infinities
    are returned as they are, and -0 counts as 0. *)
Definition Math_round (x : double) : JsNumber :=
  match x with
  | S754_zero _ => Int 0
  | S754_infinity s => Infinity s
  | S754_nan => NaN
  | S754_finite s m e =>
      let v := if s then Z.neg m else Z.pos m in
      if 0 <=? e then Int (v * 2 ^ e)
      else Int ((2 * v + 2 ^ (- e)) / 2 ^ (1 - e))
  end.

(** [Math.round(xPercent * d)] for a Number [xPercent] and an integer
    [d]. *)
Definition double_round_scale (xPercent : double) (d : Z) : JsNumber :=
  Math_round (double_mul xPercent (double_of_Z d)).

(** 0.5, -0.5 and the double nearest to 1/3. *)
Definition double_half : double := S754_finite false 4503599627370496 (-53).
Definition double_minus_half : double := S754_finite true 4503599627370496 (-53).
Definition double_third : double := S754_finite false 6004799503160661 (-54).

Definition never_throws : handle -> Buffer -> bool := fun _ _ => false.

(** A running client: listener 1, agent process 2, socket 3, header read. *)
Definition running_client : ScrcpyClient :=
  set_handles (Some 1%nat) (Some 2%nat) (Some 3%nat) streaming_client.

(** *** Registry samples *)

(** The registry with the running client as the session of device "A". *)
Definition running_main : Main :=
  {| activeClients := [("A"%string, {| client := running_client; info_port := 27183 |})];
     deviceBuffers := [("A"%string, {| sps := None; pps := None; idr := None |})];
     usedPorts := {[27183]};
     scanning := false;
     wss_clients := [] |}.

Definition empty_main : Main :=
  {| activeClients := []; deviceBuffers := []; usedPorts := ∅;
     scanning := false; wss_clients := [] |}.

(** Every port of the range leased. *)
Definition all_ports : gset Z := list_to_set (seqZ 27183 817).

(** Every registered session belongs to a device of the set [S]. *)
Definition keys_in (S : gset string) (m : Main) : Prop :=
  forall e, e ∈ activeClients m -> e.1 ∈ S.

(** The later deliveries addressed to socket [id] subscribed to [serial]. *)
Fixpoint deliveries (id : nat) (serial : string) (incoming : list Incoming)
    : list Buffer :=
  match incoming with
  | [] => []
  | live_packet s data :: rest =>
      if bool_decide (s = serial) then data :: deliveries id serial rest
      else deliveries id serial rest
  | status_reply i data :: rest =>
      if bool_decide (i = id) then data :: deliveries id serial rest
      else deliveries id serial rest
  end.

Definition sample_sps : Buffer := [x00; x00; x00; x01; x67; x42].
Definition sample_pps : Buffer := [x00; x00; x00; x01; x68; xce].
Definition sample_idr : Buffer := [x00; x00; x00; x01; x65; x88].
Definition sample_frame : Buffer := [x00; x00; x00; x01; x41; x9a].

(** ** Proof tools *)

(** Boolean comparisons of the code, as propositions for [lia]. *)
Ltac zbool :=
  repeat match goal with
         | H : (_ <? _) = true |- _ => apply Z.ltb_lt in H
         | H : (_ <? _) = false |- _ => apply Z.ltb_ge in H
         | H : (_ <=? _) = true |- _ => apply Z.leb_le in H
         | H : (_ <=? _) = false |- _ => apply Z.leb_gt in H
         | H : (_ =? _) = true |- _ => apply Z.eqb_eq in H
         | H : (_ =? _) = false |- _ => apply Z.eqb_neq in H
         end.

(** ** Further definitions *)

(** A client state some sequence of chunks leads to from a new client. *)
Definition reachable (c : ScrcpyClient) : Prop :=
  exists s p chunks evs, feed (new_ScrcpyClient s p) chunks = Ok (c, evs).

(** The number of bytes the framer still holds back is below what the
    state waits for. *)
Definition buffer_bounded (c : ScrcpyClient) : Prop :=
  match readState c, streamState c with
  | HEADER, _ => Buffer_length (buffer c) < 76
  | STREAMING, PACKET_META => Buffer_length (buffer c) < 12
  | STREAMING, PACKET_DATA =>
      Buffer_length (buffer c) < currentPacketSize c \/ buffer c = []
  end.

(** 1 while a packet's meta has been read and its payload has not. *)
Definition pending_meta (c : ScrcpyClient) : Z :=
  match streamState c with PACKET_DATA => 1 | PACKET_META => 0 end.

(** Whether every value of a touch message fits its field. *)
Definition touch_fits (action : Z) (x y : JsNumber) (w h : Z) : bool :=
  negb (out_of_range (Int action) 0 255) &&
  negb (out_of_range x (-2147483648) 2147483647) &&
  negb (out_of_range y (-2147483648) 2147483647) &&
  negb (out_of_range (Int w) 0 65535) &&
  negb (out_of_range (Int h) 0 65535).

(** *** JavaScript strings *)

(** A string literal of the source, as code points. *)
Definition str (s : string) : JsString :=
  (fun a => Z.of_N (Ascii.N_of_ascii a)) <$> String.list_ascii_of_string s.

(** The characters [\s] matches: white space and line terminators. *)
Definition is_space (c : Z) : bool :=
  (c =? 9) || (c =? 10) || (c =? 11) || (c =? 12) || (c =? 13) || (c =? 32) ||
  (c =? 0xA0) || (c =? 0x1680) || ((0x2000 <=? c) && (c <=? 0x200A)) ||
  (c =? 0x2028) || (c =? 0x2029) || (c =? 0x202F) || (c =? 0x205F) ||
  (c =? 0x3000) || (c =? 0xFEFF).

(** [s.startsWith(pat)] *)
Fixpoint starts_with (pat s : JsString) : bool :=
  match pat, s with
  | [], _ => true
  | _ :: _, [] => false
  | p :: pat', c :: s' => (p =? c) && starts_with pat' s'
  end.

(** [s.includes(pat)] *)
Fixpoint includes (pat s : JsString) : bool :=
  starts_with pat s ||
  match s with
  | [] => false
  | _ :: s' => includes pat s'
  end.

(** *** Starting a client, keys and text *)

(** The adb invocations of the client, by what they ask for; each runs
    [adb -s <serial>] with the arguments quoted. *)
Inductive AdbCommand :=
| reverse_remove_all            (* reverse --remove-all *)
| push_server                   (* push <serverJarPath> <deviceServerPath> *)
| reverse_tunnel (port : Z)     (* reverse localabstract:scrcpy tcp:<port> *)
| input_keyevent (keycode : Z)  (* shell input keyevent <keycode> *)
| input_text (arg : JsString)   (* shell input text <arg> *)
| dumpsys_power                 (* shell dumpsys power *)
| getprop (name : string).      (* shell getprop <name> *)

(** What the client does while it starts or injects input, in order. *)
Inductive Step :=
| adb (serial : string) (cmd : AdbCommand)
| listen (l : handle) (port : Z)
| settle_delay
| spawn_server (serial : string) (p : handle)
| client_effect (e : Effect).

(** How the awaited steps of one [start] turn out, and the handles the
    system hands back. *)
Record StartRun := mkStartRun {
  removed : bool;          (* reverse --remove-all exited with code 0 *)
  listening : bool;        (* the listener came up on the port *)
  pushed : bool;           (* push exited with code 0 *)
  tunnelled : bool;        (* reverse exited with code 0 *)
  server_handle : handle;  (* what net.createServer returns *)
  agent_handle : handle    (* what spawn returns *)
}.

(** The [catch] block of [start]. *)
Definition start_failed (c : ScrcpyClient) (steps : list Step)
    : ScrcpyClient * list Step :=
  ((stop c).1,
   steps ++ [client_effect console_error; client_effect (emit error)] ++
   map client_effect (stop c).2).

(** [_setupLocalServer], up to the call of [listen]. *)
Definition _setupLocalServer (l : handle) (c : ScrcpyClient)
    : ScrcpyClient * list Step :=
  (set_handles (Some l) (adbProcess c) (socket c) c,
   match localServer c with
   | Some old => [client_effect (server_close old)]
   | None => []
   end ++ [listen l (port c)]).

(** [_spawnServerProcess] *)
Definition _spawnServerProcess (p : handle) (c : ScrcpyClient)
    : ScrcpyClient * list Step :=
  (set_handles (localServer c) (Some p) (socket c) c, [spawn_server (serial c) p]).

(** [start], its awaited steps taken in one go. *)
Definition start (r : StartRun) (c : ScrcpyClient) : ScrcpyClient * list Step :=
  let s1 := [adb (serial c) reverse_remove_all] in
  if negb (removed r) then start_failed c s1
  else
    let '(c, s2) := _setupLocalServer (server_handle r) c in
    if negb (listening r) then start_failed c (s1 ++ s2)
    else
      let s3 := [adb (serial c) push_server] in
      if negb (pushed r) then start_failed c (s1 ++ s2 ++ s3)
      else
        let s4 := [adb (serial c) (reverse_tunnel (port c))] in
        if negb (tunnelled r) then start_failed c (s1 ++ s2 ++ s3 ++ s4)
        else
          let '(c, s5) := _spawnServerProcess (agent_handle r) c in
          (c, s1 ++ s2 ++ s3 ++ s4 ++ [settle_delay] ++ s5).

Definition start_succeeds (r : StartRun) : bool :=
  removed r && listening r && pushed r && tunnelled r.

Definition KEY_EVENT_WAKE : Z := 224.
Definition KEY_EVENT_SLEEP : Z := 223.

(** How an adb subprocess ends: it closes with an exit code and what it
    wrote to stdout, or it could not be spawned. *)
Inductive AdbExit :=
| closed (code : Z) (stdout : JsString)
| spawn_failed.

(** What the promise of [runAdbCommand] settles to. *)
Definition runAdbCommand (r : AdbExit) : result JsString :=
  match r with
  | closed code out => if code =? 0 then Ok out else Ok []
  | spawn_failed => Throw (Error "spawn")
  end.

(** [sendKey]: the command is issued and not awaited; a failure is only
    logged. *)
Definition sendKey (serial : string) (keycode : Z) : list Step :=
  [adb serial (input_keyevent keycode)].

(** [wakeScreen], given how the power query ends. *)
Definition wakeScreen (serial : string) (query : AdbExit) : list Step :=
  adb serial dumpsys_power ::
  match runAdbCommand query with
  | Ok output =>
      if includes (str "mWakefulness=Asleep") output
      then sendKey serial KEY_EVENT_WAKE
      else sendKey serial KEY_EVENT_SLEEP
  | _ => [client_effect console_error]
  end.

(** [setScreenPower], given how the power query ends. *)
Definition setScreenPower (serial : string) (turnOn : bool) (query : AdbExit)
    : list Step :=
  adb serial dumpsys_power ::
  match runAdbCommand query with
  | Ok output =>
      let isAwake := includes (str "mWakefulness=Awake") output in
      if turnOn && negb isAwake then [adb serial (input_keyevent 224)]
      else if negb turnOn && isAwake then [adb serial (input_keyevent 223)]
      else []
  | _ => [client_effect console_error]
  end.

(** The three [replace] calls of [sendText]. *)
Definition replace_all (matches : Z -> bool) (by_ : Z -> JsString) (s : JsString)
    : JsString :=
  concat (map (fun c => if matches c then by_ c else [c]) s).

Definition safeText (text : JsString) : JsString :=
  replace_all (fun c => c =? 34) (fun _ => [92; 34])
    (replace_all (fun c => c =? 39) (fun _ => [92; 39])
       (replace_all is_space (fun _ => str "%s") text)).

(** [sendText]; an empty text is falsy. *)
Definition sendText (serial : string) (text : JsString) : list Step :=
  match text with
  | [] => []
  | _ => [adb serial (input_text ([39] ++ safeText text ++ [39]))]
  end.

(** Every quote has a backslash right before it; [prev] is the character
    before the string. *)
Fixpoint quotes_escaped (prev : Z) (s : JsString) : bool :=
  match s with
  | [] => true
  | c :: s' =>
      (if (c =? 34) || (c =? 39) then prev =? 92 else true) && quotes_escaped c s'
  end.

(** Every [q] has a backslash right before it. *)
Fixpoint char_escaped (q prev : Z) (s : JsString) : bool :=
  match s with
  | [] => true
  | c :: s' => (if c =? q then prev =? 92 else true) && char_escaped q c s'
  end.

(** Membership in an explicit list: all the cases of a hypothesis, and
    the search for a goal. *)
Ltac elem_cases H :=
  repeat (apply elem_of_cons in H as [H|H];
          [try discriminate H; try (inversion H; subst; clear H)|]);
  try (apply elem_of_nil in H; contradiction).

Ltac elem_search :=
  repeat first [apply list_elem_of_here | apply list_elem_of_further].

(** *** The registry as a state machine *)

(** The client [c'] under the serial and the port of [c]. *)
Definition same_identity (c c' : ScrcpyClient) : ScrcpyClient :=
  {| serial := serial c; port := port c;
     localServer := localServer c'; adbProcess := adbProcess c'; socket := socket c';
     buffer := buffer c';
     readState := readState c'; streamState := streamState c';
     currentPacketSize := currentPacketSize c'; deviceInfo := deviceInfo c' |}.

(** What [start], the socket listeners and the framer do to a registered
    client: they change its inner state, never its serial or its port. *)
Definition client_progress (key : string) (c' : ScrcpyClient) (m : Main) : Main :=
  match Map_get key (activeClients m) with
  | None => m
  | Some info =>
      set_registry
        (Map_set key
           {| client := same_identity (client info) c'; info_port := info_port info |}
           (activeClients m))
        (deviceBuffers m) (usedPorts m) m
  end.

(** The states the handlers of [main.js] lead to from the initial one. *)
Inductive main_reachable : Main -> Prop :=
| reach_initial : main_reachable empty_main
| reach_scan devices m :
    main_reachable m -> main_reachable (deviceScanner devices m).1
| reach_incoming i m :
    main_reachable m -> main_reachable (on_incoming m i)
| reach_connection id serial m :
    main_reachable m -> main_reachable (on_connection id serial m).1
| reach_agent_exited serial m :
    main_reachable m -> main_reachable (agent_exited serial m).1
| reach_transport_failed serial m :
    main_reachable m -> main_reachable (transport_failed serial m).1
| reach_client_progress key c' m :
    main_reachable m -> main_reachable (client_progress key c' m).

(** The ports of the registered sessions, in registry order. *)
Definition session_ports (m : Main) : list Z :=
  (fun e => info_port e.2) <$> activeClients m.

(** What the registry keeps true: one session per serial, one port per
    session, a port leased exactly when a session holds it, every session
    port inside the range, a NAL cache for exactly the registered serials,
    and every client created for the serial and the port it is registered
    under. *)
Definition registry_ok (m : Main) : Prop :=
  NoDup (activeClients m).*1 /\
  NoDup (session_ports m) /\
  (forall p, p ∈ usedPorts m <-> p ∈ session_ports m) /\
  (forall p, p ∈ session_ports m -> 27183 <= p < 28000) /\
  (deviceBuffers m).*1 = (activeClients m).*1 /\
  (forall k e, (k, e) ∈ activeClients m ->
               serial (client e) = k /\ port (client e) = info_port e).

(** The serial an action is about, if it is about a session. *)
Definition action_serial (a : Action) : option string :=
  match a with
  | client_stopped s _ | session_removed s | session_created s _ | client_started s =>
      Some s
  | port_released _ | port_allocated _ | scanner_error _ => None
  end.

(** [n] devices with different two-character serials (n at most 4096). *)
Definition numbered_devices (n : nat) : list Device :=
  (fun i => mkDevice
              (String (Ascii.ascii_of_nat (48 + i / 64))
                 (String (Ascii.ascii_of_nat (48 + i mod 64)) EmptyString))
              "Pixel") <$> seq 0 n.

(** *** The NAL cache over a run of deliveries *)

(** The last live packet of NAL type [t] for [serial], or [init] when
    there is none. *)
Fixpoint latest (t : Z) (serial : string) (incoming : list Incoming)
    (init : option Buffer) : option Buffer :=
  match incoming with
  | [] => init
  | live_packet s data :: rest =>
      latest t serial rest
        (if bool_decide (s = serial) && (nalType data =? t) then Some data else init)
  | status_reply _ _ :: rest => latest t serial rest init
  end.

(** The connection handler turns the viewer away. *)
Definition rejected (serial : option string) (m : Main) : Prop :=
  match serial with
  | None => True
  | Some s => s = ""%string \/ Map_has s (deviceBuffers m) = false
  end.

(** *** Listing the attached devices: [getAdbDevices] *)

(** [c] put in front of the first string of [l]. *)
Definition cons_head (c : Z) (l : list JsString) : list JsString :=
  match l with
  | [] => [[c]]
  | w :: ws => (c :: w) :: ws
  end.

(** [s.split(sep)] for a separator of one character: the pieces between
    the separators, one piece more than there are separators. *)
Fixpoint split_on (sep : Z) (s : JsString) : list JsString :=
  match s with
  | [] => [[]]
  | c :: s' => if c =? sep then [] :: split_on sep s' else cons_head c (split_on sep s')
  end.

(** [s.split(/\s+/)]: the pieces between the maximal runs of white space;
    a run at the start or at the end leaves an empty piece there. *)
Fixpoint split_spaces (s : JsString) : list JsString :=
  match s with
  | [] => [[]]
  | c :: s' =>
      if is_space c then
        match s' with
        | [] => [[]; []]
        | c' :: _ => if is_space c' then split_spaces s' else [] :: split_spaces s'
        end
      else cons_head c (split_spaces s')
  end.

(** [{ serial, model }]; [None] is [undefined]. *)
Record AdbDevice := mkAdbDevice {
  adb_serial : option JsString;
  adb_model : option JsString
}.

(** The function mapped over the lines kept. *)
Definition device_of_line (l : JsString) : AdbDevice :=
  let parts := split_spaces l in
  let model := List.find (starts_with (str "model:")) parts in
  {| adb_serial := parts !! 0%nat;
     adb_model := match model with
                  | Some model => split_on 58 model !! 1%nat
                  | None => Some (str "Unknown")
                  end |}.

(** The filter on the lines. *)
Definition device_line (l : JsString) : bool :=
  includes (str "device") l && negb (starts_with (str "List") l).

(** [getAdbDevices], given how [adb devices -l] ends; [stdout] is all it
    wrote. *)
Definition getAdbDevices (r : AdbExit) : list AdbDevice :=
  match r with
  | closed _ out => device_of_line <$> List.filter device_line (split_on 10 out)
  | spawn_failed => []
  end.

(** **** What [adb devices -l] prints *)











(** *** Device details and power status *)

Fixpoint drop_spaces (s : JsString) : JsString :=
  match s with
  | [] => []
  | c :: s' => if is_space c then drop_spaces s' else s
  end.

(** [s.trim()] *)
Definition trim (s : JsString) : JsString :=
  rev (drop_spaces (rev (drop_spaces s))).

(** A string is truthy when it is not empty. *)
Definition truthy (s : JsString) : bool :=
  match s with [] => false | _ => true end.

(** [{ model, version }] *)
Record Details := mkDetails {
  det_model : JsString;
  det_version : JsString
}.

(** The five properties asked for, in the order of the array. *)
Definition detail_queries (serial : string) : list Step :=
  [adb serial (getprop "ro.product.manufacturer");
   adb serial (getprop "ro.product.model");
   adb serial (getprop "ro.product.brand");
   adb serial (getprop "ro.product.marketname");
   adb serial (getprop "ro.build.version.release")].

Section Details.

(** [String.prototype.toLowerCase], the Unicode lower-case mapping. *)
Variable toLowerCase : JsString -> JsString.

Definition finalName (manufacturer model brand marketName : JsString) : JsString :=
  if truthy marketName then marketName
  else if truthy brand && starts_with (toLowerCase brand) (toLowerCase model) then model
  else if truthy brand then brand ++ [32] ++ model
  else if truthy manufacturer then manufacturer ++ [32] ++ model
  else model.

(** [getDeviceDetails], given how the five queries end: what it resolves
    to, and what it does. *)
Definition getDeviceDetails (serial : string)
    (q_manufacturer q_model q_brand q_marketName q_version : AdbExit)
    : Details * list Step :=
  let all :=
    let* manufacturer := runAdbCommand q_manufacturer in
    let* model := runAdbCommand q_model in
    let* brand := runAdbCommand q_brand in
    let* marketName := runAdbCommand q_marketName in
    let* version := runAdbCommand q_version in
    Ok (trim manufacturer, trim model, trim brand, trim marketName, trim version) in
  match all with
  | Ok (manufacturer, model, brand, marketName, version) =>
      ({| det_model := finalName manufacturer model brand marketName;
          det_version := str "Android " ++ version |},
       detail_queries serial)
  | _ =>
      ({| det_model := str "Unknown"; det_version := str "Unknown" |},
       detail_queries serial ++ [client_effect console_error])
  end.

End Details.

(** A query that ran and exited with a code other than 0. *)
Definition exit_nonzero (q : AdbExit) : Prop :=
  match q with
  | closed code _ => code <> 0
  | spawn_failed => False
  end.

Definition quoted (s : JsString) : JsString := [34] ++ s ++ [34].

(** [Buffer.from(JSON.stringify({ type: 'status', wakeState }))] *)
Definition status_message (isAwake : bool) : Buffer :=
  z2b <$> ([123] ++ quoted (str "type") ++ [58] ++ quoted (str "status") ++ [44] ++
           quoted (str "wakeState") ++ [58] ++
           quoted (str (if isAwake then "Awake" else "Asleep")) ++ [125]).

(** [sendPowerStatus], given how the power query ends: what it does, and
    the message it sends to the socket, if any. *)
Definition sendPowerStatus (ws : WebSocket) (serial : string) (query : AdbExit)
    : list Step * option Buffer :=
  if negb (is_open ws) then ([], None)
  else
    match runAdbCommand query with
    | Ok output =>
        let isAwake := includes (str "mWakefulness=Awake") output in
        ([adb serial dumpsys_power], Some (status_message isAwake))
    | _ => ([adb serial dumpsys_power; client_effect console_error], None)
    end.

(** *** Fractions of the screen *)

(** 1.0 *)
Definition double_one : double := S754_finite false 4503599627370496 (-52).

(** [0 <= f && f <= 1] for a Number [f]: a binary64 value that the
    comparisons place between 0 and 1. *)
Definition in_unit (f : double) : bool :=
  valid_binary 53 1024 f && SFleb (S754_zero false) f && SFleb f double_one.

(** 0.0023148148148148147, the double whose product with 1080 is exactly
    2.5. *)
Definition double_sample : double := S754_finite false 5337599558365032 (-61).

(** *** Auxiliary notions of the proofs *)

(** No socket named [id] is open or has been sent anything. *)
Definition quiet (id : nat) (l : list WebSocket) : Prop :=
  forall ws, ws ∈ l -> ws_id ws = id -> is_open ws = false /\ sent ws = [].



(** [0 <= x <= W], for an integer [W]. *)
Definition below (W : Z) (x : double) : Prop :=
  match x with
  | S754_zero _ => True
  | S754_finite false m e => e <= 0 /\ Z.pos m <= W * 2 ^ (- e)
  | _ => False
  end.

(** [r] is what [k] shifts to the right make of the mantissa [M]. *)
Definition shifted (M k : Z) (r : shr_record) : Prop :=
  shr_m r = M / 2 ^ k /\ (M mod 2 ^ k = 0 -> shr_r r = false /\ shr_s r = false).
(** *** Bytes *)

Lemma b2z_range b : 0 <= b2z b < 256.
Proof. unfold b2z. pose proof (Byte.to_N_bounded b). lia. Qed.

Lemma b2z_z2b z : b2z (z2b z) = z mod 256.
Proof.
  unfold b2z, z2b.
  assert (Hr : 0 <= z mod 256 < 256) by (apply Z.mod_pos_bound; lia).
  destruct (Byte.of_N (Z.to_N (z mod 256))) as [b|] eqn:E.
  - apply Byte.to_of_N in E. simpl. rewrite E. lia.
  - apply Byte.of_N_None_iff in E. lia.
Qed.

Lemma be32_range l : 0 <= be32 l < 2 ^ 32.
Proof.
  unfold be32. destruct l as [|b0 [|b1 [|b2 [|b3 ?]]]]; try lia.
  pose proof (b2z_range b0). pose proof (b2z_range b1).
  pose proof (b2z_range b2). pose proof (b2z_range b3). lia.
Qed.

Lemma be32_app l k : (4 <= length l)%nat -> be32 (l ++ k) = be32 l.
Proof.
  destruct l as [|b0 [|b1 [|b2 [|b3 ?]]]]; simpl; intros; lia.
Qed.

Lemma readUInt32BE_be32 buf off :
  0 <= off -> off + 4 <= Buffer_length buf ->
  readUInt32BE buf off = Ok (be32 (drop (Z.to_nat off) buf)).
Proof.
  unfold readUInt32BE, Buffer_length. intros H0 H4.
  destruct (off <? 0) eqn:E; [lia|].
  assert (Hlen : (4 <= length (drop (Z.to_nat off) buf))%nat)
    by (rewrite length_drop; lia).
  destruct (drop (Z.to_nat off) buf) as [|b0 [|b1 [|b2 [|b3 ?]]]];
    simpl in Hlen; try lia.
  reflexivity.
Qed.

(** *** The loop body is [consume] on the suffix at [offset] *)

Lemma drop_Z_add {A} (l : list A) (a b : Z) :
  0 <= a -> 0 <= b ->
  drop (Z.to_nat b) (drop (Z.to_nat a) l) = drop (Z.to_nat (a + b)) l.
Proof. intros. rewrite drop_drop. f_equal. lia. Qed.

Lemma Buffer_length_drop (buf : Buffer) (off : Z) :
  0 <= off <= Buffer_length buf ->
  Buffer_length (drop (Z.to_nat off) buf) = Buffer_length buf - off.
Proof. unfold Buffer_length. rewrite length_drop. lia. Qed.

Lemma loop_body_consume c off rem :
  wf c -> 0 <= off -> rem = Buffer_length (buffer c) - off -> 0 < rem ->
  match consume c (drop (Z.to_nat off) (buffer c)) with
  | None => loop_body c off rem = Ok Break
  | Some (c1, l1, ev) =>
      exists k, 0 <= k <= rem /\
        loop_body c off rem = Ok (Next c1 (off + k) (rem - k) ev) /\
        l1 = drop (Z.to_nat (off + k)) (buffer c)
  end.
Proof.
  intros Hwf Hoff Hrem Hpos. unfold wf in Hwf.
  unfold consume, loop_body.
  rewrite Buffer_length_drop by lia. rewrite <- Hrem.
  destruct (rem <=? 0) eqn:E0; [lia|].
  unfold CONSTANTS.HEADER_SIZE, CONSTANTS.PACKET_META_SIZE,
    CONSTANTS.DEVICE_NAME_FIELD_LENGTH.
  destruct (readState c).
  - destruct (rem <? 76) eqn:E; [reflexivity|].
    exists 76. split; [lia|].
    rewrite !readUInt32BE_be32 by lia. simpl.
    unfold header_info, subarray.
    replace (Z.to_nat (off + 64 - off)) with 64%nat by lia.
    rewrite !drop_drop, !Z2Nat.inj_add by lia. split; reflexivity.
  - destruct (streamState c).
    + destruct (rem <? 12) eqn:E; [reflexivity|].
      exists 12. split; [lia|].
      rewrite readUInt32BE_be32 by lia. simpl.
      rewrite !drop_drop, !Z2Nat.inj_add by lia. split; reflexivity.
    + destruct (rem <? currentPacketSize c) eqn:E; [reflexivity|].
      exists (currentPacketSize c). split; [lia|].
      unfold subarray.
      replace (off + currentPacketSize c - off) with (currentPacketSize c) by lia.
      rewrite drop_Z_add by lia. split; reflexivity.
Qed.

(** *** Properties of [consume] and [Runs] *)

Lemma consume_buffer c l c1 l1 ev :
  consume c l = Some (c1, l1, ev) -> buffer c1 = buffer c.
Proof.
  unfold consume. intros H.
  repeat match type of H with
         | context [if ?b then _ else _] => destruct b
         | context [match ?x with _ => _ end] => destruct x
         end; inversion H; reflexivity.
Qed.

Lemma consume_wf c l c1 l1 ev :
  wf c -> consume c l = Some (c1, l1, ev) -> wf c1.
Proof.
  unfold consume, wf. intros Hwf H.
  repeat match type of H with
         | context [if ?b then _ else _] => destruct b
         | context [match ?x with _ => _ end] => destruct x
         end; inversion H; simpl; try assumption.
  apply be32_range.
Qed.

Lemma consume_set_buffer b c l :
  consume (set_buffer b c) l =
  match consume c l with
  | Some (c1, l1, ev) => Some (set_buffer b c1, l1, ev)
  | None => None
  end.
Proof.
  unfold consume. simpl.
  repeat match goal with
         | |- context [if ?b then _ else _] => destruct b
         | |- context [match ?x with _ => _ end] => destruct x
         end; reflexivity.
Qed.

Lemma consume_suffix c l c1 l1 ev :
  wf c -> consume c l = Some (c1, l1, ev) ->
  exists k, (k <= length l)%nat /\ l1 = drop k l /\
            (measure c1 l1 < measure c l)%nat.
Proof.
  unfold consume, wf, measure, Buffer_length. intros Hwf H.
  destruct (Z.of_nat (length l) <=? 0) eqn:E0; [discriminate|].
  destruct (readState c) eqn:Er.
  - destruct (Z.of_nat (length l) <? 76) eqn:E; [discriminate|].
    inversion H; subst. exists 76%nat. simpl. rewrite length_drop.
    split; [lia|]. split; [reflexivity|]. destruct (streamState c); lia.
  - destruct (streamState c) eqn:Es.
    + destruct (Z.of_nat (length l) <? 12) eqn:E; [discriminate|].
      inversion H; subst. exists 12%nat. simpl. rewrite length_drop, Er.
      split; [lia|]. split; [reflexivity|]. lia.
    + destruct (Z.of_nat (length l) <? currentPacketSize c) eqn:E; [discriminate|].
      inversion H; subst. exists (Z.to_nat (currentPacketSize c)).
      simpl. rewrite length_drop, Er.
      split; [lia|]. split; [reflexivity|]. lia.
Qed.

(** More bytes behind the suffix do not change a turn that applies. *)
Lemma consume_app c l x c1 l1 ev :
  wf c -> consume c l = Some (c1, l1, ev) ->
  consume c (l ++ x) = Some (c1, l1 ++ x, ev).
Proof.
  unfold consume, wf, Buffer_length. intros Hwf H.
  rewrite length_app.
  destruct (Z.of_nat (length l) <=? 0) eqn:E0; [discriminate|].
  destruct (Z.of_nat (length l + length x) <=? 0) eqn:E0'; [zbool; lia|].
  destruct (readState c) eqn:Er.
  - destruct (Z.of_nat (length l) <? 76) eqn:E; [discriminate|].
    destruct (Z.of_nat (length l + length x) <? 76) eqn:E'; [zbool; lia|].
    inversion H; subst.
    assert (Hi : header_info (l ++ x) = header_info l).
    { unfold header_info. rewrite take_app_le by (zbool; lia).
      rewrite !drop_app_le by (zbool; lia).
      rewrite !be32_app by (rewrite length_drop; zbool; lia). reflexivity. }
    rewrite Hi, drop_app_le by (zbool; lia). reflexivity.
  - destruct (streamState c) eqn:Es.
    + destruct (Z.of_nat (length l) <? 12) eqn:E; [discriminate|].
      destruct (Z.of_nat (length l + length x) <? 12) eqn:E'; [zbool; lia|].
      inversion H; subst.
      rewrite !drop_app_le by (zbool; lia).
      rewrite be32_app by (rewrite length_drop; zbool; lia). reflexivity.
    + destruct (Z.of_nat (length l) <? currentPacketSize c) eqn:E; [discriminate|].
      destruct (Z.of_nat (length l + length x) <? currentPacketSize c) eqn:E'; [zbool; lia|].
      inversion H; subst.
      rewrite drop_app_le, take_app_le by (zbool; lia). reflexivity.
Qed.

Lemma Runs_buffer c l c' l' evs : Runs c l c' l' evs -> buffer c' = buffer c.
Proof.
  induction 1 as [|c l c1 l1 ev c2 l2 evs Hc _ IH]; [reflexivity|].
  rewrite IH. eapply consume_buffer; eassumption.
Qed.

Lemma Runs_wf c l c' l' evs : wf c -> Runs c l c' l' evs -> wf c'.
Proof.
  intros Hwf HR. induction HR as [|c l c1 l1 ev c2 l2 evs Hc _ IH]; [assumption|].
  apply IH. eapply consume_wf; eassumption.
Qed.

Lemma Runs_final c l c' l' evs : Runs c l c' l' evs -> consume c' l' = None.
Proof. induction 1; assumption. Qed.

Lemma Runs_suffix c l c' l' evs :
  wf c -> Runs c l c' l' evs ->
  exists k, (k <= length l)%nat /\ l' = drop k l.
Proof.
  intros Hwf HR. induction HR as [c l|c l c1 l1 ev c2 l2 evs Hc _ IH].
  - exists 0%nat. split; [lia|reflexivity].
  - destruct (consume_suffix _ _ _ _ _ Hwf Hc) as (k & Hk & -> & _).
    destruct IH as (k' & Hk' & ->); [eapply consume_wf; eassumption|].
    rewrite length_drop in Hk'. exists (k + k')%nat.
    split; [lia|]. apply drop_drop.
Qed.

Lemma Runs_det c l c1 l1 e1 c2 l2 e2 :
  Runs c l c1 l1 e1 -> Runs c l c2 l2 e2 -> c1 = c2 /\ l1 = l2 /\ e1 = e2.
Proof.
  intros H1. revert c2 l2 e2.
  induction H1 as [c l Hc|c l ca la ev cb lb evs Hc _ IH]; intros c2 l2 e2 H2.
  - inversion H2; subst; [auto|congruence].
  - inversion H2; subst; [congruence|].
    match goal with
    | Hc' : consume c l = Some (?c3, ?l3, ?ev3), HR : Runs ?c3 ?l3 c2 l2 ?evs3 |- _ =>
        rewrite Hc in Hc'; inversion Hc'; subst;
        destruct (IH _ _ _ HR) as (-> & -> & ->); auto
    end.
Qed.

(** The loop always comes to an end. *)
Lemma Runs_total c l : wf c -> exists c' l' evs, Runs c l c' l' evs.
Proof.
  remember (measure c l) as m eqn:Hm.
  revert c l Hm. induction m as [m IH] using lt_wf_ind. intros c l Hm Hwf.
  destruct (consume c l) as [[[c1 l1] ev]|] eqn:Hc.
  - destruct (consume_suffix _ _ _ _ _ Hwf Hc) as (k & _ & _ & Hlt).
    destruct (IH (measure c1 l1) ltac:(lia) c1 l1 eq_refl) as (c' & l' & evs & HR);
      [eapply consume_wf; eassumption|].
    exists c', l', (ev ++ evs). econstructor; eassumption.
  - exists c, l, []. constructor. assumption.
Qed.

Lemma Runs_set_buffer b c l c' l' evs :
  Runs c l c' l' evs -> Runs (set_buffer b c) l (set_buffer b c') l' evs.
Proof.
  induction 1 as [c l Hc|c l c1 l1 ev c2 l2 evs Hc _ IH].
  - constructor. rewrite consume_set_buffer, Hc. reflexivity.
  - econstructor; [|exact IH]. rewrite consume_set_buffer, Hc. reflexivity.
Qed.

(** Feeding more bytes resumes the run where it stopped. *)
Lemma Runs_app c l c1 l1 e1 x c2 l2 e2 :
  wf c ->
  Runs c l c1 l1 e1 -> Runs c1 (l1 ++ x) c2 l2 e2 ->
  Runs c (l ++ x) c2 l2 (e1 ++ e2).
Proof.
  intros Hwf H1 H2.
  induction H1 as [c l Hc|c l ca la ev cb lb evs Hc _ IH].
  - exact H2.
  - rewrite <- app_assoc. econstructor.
    + apply consume_app; eassumption.
    + apply IH; [eapply consume_wf; eassumption|assumption].
Qed.

(** Events after the header are video packets only. *)
Lemma Runs_streaming c l c' l' evs :
  readState c = STREAMING -> Runs c l c' l' evs ->
  readState c' = STREAMING /\ Forall is_video evs.
Proof.
  intros Hs HR. induction HR as [c l Hc|c l c1 l1 ev c2 l2 evs Hc _ IH].
  - auto.
  - unfold consume in Hc. rewrite Hs in Hc.
    destruct (Buffer_length l <=? 0); [discriminate|].
    destruct (streamState c).
    + destruct (Buffer_length l <? 12); [discriminate|]. inversion Hc; subst.
      destruct IH as [? ?]; [assumption|]. auto.
    + destruct (Buffer_length l <? currentPacketSize c); [discriminate|].
      inversion Hc; subst. destruct IH as [? ?]; [assumption|].
      split; [assumption|]. constructor; simpl; auto.
Qed.

(** *** [_processData] computes the run of the concatenated buffer *)

Lemma while_loop_Runs c l c' l' evs :
  Runs c l c' l' evs ->
  forall fuel off rem acc,
    wf c -> 0 <= off -> rem = Buffer_length (buffer c) - off -> 0 <= rem ->
    l = drop (Z.to_nat off) (buffer c) ->
    (measure c l < fuel)%nat ->
    while_loop fuel c off rem acc =
    Ok (c', Buffer_length (buffer c) - Buffer_length l', acc ++ evs).
Proof.
  induction 1 as [c l Hc|c l c1 l1 ev c2 l2 evs Hc HR IH];
    intros fuel off rem acc Hwf Hoff Hrem Hpos Hl Hfuel;
    (destruct fuel as [|fuel]; [lia|]); simpl.
  - rewrite app_nil_r.
    assert (Hlen : Buffer_length (buffer c) - Buffer_length l = off)
      by (subst l; rewrite Buffer_length_drop; lia).
    rewrite Hlen.
    destruct (0 <? rem) eqn:E; [|reflexivity].
    zbool. pose proof (loop_body_consume c off rem Hwf Hoff Hrem E) as Hb.
    rewrite <- Hl, Hc in Hb. rewrite Hb. reflexivity.
  - assert (E : 0 < rem).
    { subst l. unfold consume in Hc. rewrite Buffer_length_drop in Hc by lia.
      destruct (Buffer_length (buffer c) - off <=? 0) eqn:E; [discriminate|].
      zbool. lia. }
    pose proof (loop_body_consume c off rem Hwf Hoff Hrem E) as Hb.
    rewrite <- Hl, Hc in Hb. destruct Hb as (k & Hk & Hb & Hl1).
    destruct (0 <? rem) eqn:E'; [|zbool; lia].
    rewrite Hb. simpl.
    destruct (consume_suffix _ _ _ _ _ Hwf Hc) as (_ & _ & _ & Hlt).
    pose proof (consume_buffer _ _ _ _ _ Hc) as Hbuf.
    rewrite (IH fuel (off + k) (rem - k) (acc ++ ev)).
    + rewrite Hbuf, app_assoc. reflexivity.
    + eapply consume_wf; eassumption.
    + lia.
    + rewrite Hbuf. lia.
    + lia.
    + rewrite Hbuf. assumption.
    + lia.
Qed.

Lemma set_buffer_id c : set_buffer (buffer c) c = c.
Proof. destruct c; reflexivity. Qed.

Lemma set_buffer_twice b b' c : set_buffer b (set_buffer b' c) = set_buffer b c.
Proof. reflexivity. Qed.

Lemma Buffer_length_0 (l : Buffer) : Buffer_length l <= 0 -> l = [].
Proof. unfold Buffer_length. destruct l; simpl; [reflexivity|lia]. Qed.

(** The characterisation every framer property below rests on: a call
    returns normally, with the run of [buffer ++ chunk]. *)
Lemma processData_Runs c chunk c' l' evs :
  wf c ->
  Runs (set_buffer (buffer c ++ chunk) c) (buffer c ++ chunk) c' l' evs ->
  _processData c chunk = Ok (set_buffer l' c', evs).
Proof.
  intros Hwf HR. unfold _processData.
  assert (Hin : (if 0 <? Buffer_length (buffer c)
                 then set_buffer (buffer c ++ chunk) c
                 else set_buffer chunk c) = set_buffer (buffer c ++ chunk) c).
  { destruct (0 <? Buffer_length (buffer c)) eqn:E; [reflexivity|].
    zbool. rewrite (Buffer_length_0 (buffer c)) by lia. reflexivity. }
  rewrite Hin. clear Hin.
  set (B := buffer c ++ chunk) in *.
  change (buffer (set_buffer B c)) with B.
  assert (Hwf' : wf (set_buffer B c)) by exact Hwf.
  rewrite (while_loop_Runs _ _ _ _ _ HR (loop_fuel B) 0 (Buffer_length B) []).
  2: exact Hwf'.
  2: lia.
  2: simpl; lia.
  2: unfold Buffer_length; lia.
  2: reflexivity.
  2: { unfold measure, loop_fuel. simpl.
       destruct (readState c), (streamState c); lia. }
  simpl. change (buffer (set_buffer B c)) with B.
  destruct (Runs_suffix _ _ _ _ _ Hwf' HR) as (k & Hk & Hl').
  pose proof (Runs_buffer _ _ _ _ _ HR) as Hbuf. simpl in Hbuf.
  assert (Hoff : Buffer_length B - Buffer_length l' = Z.of_nat k).
  { subst l'. unfold Buffer_length. rewrite length_drop. lia. }
  rewrite Hoff, Hbuf.
  destruct (Z.of_nat k =? Buffer_length B) eqn:E1.
  - zbool. unfold Buffer_length in E1.
    assert (l' = []) as -> by (subst l'; apply drop_ge; lia).
    reflexivity.
  - destruct (0 <? Z.of_nat k) eqn:E2.
    + rewrite Nat2Z.id, <- Hl'. reflexivity.
    + zbool. assert (k = 0%nat) as -> by lia. subst l'.
      change (drop 0 B) with B. rewrite <- Hbuf, set_buffer_id. reflexivity.
Qed.

(** [_processData] never throws and never runs out of fuel. *)
Lemma processData_total c chunk :
  wf c ->
  exists c' l' evs,
    Runs (set_buffer (buffer c ++ chunk) c) (buffer c ++ chunk) c' l' evs /\
    _processData c chunk = Ok (set_buffer l' c', evs).
Proof.
  intros Hwf.
  destruct (Runs_total (set_buffer (buffer c ++ chunk) c) (buffer c ++ chunk) Hwf)
    as (c' & l' & evs & HR).
  exists c', l', evs. split; [assumption|].
  apply processData_Runs; assumption.
Qed.

Lemma processData_post c chunk c1 evs :
  wf c -> _processData c chunk = Ok (c1, evs) -> wf c1 /\ quiescent c1.
Proof.
  intros Hwf H.
  destruct (processData_total c chunk Hwf) as (c' & l' & evs' & HR & Heq).
  rewrite Heq in H. inversion H; subst. split.
  - exact (Runs_wf (set_buffer (buffer c ++ chunk) c) _ _ _ _ Hwf HR).
  - unfold quiescent. simpl. rewrite consume_set_buffer.
    rewrite (Runs_final _ _ _ _ _ HR). reflexivity.
Qed.

Lemma processData_nil c :
  wf c -> quiescent c -> _processData c [] = Ok (c, []).
Proof.
  intros Hwf Hq.
  rewrite (processData_Runs c [] (set_buffer (buffer c ++ []) c) (buffer c ++ []) []).
  - rewrite app_nil_r, set_buffer_twice, set_buffer_id. reflexivity.
  - assumption.
  - constructor. rewrite app_nil_r, consume_set_buffer. rewrite Hq. reflexivity.
Qed.

(** One call on [a ++ b] is a call on [a] followed by a call on [b]. *)
Lemma processData_app c a b :
  wf c ->
  _processData c (a ++ b) =
  (let* r := _processData c a in
   let* r' := _processData r.1 b in
   Ok (r'.1, r.2 ++ r'.2)).
Proof.
  intros Hwf.
  destruct (processData_total c a Hwf) as (c1 & l1 & e1 & HR1 & Heq1).
  rewrite Heq1. simpl.
  assert (Hwf1 : wf (set_buffer l1 c1))
    by exact (Runs_wf (set_buffer (buffer c ++ a) c) _ _ _ _ Hwf HR1).
  destruct (processData_total (set_buffer l1 c1) b Hwf1) as (c2 & l2 & e2 & HR2 & Heq2).
  rewrite Heq2. simpl.
  set (X := buffer c ++ a ++ b).
  apply (Runs_set_buffer X) in HR1. apply (Runs_set_buffer X) in HR2.
  simpl in HR2. rewrite !set_buffer_twice in HR1, HR2.
  pose proof (Runs_app (set_buffer X c) _ _ _ _ _ _ _ _ Hwf HR1 HR2) as HR.
  rewrite <- app_assoc in HR.
  rewrite (processData_Runs c (a ++ b) _ _ _ Hwf HR). reflexivity.
Qed.

(** Chunking is invisible: feeding chunks one by one is one call on
    their concatenation. *)
Lemma feed_concat chunks : forall c,
  wf c -> quiescent c -> feed c chunks = _processData c (concat chunks).
Proof.
  induction chunks as [|a rest IH]; intros c Hwf Hq; simpl.
  - symmetry. apply processData_nil; assumption.
  - rewrite processData_app by assumption.
    destruct (_processData c a) as [[c1 e1]| |] eqn:E; simpl; try reflexivity.
    destruct (processData_post _ _ _ _ Hwf E) as [Hwf1 Hq1].
    rewrite IH by assumption. reflexivity.
Qed.

Lemma new_client_wf s p : wf (new_ScrcpyClient s p).
Proof. unfold wf. simpl. lia. Qed.

Lemma new_client_quiescent s p : quiescent (new_ScrcpyClient s p).
Proof. reflexivity. Qed.

(** *** Well-formed streams *)

Lemma be32_uint32be_bytes n rest :
  0 <= n < 2 ^ 32 -> be32 (uint32be_bytes n ++ rest) = n.
Proof.
  intros Hn. unfold uint32be_bytes. cbn [app be32].
  rewrite !b2z_z2b.
  change (2 ^ 24) with 16777216. change (2 ^ 16) with 65536.
  change (2 ^ 8) with 256. change (2 ^ 32) with 4294967296 in Hn.
  Z.div_mod_to_equations. lia.
Qed.

Lemma encode_packet_length p :
  valid_packet p ->
  length (encode_packet p) = (12 + length (payload p))%nat.
Proof.
  intros [Hp _]. unfold encode_packet. rewrite !length_app, Hp. reflexivity.
Qed.

Lemma payloads_packet_events ps :
  concat (payloads (packet_events ps)) = concat (map payload ps).
Proof.
  induction ps as [|p ps IH]; [reflexivity|].
  simpl. destruct (payload p) as [|b pl] eqn:Ep.
  - destruct ps; [reflexivity|]. simpl in *. exact IH.
  - simpl in *. rewrite IH. reflexivity.
Qed.

Lemma header_info_app hdr rest :
  (76 <= length hdr)%nat -> header_info (hdr ++ rest) = header_info hdr.
Proof.
  intros H. unfold header_info. rewrite take_app_le by lia.
  rewrite !drop_app_le by lia.
  rewrite !be32_app by (rewrite length_drop; lia). reflexivity.
Qed.

(** Bytes [64,68) of a header play no part. *)
Lemma header_info_reserved nm r r' dims :
  length nm = 64%nat -> length r = 4%nat -> length r' = 4%nat ->
  header_info (nm ++ r ++ dims) = header_info (nm ++ r' ++ dims).
Proof.
  intros Hn Hr Hr'. unfold header_info.
  rewrite !take_app_length' by done.
  replace 72%nat with (length nm + (4 + 4))%nat by lia.
  replace 68%nat with (length nm + 4)%nat by lia.
  rewrite <- !drop_drop, !drop_app_length.
  rewrite !(drop_app_length' r) by done. rewrite !(drop_app_length' r') by done.
  reflexivity.
Qed.

Lemma consume_header c hdr rest :
  readState c = HEADER -> length hdr = 76%nat ->
  consume c (hdr ++ rest) =
  Some (set_header (header_info hdr) c, rest, [ready (header_info hdr)]).
Proof.
  intros Hr Hl. unfold consume, Buffer_length. rewrite Hr, length_app, Hl.
  destruct (Z.of_nat (76 + length rest) <=? 0) eqn:E0; [zbool; lia|].
  destruct (Z.of_nat (76 + length rest) <? 76) eqn:E1; [zbool; lia|].
  rewrite header_info_app by lia.
  rewrite drop_app_length' by done. reflexivity.
Qed.

Lemma consume_meta_raw c ts n rest :
  readState c = STREAMING -> streamState c = PACKET_META ->
  length ts = 8%nat -> 0 <= n < 2 ^ 32 ->
  consume c (ts ++ uint32be_bytes n ++ rest) =
  Some (set_stream PACKET_DATA n c, rest, []).
Proof.
  intros Hr Hs Hp Hn. unfold consume. rewrite Hr, Hs.
  unfold Buffer_length. rewrite !length_app, Hp. simpl length.
  destruct (Z.of_nat _ <=? 0) eqn:E0; [zbool; lia|].
  destruct (Z.of_nat _ <? 12) eqn:E1; [zbool; lia|].
  rewrite (drop_app_length' ts) by done.
  rewrite be32_uint32be_bytes by lia.
  replace 12%nat with (length ts + 4)%nat by lia.
  rewrite <- drop_drop, drop_app_length. reflexivity.
Qed.

Lemma consume_meta c p rest :
  readState c = STREAMING -> streamState c = PACKET_META -> valid_packet p ->
  consume c (encode_packet p ++ rest) =
  Some (set_stream PACKET_DATA (Buffer_length (payload p)) c,
        payload p ++ rest, []).
Proof.
  intros Hr Hs [Hp Hsz]. unfold encode_packet. rewrite <- !app_assoc.
  apply consume_meta_raw; try assumption. unfold Buffer_length in *. lia.
Qed.

Lemma consume_data c d rest :
  readState c = STREAMING -> streamState c = PACKET_DATA ->
  currentPacketSize c = Buffer_length d -> d ++ rest <> [] ->
  consume c (d ++ rest) =
  Some (set_stream PACKET_META (Buffer_length d) c, rest, [video_data d]).
Proof.
  intros Hr Hs Hsz Hne. unfold consume. rewrite Hr, Hs, Hsz.
  unfold Buffer_length. rewrite length_app.
  destruct (Z.of_nat _ <=? 0) eqn:E0.
  { zbool. destruct d, rest; simpl in *; try lia. congruence. }
  destruct (Z.of_nat _ <? Z.of_nat (length d)) eqn:E1; [zbool; lia|].
  rewrite Nat2Z.id, drop_app_length, take_app_length. reflexivity.
Qed.

(** The run over complete packets, from the state after a header. *)
Lemma Runs_packets ps : forall c,
  readState c = STREAMING -> streamState c = PACKET_META ->
  Forall valid_packet ps ->
  exists c', Runs c (encode_packets ps) c' [] (packet_events ps).
Proof.
  induction ps as [|p ps IH]; intros c Hr Hs Hv.
  - exists c. constructor. reflexivity.
  - inversion Hv as [|? ? Hp Hps]; subst.
    unfold encode_packets. simpl concat. fold (encode_packets ps).
    pose proof (consume_meta c p (encode_packets ps) Hr Hs Hp) as Hm.
    set (c1 := set_stream PACKET_DATA (Buffer_length (payload p)) c) in *.
    destruct (decide (payload p ++ encode_packets ps = [])) as [Hnil|Hne].
    + apply app_eq_nil in Hnil as [Hp0 Hps0].
      assert (ps = []) as ->.
      { destruct ps as [|q ps]; [reflexivity|]. exfalso.
        inversion Hps as [|? ? Hq _]; subst.
        unfold encode_packets in Hps0. simpl in Hps0.
        apply app_eq_nil in Hps0 as [Hq0 _].
        apply (f_equal length) in Hq0.
        rewrite encode_packet_length in Hq0 by assumption. simpl in Hq0. lia. }
      exists c1.
      assert (He : packet_events [p] = [] ++ [])
        by (simpl; rewrite Hp0; reflexivity).
      rewrite He. econstructor; [exact Hm|].
      rewrite Hp0. constructor. reflexivity.
    + pose proof (consume_data c1 (payload p) (encode_packets ps)
                    Hr eq_refl eq_refl Hne) as Hd.
      destruct (IH (set_stream PACKET_META (Buffer_length (payload p)) c1)
                  Hr eq_refl Hps) as (c' & HR).
      exists c'.
      assert (He : packet_events (p :: ps) =
                   [] ++ [video_data (payload p)] ++ packet_events ps).
      { simpl. destruct (payload p) eqn:Ep; [|reflexivity].
        destruct ps; [|reflexivity]. exfalso. apply Hne. reflexivity. }
      rewrite He. econstructor; [exact Hm|]. econstructor; [exact Hd|exact HR].
Qed.

(** *** Shape of the event sequence *)

Lemma consume_short c l :
  readState c = HEADER -> Buffer_length l < 76 -> consume c l = None.
Proof.
  intros Hr Hl. unfold consume. rewrite Hr.
  destruct (Buffer_length l <=? 0); [reflexivity|].
  destruct (Buffer_length l <? 76) eqn:E; [reflexivity|zbool; lia].
Qed.

Lemma Runs_none c l c' l' evs :
  consume c l = None -> Runs c l c' l' evs -> c' = c /\ l' = l /\ evs = [].
Proof. intros Hc HR. inversion HR; subst; [auto|congruence]. Qed.

(** A run from [HEADER] over at least 76 bytes: the device info first,
    video packets after it. *)
Lemma Runs_from_header c l c' l' evs :
  readState c = HEADER -> 76 <= Buffer_length l ->
  Runs c l c' l' evs ->
  exists vids, evs = ready (header_info l) :: vids /\ Forall is_video vids.
Proof.
  intros Hr Hl HR. destruct HR as [c l Hc|c l c1 l1 ev c2 l2 evs' Hc HR'].
  - exfalso. unfold consume in Hc. rewrite Hr in Hc.
    destruct (Buffer_length l <=? 0) eqn:E0; [zbool; lia|].
    destruct (Buffer_length l <? 76) eqn:E1; [zbool; lia|discriminate].
  - unfold consume in Hc. rewrite Hr in Hc.
    destruct (Buffer_length l <=? 0); [discriminate|].
    destruct (Buffer_length l <? 76); [discriminate|].
    inversion Hc; subst. exists evs'. split; [reflexivity|].
    eapply Runs_streaming; [|exact HR']. reflexivity.
Qed.

Lemma Runs_events c l c' l' evs :
  Runs c l c' l' evs -> Forall (fun e => is_ready e \/ is_video e) evs.
Proof.
  induction 1 as [c l Hc|c l c1 l1 ev c2 l2 evs Hc _ IH]; [constructor|].
  apply Forall_app. split; [|exact IH].
  unfold consume in Hc.
  repeat match type of Hc with
         | context [if ?b then _ else _] => destruct b
         | context [match ?x with _ => _ end] => destruct x
         end; inversion Hc; subst;
    repeat first [apply Forall_nil | apply Forall_cons]; simpl; auto.
Qed.

(** Waiting for payload bytes: nothing is emitted, everything is kept. *)
Lemma processData_waits c chunk :
  wf c -> readState c = STREAMING -> streamState c = PACKET_DATA ->
  Buffer_length (buffer c ++ chunk) < currentPacketSize c ->
  _processData c chunk = Ok (set_buffer (buffer c ++ chunk) c, []).
Proof.
  intros Hwf Hr Hs Hlt.
  rewrite (processData_Runs c chunk (set_buffer (buffer c ++ chunk) c)
             (buffer c ++ chunk) []); [reflexivity|assumption|].
  constructor. unfold consume. simpl. rewrite Hr, Hs.
  destruct (Buffer_length (buffer c ++ chunk) <=? 0); [reflexivity|].
  destruct (Buffer_length (buffer c ++ chunk) <? currentPacketSize c) eqn:E;
    [reflexivity|zbool; lia].
Qed.

(** Enough payload bytes: the packet comes out first, with exactly the
    declared number of bytes. *)
Lemma processData_emits c chunk :
  wf c -> readState c = STREAMING -> streamState c = PACKET_DATA ->
  0 < Buffer_length (buffer c ++ chunk) ->
  currentPacketSize c <= Buffer_length (buffer c ++ chunk) ->
  exists c' evs,
    _processData c chunk =
    Ok (c', video_data (take (Z.to_nat (currentPacketSize c)) (buffer c ++ chunk)) :: evs).
Proof.
  intros Hwf Hr Hs Hpos Hle.
  destruct (processData_total c chunk Hwf) as (c' & l' & evs & HR & Heq).
  rewrite Heq. clear Heq.
  remember (set_buffer (buffer c ++ chunk) c) as c0 eqn:Hc0.
  remember (buffer c ++ chunk) as B eqn:HB.
  destruct HR as [c0 B Hc|c0 B c1 l1 ev c2 l2 evs' Hc HR']; subst c0;
    unfold consume in Hc; simpl in Hc; rewrite Hr, Hs in Hc;
    (destruct (Buffer_length B <=? 0) eqn:E0; [zbool; lia|]);
    (destruct (Buffer_length B <? currentPacketSize c) eqn:E1;
     [zbool; lia|]); [discriminate|].
  inversion Hc; subst. simpl. eauto.
Qed.

(** A meta whose payload is not there yet: the size is recorded. *)
Lemma processData_meta c chunk :
  wf c -> readState c = STREAMING -> streamState c = PACKET_META ->
  12 <= Buffer_length (buffer c ++ chunk) ->
  Buffer_length (buffer c ++ chunk) - 12 < be32 (drop 8 (buffer c ++ chunk)) ->
  _processData c chunk =
  Ok (set_buffer (drop 12 (buffer c ++ chunk))
        (set_stream PACKET_DATA (be32 (drop 8 (buffer c ++ chunk))) c), []).
Proof.
  intros Hwf Hr Hs Hlen Hsz.
  remember (buffer c ++ chunk) as B eqn:HB.
  assert (Hrun : Runs (set_buffer B c) B
                   (set_stream PACKET_DATA (be32 (drop 8 B)) (set_buffer B c))
                   (drop 12 B) ([] ++ [])).
  { econstructor.
    - unfold consume. simpl. rewrite Hr, Hs.
      destruct (Buffer_length B <=? 0) eqn:E0; [zbool; lia|].
      destruct (Buffer_length B <? 12) eqn:E1; [zbool; lia|]. reflexivity.
    - constructor. unfold consume. simpl. rewrite Hr.
      assert (Hd : Buffer_length (drop 12 B) = Buffer_length B - 12).
      { unfold Buffer_length in *. rewrite length_drop. lia. }
      rewrite Hd.
      destruct (Buffer_length B - 12 <=? 0); [reflexivity|].
      destruct (Buffer_length B - 12 <? be32 (drop 8 B)) eqn:E;
        [reflexivity|zbool; lia]. }
  subst B. rewrite (processData_Runs c chunk _ _ _ Hwf Hrun). reflexivity.
Qed.

(** ** Port pool *)

Lemma allocPort_loop_spec (u : gset Z) fuel : forall p,
  27183 <= p <= 28000 ->
  28000 - p < Z.of_nat fuel ->
  (forall q, 27183 <= q < p -> q ∈ u) ->
  match allocPort_loop fuel p u with
  | Ok (p', u') =>
      27183 <= p' < 28000 /\ (p' ∉ u) /\
      (forall q, 27183 <= q < p' -> q ∈ u) /\ u' = {[p']} ∪ u
  | Throw e =>
      e = Error "No available ports" /\ forall q, 27183 <= q < 28000 -> q ∈ u
  | Diverge => False
  end.
Proof.
  induction fuel as [|fuel IH]; intros p Hp Hfuel Hlow; [lia|].
  simpl. destruct (p <? 28000) eqn:E; zbool.
  - destruct (bool_decide (p ∈ u)) eqn:Hin.
    + apply bool_decide_eq_true in Hin. apply IH; [lia|lia|].
      intros q Hq. destruct (decide (q = p)) as [->|Hne]; [assumption|].
      apply Hlow. lia.
    + apply bool_decide_eq_false in Hin. repeat split; (lia || assumption).
  - split; [reflexivity|]. intros q Hq. apply Hlow. lia.
Qed.

Example allocPort_first : exists u, allocPort ∅ = Ok (27183, u).
Proof. eexists. reflexivity. Qed.

Example allocPort_skips_leased :
  exists u, allocPort {[27183; 27184; 27186]} = Ok (27185, u).
Proof. eexists. vm_compute. reflexivity. Qed.

Example allocPort_exhausted :
  allocPort all_ports = Throw (Error "No available ports").
Proof. vm_compute. reflexivity. Qed.

(** ** Touch encoder *)

Lemma bind_Ok_inv {A B} (m : result A) (k : A -> result B) b :
  bind m k = Ok b -> exists a, m = Ok a /\ k a = Ok b.
Proof. destruct m; simpl; intros H; [eauto|discriminate|discriminate]. Qed.

Lemma write_be_inv n min max buf v off buf' :
  write_be n min max buf v off = Ok buf' ->
  out_of_range v min max = false /\
  buf' = take (Z.to_nat off) buf ++ be_bytes n (stored v) ++
         drop (Z.to_nat off + n) buf.
Proof.
  unfold write_be. destruct (out_of_range v min max); [discriminate|].
  destruct ((off <? 0) || (Buffer_length buf <? off + Z.of_nat n)); [discriminate|].
  intros H. inversion H. auto.
Qed.

Lemma out_of_range_stored v min max :
  min <= 0 <= max -> out_of_range v min max = false -> min <= stored v <= max.
Proof.
  intros H0. destruct v as [z| |neg]; simpl; intros H; [|lia|discriminate].
  apply orb_false_iff in H as [H1 H2]. rewrite Z.gtb_ltb in H1. zbool. lia.
Qed.

(** A message that is written is the one [touch_message] describes, and
    every value fits its field. *)
Lemma sendTouch_message Fraction (round_scale : Fraction -> Z -> JsNumber)
    write_throws c action xp yp sock c' effs :
  socket c = Some sock -> width (deviceInfo c) <> 0 ->
  sendTouch Fraction round_scale write_throws c action xp yp = Ok (c', effs) ->
  let x := stored (round_scale xp (width (deviceInfo c))) in
  let y := stored (round_scale yp (height (deviceInfo c))) in
  let msg := touch_message action x y
               (width (deviceInfo c)) (height (deviceInfo c)) in
  c' = c /\
  effs = socket_write sock msg ::
         (if write_throws sock msg then [console_error] else []) /\
  touch_fields_fit action x y (width (deviceInfo c)) (height (deviceInfo c)).
Proof.
  intros Hs Hw H x y msg. unfold sendTouch in H. rewrite Hs in H.
  destruct (width (deviceInfo c) =? 0) eqn:E; [zbool; contradiction|].
  unfold writeUInt8, writeUInt16BE, writeUInt32BE, writeInt32BE in H.
  repeat match type of H with
         | bind _ _ = Ok _ =>
             let b := fresh "b" in
             let Hb := fresh "Hb" in
             let Hr := fresh "Hr" in
             apply bind_Ok_inv in H as (b & Hb & H);
             apply write_be_inv in Hb as (Hr & ->);
             apply out_of_range_stored in Hr; [|lia]
         end.
  inversion H; subst. split; [reflexivity|]. split; [reflexivity|].
  unfold touch_fields_fit. simpl in *. fold x y. lia.
Qed.

(** Values that fit are written: the call does not throw. *)
Lemma sendTouch_succeeds Fraction (round_scale : Fraction -> Z -> JsNumber)
    write_throws c action xp yp sock x y :
  socket c = Some sock -> width (deviceInfo c) <> 0 ->
  round_scale xp (width (deviceInfo c)) = Int x ->
  round_scale yp (height (deviceInfo c)) = Int y ->
  touch_fields_fit action x y (width (deviceInfo c)) (height (deviceInfo c)) ->
  exists effs,
    sendTouch Fraction round_scale write_throws c action xp yp = Ok (c, effs).
Proof.
  intros Hs Hw Hx Hy (Ha & Hxr & Hyr & Hwr & Hhr).
  unfold sendTouch. rewrite Hs, Hx, Hy.
  destruct (width (deviceInfo c) =? 0) eqn:E; [zbool; contradiction|].
  unfold writeUInt8, writeUInt16BE, writeUInt32BE, writeInt32BE, write_be.
  assert (Hfit : forall z lo hi, lo <= z <= hi -> out_of_range (Int z) lo hi = false).
  { intros z lo hi Hz. simpl. apply orb_false_iff. rewrite Z.gtb_ltb.
    split; [apply Z.ltb_ge|apply Z.ltb_ge]; lia. }
  rewrite (Hfit action 0 255) by lia.
  rewrite (Hfit x) by lia.
  rewrite (Hfit y) by lia.
  rewrite (Hfit (width (deviceInfo c))) by lia.
  rewrite (Hfit (height (deviceInfo c))) by lia.
  rewrite (Hfit (if action =? 1 then 0 else 65535)) by (destruct (action =? 1); lia).
  simpl. eexists. reflexivity.
Qed.

Lemma touch_message_layout action x y w h :
  touch_layout (touch_message action x y w h) action x y w h.
Proof. repeat split. Qed.

(** ** JavaScript maps *)

Lemma Map_has_elem {V} k (m : JsMap V) :
  Map_has k m = true <-> exists v, (k, v) ∈ m.
Proof.
  unfold Map_has. induction m as [|[k' v'] m IH]; simpl.
  - split; [discriminate|]. intros [v Hv]. inversion Hv.
  - destruct (decide (k' = k)) as [->|Hne].
    + split; [|reflexivity]. intros _. exists v'. left.
    + rewrite IH. split; intros [v Hv]; exists v.
      * right. assumption.
      * inversion Hv; subst; [congruence|assumption].
Qed.

Lemma Map_set_elem {V} k (v : V) m e :
  e ∈ Map_set k v m -> e = (k, v) \/ e ∈ m.
Proof.
  induction m as [|[k' v'] m IH]; simpl.
  - intros H. inversion H; subst; [auto|]. inversion H2.
  - destruct (decide (k' = k)) as [->|Hne]; intros H.
    + inversion H; subst; [auto|]. right. right. assumption.
    + inversion H; subst; [right; left|].
      destruct (IH H2) as [->|Hin]; [auto|]. right. right. assumption.
Qed.

Lemma Map_has_set {V} k (v : V) m : Map_has k (Map_set k v m) = true.
Proof.
  unfold Map_has. induction m as [|[k' v'] m IH]; simpl.
  - destruct (decide (k = k)); [reflexivity|congruence].
  - destruct (decide (k' = k)) as [->|Hne]; simpl.
    + destruct (decide (k = k)); [reflexivity|congruence].
    + destruct (decide (k' = k)); [congruence|]. exact IH.
Qed.

Lemma Map_has_set_mono {V} k k' (v : V) m :
  Map_has k m = true -> Map_has k (Map_set k' v m) = true.
Proof.
  unfold Map_has. induction m as [|[k0 v0] m IH]; simpl; [discriminate|].
  destruct (decide (k0 = k)) as [->|Hne]; intros H.
  - destruct (decide (k = k')) as [->|Hne']; simpl.
    + destruct (decide (k' = k')); [reflexivity|congruence].
    + destruct (decide (k = k)); [reflexivity|congruence].
  - destruct (decide (k0 = k')) as [->|Hne']; simpl.
    + destruct (decide (k' = k)); [congruence|]. exact H.
    + destruct (decide (k0 = k)); [congruence|]. exact (IH H).
Qed.

Lemma Map_delete_elem {V} k (m : JsMap V) e :
  e ∈ Map_delete k m <-> e ∈ m /\ e.1 <> k.
Proof. unfold Map_delete. rewrite list_elem_of_filter. tauto. Qed.

(** ** The device scanner *)

Lemma set_scanning_id b m : scanning m = b -> set_scanning b m = m.
Proof. destruct m; simpl; intros ->; reflexivity. Qed.

Lemma remove_absent_scanning entries S : forall m,
  scanning (remove_absent entries S m).1 = scanning m.
Proof.
  induction entries as [|[k info] rest IH]; intros m; simpl; [reflexivity|].
  destruct (bool_decide (k ∈ S)); [apply IH|].
  destruct (stop (client info)) as [c effs].
  match goal with
  | |- context [remove_absent rest S ?m1] =>
      specialize (IH m1); destruct (remove_absent rest S m1) as [m2 acts]
  end.
  exact IH.
Qed.

(** What is left after the first loop. *)
Lemma remove_absent_elem entries S : forall m e,
  e ∈ activeClients (remove_absent entries S m).1 <->
  e ∈ activeClients m /\ (e.1 ∈ entries.*1 -> e.1 ∈ S).
Proof.
  induction entries as [|[k info] rest IH]; intros m e; simpl.
  - split; [intros H; split; [assumption|]|tauto].
    intros H'. inversion H'.
  - destruct (bool_decide (k ∈ S)) eqn:Hk.
    + apply bool_decide_eq_true in Hk. rewrite IH.
      split; intros [H1 H2]; (split; [assumption|]); intros H3.
      * inversion H3; subst; [congruence|auto].
      * apply H2. right. assumption.
    + apply bool_decide_eq_false in Hk.
      destruct (stop (client info)) as [c effs].
      match goal with
      | |- context [remove_absent rest S ?m1] =>
          specialize (IH m1 e); destruct (remove_absent rest S m1) as [m2 acts]
      end.
      simpl in *. rewrite IH, Map_delete_elem.
      split.
      * intros [[H1 Hne] H2]. split; [assumption|]. intros H3.
        inversion H3; subst; [congruence|auto].
      * intros [H1 H2]. split; [split; [assumption|]|].
        -- intros Heq. apply Hk. rewrite <- Heq. apply H2. rewrite Heq. left.
        -- intros H3. apply H2. right. assumption.
Qed.

(** Nothing to remove: the first loop does nothing. *)
Lemma remove_absent_noop entries S m :
  (forall e, e ∈ entries -> e.1 ∈ S) -> remove_absent entries S m = (m, []).
Proof.
  induction entries as [|[k info] rest IH]; intros H; simpl; [reflexivity|].
  rewrite bool_decide_eq_true_2 by (apply (H (k, info)); left).
  apply IH. intros e He. apply H. right. assumption.
Qed.

Lemma add_devices_scanning ds : forall m,
  scanning (add_devices ds m).1.1 = scanning m.
Proof.
  induction ds as [|d rest IH]; intros m; simpl; [reflexivity|].
  destruct (Map_has (dev_serial d) (activeClients m)); [apply IH|].
  destruct (allocPort (usedPorts m)) as [[p u]| |]; try reflexivity.
  match goal with
  | |- context [add_devices rest ?m1] =>
      specialize (IH m1); destruct (add_devices rest m1) as [[m2 acts] r]
  end.
  exact IH.
Qed.

Lemma add_devices_mono ds : forall m k,
  Map_has k (activeClients m) = true ->
  Map_has k (activeClients (add_devices ds m).1.1) = true.
Proof.
  induction ds as [|d rest IH]; intros m k Hk; simpl; [assumption|].
  destruct (Map_has (dev_serial d) (activeClients m)); [apply IH; assumption|].
  destruct (allocPort (usedPorts m)) as [[p u]| |]; try assumption.
  match goal with
  | |- context [add_devices rest ?m1] =>
      specialize (IH m1 k); destruct (add_devices rest m1) as [[m2 acts] r]
  end.
  apply IH. simpl. apply Map_has_set_mono. assumption.
Qed.

Lemma add_devices_keys_in S ds : forall m,
  (forall d, d ∈ ds -> dev_serial d ∈ S) ->
  keys_in S m -> keys_in S (add_devices ds m).1.1.
Proof.
  induction ds as [|d rest IH]; intros m Hds Hm; simpl; [assumption|].
  assert (Hrest : forall d', d' ∈ rest -> dev_serial d' ∈ S)
    by (intros d' Hd'; apply Hds; right; assumption).
  destruct (Map_has (dev_serial d) (activeClients m)); [apply IH; assumption|].
  destruct (allocPort (usedPorts m)) as [[p u]| |]; try assumption.
  match goal with
  | |- context [add_devices rest ?m1] =>
      specialize (IH m1 Hrest); destruct (add_devices rest m1) as [[m2 acts] r]
  end.
  apply IH. intros e He. simpl in He.
  apply Map_set_elem in He as [->|He]; [apply Hds; left|apply Hm; assumption].
Qed.

(** Running the second loop again from the state it left does nothing and
    ends the same way. *)
Lemma add_devices_stable ds : forall m m' acts r,
  add_devices ds m = (m', acts, r) -> add_devices ds m' = (m', [], r).
Proof.
  induction ds as [|d rest IH]; intros m m' acts r H; simpl in *.
  - inversion H; subst. reflexivity.
  - destruct (Map_has (dev_serial d) (activeClients m)) eqn:Hd.
    + pose proof (add_devices_mono rest m _ Hd) as Hm. rewrite H in Hm.
      simpl in Hm. rewrite Hm. eapply IH; eassumption.
    + destruct (allocPort (usedPorts m)) as [[p u]| |] eqn:Ha.
      * match type of H with
        | context [add_devices rest ?m1] =>
            pose proof (add_devices_mono rest m1 (dev_serial d)) as Hm;
            destruct (add_devices rest m1) as [[m2 acts2] r2] eqn:E
        end.
        inversion H; subst. simpl in Hm.
        rewrite Hm by apply Map_has_set.
        eapply IH; eassumption.
      * inversion H; subst. rewrite Hd, Ha. reflexivity.
      * inversion H; subst. rewrite Hd, Ha. reflexivity.
Qed.

Lemma scan_keys_in devices m m_r a1 :
  remove_absent (activeClients m) (list_to_set (dev_serial <$> devices)) m = (m_r, a1) ->
  keys_in (list_to_set (dev_serial <$> devices)) (add_devices devices m_r).1.1.
Proof.
  intros Hr. apply add_devices_keys_in.
  - intros d Hd. apply elem_of_list_to_set. apply list_elem_of_fmap_2. assumption.
  - intros e He.
    pose proof (remove_absent_elem (activeClients m) (list_to_set (dev_serial <$> devices))
                  m e) as Hel.
    rewrite Hr in Hel. simpl in Hel. apply Hel in He as [He1 He2].
    apply He2. apply list_elem_of_fmap_2. assumption.
Qed.

(** ** Teardown *)

Lemma remove_absent_actions entries S serial info :
  (serial, info) ∈ entries -> serial ∉ S ->
  forall m, exists pre post,
    (remove_absent entries S m).2 =
    pre ++ [client_stopped serial (stop (client info)).2;
            port_released (info_port info);
            session_removed serial] ++ post.
Proof.
  induction entries as [|[k i] rest IH]; intros Hin HS m.
  - inversion Hin.
  - simpl. destruct (bool_decide (k ∈ S)) eqn:Hk.
    + apply bool_decide_eq_true in Hk.
      inversion Hin; subst; [contradiction|]. apply IH; assumption.
    + destruct (stop (client i)) as [c effs] eqn:Hstop.
      match goal with
      | |- context [remove_absent rest S ?m1] =>
          pose proof (fun H => IH H HS m1) as IH';
          destruct (remove_absent rest S m1) as [m2 acts] eqn:E
      end.
      inversion Hin; subst.
      * exists [], acts. reflexivity.
      * destruct (IH' ltac:(assumption)) as (pre & post & Heq). simpl in Heq.
        exists ([client_stopped k (stop (client i)).2; port_released (info_port i);
                 session_removed k] ++ pre), post.
        subst acts. reflexivity.
Qed.

(** The first loop only gives ports back. *)
Lemma remove_absent_ports entries S : forall m p,
  p ∈ usedPorts (remove_absent entries S m).1 -> p ∈ usedPorts m.
Proof.
  induction entries as [|[k i] rest IH]; intros m p; simpl; [auto|].
  destruct (bool_decide (k ∈ S)); [apply IH|].
  destruct (stop (client i)) as [c effs].
  match goal with
  | |- context [remove_absent rest S ?m1] =>
      specialize (IH m1 p); destruct (remove_absent rest S m1) as [m2 acts]
  end.
  simpl in *. intros H. apply IH in H. unfold freePort in H.
  apply elem_of_difference in H as [H _]. exact H.
Qed.

(** The port of a session the first loop removes is not leased when the
    loop ends. *)
Lemma remove_absent_frees entries S serial info :
  (serial, info) ∈ entries -> serial ∉ S ->
  forall m, info_port info ∉ usedPorts (remove_absent entries S m).1.
Proof.
  induction entries as [|[k i] rest IH]; intros Hin HS m.
  - inversion Hin.
  - simpl. destruct (bool_decide (k ∈ S)) eqn:Hk.
    + apply bool_decide_eq_true in Hk.
      inversion Hin; subst; [contradiction|]. apply IH; assumption.
    + destruct (stop (client i)) as [c effs].
      match goal with
      | |- context [remove_absent rest S ?m1] =>
          pose proof (fun H => IH H HS m1) as IH';
          pose proof (remove_absent_ports rest S m1 (info_port info)) as Hsub;
          destruct (remove_absent rest S m1) as [m2 acts]
      end.
      simpl in *. inversion Hin; subst; [|auto].
      intros H. apply Hsub in H. unfold freePort in H.
      apply elem_of_difference in H as [_ H]. apply H.
      apply elem_of_singleton. reflexivity.
Qed.

(** A port the second loop leaves leased was leased before or has been
    allocated by the loop. *)
Lemma add_devices_ports ds : forall m p,
  p ∈ usedPorts (add_devices ds m).1.1 ->
  p ∈ usedPorts m \/ port_allocated p ∈ (add_devices ds m).1.2.
Proof.
  induction ds as [|d rest IH]; intros m p; simpl; [auto|].
  destruct (Map_has (dev_serial d) (activeClients m)); [apply IH|].
  pose proof (allocPort_loop_spec (usedPorts m) 818 27183
                ltac:(lia) ltac:(lia) ltac:(intros; lia)) as Hspec.
  fold (allocPort (usedPorts m)) in Hspec.
  destruct (allocPort (usedPorts m)) as [[q u]| |]; simpl; auto.
  destruct Hspec as (_ & _ & _ & ->).
  match goal with
  | |- context [add_devices rest ?m1] =>
      specialize (IH m1 p); destruct (add_devices rest m1) as [[m2 acts] r]
  end.
  simpl in *. intros H. destruct (IH H) as [H1|H1].
  - apply elem_of_union in H1 as [H1|H1]; [|left; exact H1].
    apply elem_of_singleton in H1. subst q. right. left.
  - right. right. right. right. exact H1.
Qed.

(** ** Keyframe replay *)

Lemma sent_to_app id m l1 l2 :
  wss_clients m = l1 ++ l2 ->
  sent_to id m =
  concat (map (fun ws => if bool_decide (ws_id ws = id) then sent ws else []) l1) ++
  concat (map (fun ws => if bool_decide (ws_id ws = id) then sent ws else []) l2).
Proof. intros H. unfold sent_to. rewrite H, map_app, concat_app. reflexivity. Qed.

Lemma sent_to_others id (l : list WebSocket) :
  (forall ws, ws ∈ l -> ws_id ws <> id) ->
  concat (map (fun ws => if bool_decide (ws_id ws = id) then sent ws else []) l) = [].
Proof.
  induction l as [|w l IH]; intros H; simpl; [reflexivity|].
  rewrite bool_decide_eq_false_2 by (apply H; left).
  apply IH. intros ws Hws. apply H. right. assumption.
Qed.

(** One delivery reaches the subscribed open socket, last in the list, iff
    it is addressed to it. *)
Lemma on_incoming_step id serial m i l w :
  wss_clients m = l ++ [w] ->
  ws_id w = id -> ws_serial w = Some serial -> readyState w = OPEN ->
  (forall ws, ws ∈ l -> ws_id ws <> id) ->
  exists l' w',
    wss_clients (on_incoming m i) = l' ++ [w'] /\
    ws_id w' = id /\ ws_serial w' = Some serial /\ readyState w' = OPEN /\
    (forall ws, ws ∈ l' -> ws_id ws <> id) /\
    sent w' = sent w ++ deliveries id serial [i].
Proof.
  intros Hm Hid Hser Hopen Hl.
  destruct i as [s data|j data]; simpl.
  - unfold broadcast. rewrite Hm, map_app. simpl.
    eexists _, _. split; [reflexivity|].
    unfold is_open. rewrite Hopen, Hser. simpl.
    destruct (bool_decide (s = serial)) eqn:Es.
    + apply bool_decide_eq_true in Es. subst s.
      rewrite bool_decide_eq_true_2 by reflexivity. simpl.
      repeat split; try assumption.
      intros ws Hws. apply list_elem_of_In, in_map_iff in Hws as (x & <- & Hx).
      apply list_elem_of_In in Hx.
      destruct (_ && _); simpl; apply Hl; assumption.
    + apply bool_decide_eq_false in Es.
      rewrite bool_decide_eq_false_2 by congruence.
      rewrite app_nil_r. repeat split; try assumption.
      intros ws Hws. apply list_elem_of_In, in_map_iff in Hws as (x & <- & Hx).
      apply list_elem_of_In in Hx.
      destruct (_ && _); simpl; apply Hl; assumption.
  - rewrite Hm, map_app. simpl.
    eexists _, _. split; [reflexivity|].
    unfold is_open. rewrite Hopen, Hid. simpl.
    destruct (bool_decide (j = id)) eqn:Ej.
    + apply bool_decide_eq_true in Ej. subst j.
      rewrite bool_decide_eq_true_2 by reflexivity. simpl.
      repeat split; try assumption.
      intros ws Hws. apply list_elem_of_In, in_map_iff in Hws as (x & <- & Hx).
      apply list_elem_of_In in Hx.
      destruct (_ && _); simpl; apply Hl; assumption.
    + apply bool_decide_eq_false in Ej.
      rewrite bool_decide_eq_false_2 by congruence.
      rewrite app_nil_r. repeat split; try assumption.
      intros ws Hws. apply list_elem_of_In, in_map_iff in Hws as (x & <- & Hx).
      apply list_elem_of_In in Hx.
      destruct (_ && _); simpl; apply Hl; assumption.
Qed.

Lemma deliveries_cons id serial i rest :
  deliveries id serial (i :: rest) =
  deliveries id serial [i] ++ deliveries id serial rest.
Proof.
  destruct i as [s data|j data]; simpl;
    match goal with |- context [bool_decide ?P] => destruct (bool_decide P) end;
    reflexivity.
Qed.

Lemma on_incoming_run id serial incoming : forall m l w,
  wss_clients m = l ++ [w] ->
  ws_id w = id -> ws_serial w = Some serial -> readyState w = OPEN ->
  (forall ws, ws ∈ l -> ws_id ws <> id) ->
  sent_to id (foldl on_incoming m incoming) =
  sent w ++ deliveries id serial incoming.
Proof.
  induction incoming as [|i rest IH]; intros m l w Hm Hid Hser Hopen Hl.
  - simpl. rewrite (sent_to_app id m l [w] Hm), sent_to_others by assumption.
    simpl. rewrite bool_decide_eq_true_2 by assumption.
    rewrite !app_nil_r. reflexivity.
  - simpl foldl.
    destruct (on_incoming_step id serial m i l w Hm Hid Hser Hopen Hl)
      as (l' & w' & Hm' & Hid' & Hser' & Hopen' & Hl' & Hsent).
    rewrite (IH _ l' w' Hm' Hid' Hser' Hopen' Hl').
    rewrite (deliveries_cons id serial i rest), Hsent, app_assoc. reflexivity.
Qed.

Lemma Map_get_elem {V} k (v : V) m :
  (k, v) ∈ m -> exists v', Map_get k m = Some v'.
Proof.
  intros H. assert (Hh : Map_has k m = true) by (apply Map_has_elem; eauto).
  unfold Map_has in Hh. destruct (Map_get k m); [eauto|discriminate].
Qed.

Lemma Map_get_has {V} k (v : V) m : Map_get k m = Some v -> Map_has k m = true.
Proof. unfold Map_has. intros ->. reflexivity. Qed.

(** How the second loop ended tells what it left behind. *)
Lemma add_devices_outcome ds : forall m m' acts r,
  add_devices ds m = (m', acts, r) ->
  match r with
  | Ok _ => forall d, d ∈ ds -> Map_has (dev_serial d) (activeClients m') = true
  | Throw e => allocPort (usedPorts m') = Throw e
  | Diverge => allocPort (usedPorts m') = Diverge
  end.
Proof.
  induction ds as [|d rest IH]; intros m m' acts r H; simpl in *.
  - inversion H; subst. intros d Hd. inversion Hd.
  - destruct (Map_has (dev_serial d) (activeClients m)) eqn:Hd.
    + pose proof (add_devices_mono rest m _ Hd) as Hm. rewrite H in Hm.
      specialize (IH _ _ _ _ H). destruct r; try assumption.
      intros d' Hd'. inversion Hd'; subst; [exact Hm|auto].
    + destruct (allocPort (usedPorts m)) as [[p u]| |] eqn:Ha.
      * match type of H with
        | context [add_devices rest ?m1] =>
            pose proof (add_devices_mono rest m1 (dev_serial d)) as Hm;
            destruct (add_devices rest m1) as [[m2 acts2] r2] eqn:E
        end.
        inversion H; subst. specialize (IH _ _ _ _ E).
        destruct r; try assumption.
        intros d' Hd'. inversion Hd'; subst; [|auto].
        apply Hm. apply Map_has_set.
      * inversion H; subst. assumption.
      * inversion H; subst. assumption.
Qed.

(** Every device registered: the second loop does nothing. *)
Lemma add_devices_settled ds m :
  (forall d, d ∈ ds -> Map_has (dev_serial d) (activeClients m) = true) ->
  add_devices ds m = (m, [], Ok tt).
Proof.
  induction ds as [|d rest IH]; intros H; simpl; [reflexivity|].
  rewrite (H d) by left. apply IH. intros d' Hd'. apply H. right. assumption.
Qed.

(** No port to give: the second loop does nothing but, at most, fail. *)
Lemma add_devices_blocked ds m :
  (forall p u, allocPort (usedPorts m) <> Ok (p, u)) ->
  exists r, add_devices ds m = (m, [], r) /\ forall x, r = Ok x ->
    forall d, d ∈ ds -> Map_has (dev_serial d) (activeClients m) = true.
Proof.
  intros Hno. induction ds as [|d rest IH]; simpl.
  - exists (Ok tt). split; [reflexivity|]. intros _ _ d Hd. inversion Hd.
  - destruct (Map_has (dev_serial d) (activeClients m)) eqn:Hd.
    + destruct IH as (r & Hr & Hall). exists r. split; [assumption|].
      intros x Hx d' Hd'. inversion Hd'; subst; [assumption|eauto].
    + destruct (allocPort (usedPorts m)) as [[p u]| |] eqn:Ha.
      * exfalso. exact (Hno p u eq_refl).
      * eexists. split; [reflexivity|]. discriminate.
      * eexists. split; [reflexivity|]. discriminate.
Qed.

(** The state a scan leaves, when it was not skipped: every session
    belongs to a device of the set, and either every device has a
    session or the pool has no port to give. *)
Lemma deviceScanner_result devices m :
  scanning m = false ->
  exists m_a,
    (deviceScanner devices m).1 = set_scanning false m_a /\
    scanning m_a = true /\
    keys_in (list_to_set (dev_serial <$> devices)) m_a /\
    ((forall d, d ∈ devices -> Map_has (dev_serial d) (activeClients m_a) = true) \/
     (forall p u, allocPort (usedPorts m_a) <> Ok (p, u))).
Proof.
  intros Hs. unfold deviceScanner. rewrite Hs.
  set (S := list_to_set (dev_serial <$> devices) : gset string).
  set (m0 := set_scanning true m).
  pose proof (scan_keys_in devices m0) as Hkeys. fold S in Hkeys.
  pose proof (remove_absent_scanning (activeClients m0) S m0) as Hsc.
  destruct (remove_absent (activeClients m0) S m0) as [m_r a1].
  specialize (Hkeys m_r a1 eq_refl).
  pose proof (add_devices_scanning devices m_r) as Hsc'.
  pose proof (add_devices_outcome devices m_r) as Hout.
  destruct (add_devices devices m_r) as [[m_a a2] r].
  specialize (Hout m_a a2 r eq_refl). simpl in *.
  exists m_a. repeat split; try assumption.
  - rewrite Hsc', Hsc. reflexivity.
  - destruct r; [left; assumption|right|right]; intros p u; rewrite Hout; discriminate.
Qed.

(** A scan from such a state, against the same set of devices, changes
    nothing. *)
Lemma deviceScanner_again devices devices' m_a :
  (forall s, s ∈ dev_serial <$> devices' <-> s ∈ dev_serial <$> devices) ->
  scanning m_a = true ->
  keys_in (list_to_set (dev_serial <$> devices)) m_a ->
  ((forall d, d ∈ devices -> Map_has (dev_serial d) (activeClients m_a) = true) \/
   (forall p u, allocPort (usedPorts m_a) <> Ok (p, u))) ->
  exists acts,
    deviceScanner devices' (set_scanning false m_a) = (set_scanning false m_a, acts) /\
    Forall is_scanner_error acts.
Proof.
  intros Hset Hsc Hkeys Hcase. unfold deviceScanner. simpl scanning. cbv iota.
  change (set_scanning true (set_scanning false m_a)) with (set_scanning true m_a).
  rewrite (set_scanning_id true m_a Hsc).
  change (activeClients (set_scanning false m_a)) with (activeClients m_a).
  rewrite (remove_absent_noop (activeClients m_a) _ m_a).
  2: { intros e He. apply elem_of_list_to_set. apply Hset.
       apply (elem_of_list_to_set (C := gset string)).
       apply Hkeys. assumption. }
  assert (Hadd : exists r, add_devices devices' m_a = (m_a, [], r)).
  { destruct Hcase as [Hall|Hno].
    - exists (Ok tt). apply add_devices_settled. intros d Hd.
      assert (Hin : dev_serial d ∈ dev_serial <$> devices)
        by (apply Hset, list_elem_of_fmap_2; assumption).
      apply list_elem_of_fmap in Hin as (d0 & Heq & Hd0).
      rewrite Heq. apply Hall. assumption.
    - destruct (add_devices_blocked devices' m_a Hno) as (r & Hr & _). eauto. }
  destruct Hadd as [r Hr]. rewrite Hr. eexists. split; [reflexivity|].
  destruct r; repeat constructor.
Qed.

(** ** The stream framer *)

(** C1. For a stream made of a 76-byte header and complete packets,
    feeding it split at arbitrary byte boundaries and feeding it in one call
    give the same client state and the same ordered events: the device
    info, then the packet payloads in order (an empty last payload stays
    pending). The emitted payload bytes are exactly the bytes sent, and no
    byte is left in the buffer. *)
Theorem framer_rechunking_deterministic s p hdr ps chunks :
  length hdr = 76%nat ->
  Forall valid_packet ps ->
  concat chunks = hdr ++ encode_packets ps ->
  exists c' evs,
    feed (new_ScrcpyClient s p) chunks = Ok (c', evs) /\
    _processData (new_ScrcpyClient s p) (hdr ++ encode_packets ps) = Ok (c', evs) /\
    evs = ready (header_info hdr) :: packet_events ps /\
    concat (payloads evs) = concat (map payload ps) /\
    buffer c' = [].
Proof.
  intros Hh Hv Hc.
  set (c0 := new_ScrcpyClient s p).
  set (S := hdr ++ encode_packets ps) in *.
  destruct (Runs_packets ps (set_header (header_info hdr) (set_buffer S c0))
              eq_refl eq_refl Hv) as (c' & HR).
  assert (HRun : Runs (set_buffer (buffer c0 ++ S) c0) (buffer c0 ++ S) c' []
                   ([ready (header_info hdr)] ++ packet_events ps)).
  { change (buffer c0 ++ S) with (hdr ++ encode_packets ps).
    eapply Runs_turn; [|exact HR]. apply consume_header; [reflexivity|assumption]. }
  pose proof (processData_Runs c0 S _ _ _ (new_client_wf s p) HRun) as HP.
  exists (set_buffer [] c'), (ready (header_info hdr) :: packet_events ps).
  split; [|split; [|split; [|split]]].
  - rewrite feed_concat by (apply new_client_wf || apply new_client_quiescent).
    rewrite Hc. exact HP.
  - exact HP.
  - reflexivity.
  - simpl. apply payloads_packet_events.
  - reflexivity.
Qed.

Lemma framer_rechunking_deterministic_witness :
  exists c' evs,
    feed (new_ScrcpyClient "A" 27183)
      [take 30 (sample_header ++ encode_packets sample_packets);
       take 70 (drop 30 (sample_header ++ encode_packets sample_packets));
       [];
       drop 100 (sample_header ++ encode_packets sample_packets)] = Ok (c', evs) /\
    _processData (new_ScrcpyClient "A" 27183)
      (sample_header ++ encode_packets sample_packets) = Ok (c', evs) /\
    evs = ready (header_info sample_header) :: packet_events sample_packets /\
    concat (payloads evs) = concat (map payload sample_packets) /\
    buffer c' = [].
Proof.
  apply (framer_rechunking_deterministic "A" 27183 sample_header sample_packets).
  - reflexivity.
  - repeat constructor; vm_compute; congruence.
  - vm_compute. reflexivity.
Defined.

(** C5. After a 76-byte header, a 12-byte meta declaring 5 payload bytes
    and 3 payload bytes, however chunked, only the device info has been
    emitted; feeding the remaining 2 bytes emits exactly one video packet
    with the 5 bytes. In general, a client waiting for packet data emits
    nothing and keeps every byte while fewer than the declared size are
    buffered, and once enough are buffered the packet emitted has exactly
    the declared number of bytes. *)
Theorem framer_waits_for_whole_packet s p hdr ts a b chunks chunks' c chunk :
  length hdr = 76%nat -> length ts = 8%nat ->
  length a = 3%nat -> length b = 2%nat ->
  concat chunks = hdr ++ ts ++ uint32be_bytes 5 ++ a ->
  concat chunks' = b ->
  wf c -> readState c = STREAMING -> streamState c = PACKET_DATA ->
  (exists c1 c2,
      feed (new_ScrcpyClient s p) chunks = Ok (c1, [ready (header_info hdr)]) /\
      feed c1 chunks' = Ok (c2, [video_data (a ++ b)])) /\
  (Buffer_length (buffer c ++ chunk) < currentPacketSize c ->
   _processData c chunk = Ok (set_buffer (buffer c ++ chunk) c, [])) /\
  (0 < Buffer_length (buffer c ++ chunk) ->
   currentPacketSize c <= Buffer_length (buffer c ++ chunk) ->
   exists c' evs,
     _processData c chunk =
     Ok (c', video_data (take (Z.to_nat (currentPacketSize c)) (buffer c ++ chunk))
             :: evs)).
Proof.
  intros Hh Hts Ha Hb Hc Hc' Hwf Hr Hs.
  split; [|split].
  - set (c0 := new_ScrcpyClient s p).
    set (S := hdr ++ ts ++ uint32be_bytes 5 ++ a) in *.
    set (ch := set_header (header_info hdr) (set_buffer S c0)).
    set (cd := set_stream PACKET_DATA 5 ch).
    assert (HRun : Runs (set_buffer (buffer c0 ++ S) c0) (buffer c0 ++ S) cd a
                     ([ready (header_info hdr)] ++ [] ++ [])).
    { change (buffer c0 ++ S) with (hdr ++ ts ++ uint32be_bytes 5 ++ a).
      eapply Runs_turn; [apply consume_header; [reflexivity|assumption]|].
      eapply Runs_turn;
        [apply (consume_meta_raw ch ts 5 a); (reflexivity || assumption || lia)|].
      apply Runs_stop. unfold consume, Buffer_length. rewrite Ha. reflexivity. }
    pose proof (processData_Runs c0 S _ _ _ (new_client_wf s p) HRun) as HP.
    simpl app in HP.
    destruct (processData_post _ _ _ _ (new_client_wf s p) HP) as [Hwf1 Hq1].
    set (c1 := set_buffer a cd) in *.
    assert (HRun2 : Runs (set_buffer (buffer c1 ++ b) c1) (buffer c1 ++ b)
                      (set_stream PACKET_META 5 (set_buffer (buffer c1 ++ b) c1)) []
                      ([video_data (a ++ b)] ++ [])).
    { econstructor.
      - pose proof (consume_data (set_buffer (buffer c1 ++ b) c1) (a ++ b) []) as Hd.
        rewrite app_nil_r in Hd. unfold Buffer_length in Hd.
        rewrite length_app, Ha, Hb in Hd. apply Hd; try reflexivity.
        destruct a; [discriminate|]. discriminate.
      - constructor. reflexivity. }
    pose proof (processData_Runs c1 b _ _ _ Hwf1 HRun2) as HP2.
    exists c1, (set_buffer [] (set_stream PACKET_META 5 (set_buffer (buffer c1 ++ b) c1))).
    split.
    + rewrite feed_concat by (apply new_client_wf || apply new_client_quiescent).
      rewrite Hc. exact HP.
    + rewrite feed_concat by assumption. rewrite Hc'. exact HP2.
  - intros Hlt. apply processData_waits; assumption.
  - intros Hpos Hle. apply processData_emits; assumption.
Qed.

Lemma framer_waits_for_whole_packet_witness :
  (exists c1 c2,
      feed (new_ScrcpyClient "A" 27183)
        [sample_header; sample_pts ++ uint32be_bytes 5; [x00; x00; x00]]
      = Ok (c1, [ready (header_info sample_header)]) /\
      feed c1 [[x01]; [x65]] = Ok (c2, [video_data ([x00; x00; x00] ++ [x01; x65])])) /\
  (Buffer_length (buffer (set_stream PACKET_DATA 5 streaming_client) ++ [x00; x00; x00])
   < currentPacketSize (set_stream PACKET_DATA 5 streaming_client) ->
   _processData (set_stream PACKET_DATA 5 streaming_client) [x00; x00; x00] =
   Ok (set_buffer (buffer (set_stream PACKET_DATA 5 streaming_client) ++ [x00; x00; x00])
         (set_stream PACKET_DATA 5 streaming_client), [])) /\
  (0 < Buffer_length (buffer (set_stream PACKET_DATA 5 streaming_client) ++ [x00; x00; x00]) ->
   currentPacketSize (set_stream PACKET_DATA 5 streaming_client)
   <= Buffer_length (buffer (set_stream PACKET_DATA 5 streaming_client) ++ [x00; x00; x00]) ->
   exists c' evs,
     _processData (set_stream PACKET_DATA 5 streaming_client) [x00; x00; x00] =
     Ok (c', video_data
               (take (Z.to_nat (currentPacketSize (set_stream PACKET_DATA 5 streaming_client)))
                  (buffer (set_stream PACKET_DATA 5 streaming_client) ++ [x00; x00; x00]))
             :: evs)).
Proof.
  apply (framer_waits_for_whole_packet "A" 27183 sample_header sample_pts
           [x00; x00; x00] [x01; x65]
           [sample_header; sample_pts ++ uint32be_bytes 5; [x00; x00; x00]]
           [[x01]; [x65]]
           (set_stream PACKET_DATA 5 streaming_client) [x00; x00; x00]);
    try reflexivity.
  unfold wf. simpl. lia.
Defined.

(** C2, as stated, fails: a meta declaring 4294967295 payload bytes raises
    nothing. The size is recorded and the bytes that follow pile up in the
    buffer. *)
Lemma framer_oversized_meta_counterexample :
  ~ raises_framing_error
      (feed (new_ScrcpyClient "A" 27183)
         [sample_header; sample_pts ++ [xff; xff; xff; xff]; [x01; x02; x03]]) /\
  exists c',
    feed (new_ScrcpyClient "A" 27183)
      [sample_header; sample_pts ++ [xff; xff; xff; xff]; [x01; x02; x03]]
    = Ok (c', [ready (header_info sample_header)]) /\
    streamState c' = PACKET_DATA /\
    currentPacketSize c' = 4294967295 /\
    buffer c' = [x01; x02; x03].
Proof.
  split.
  - vm_compute. intros H. inversion H as [|? ? ? H']; subst. inversion H'.
  - eexists. vm_compute. repeat split.
Qed.

(** C2, amended. Whatever size a packet meta declares, the framer raises no
    error: the call returns normally, records the declared size and waits
    for packet data; while fewer bytes than declared are buffered, each
    further call emits nothing and appends its chunk to the buffer. No call
    of the framer throws or emits an ['error'] event. *)
Theorem framer_accepts_any_declared_size c chunk more chunk0 :
  wf c -> readState c = STREAMING -> streamState c = PACKET_META ->
  12 <= Buffer_length (buffer c ++ chunk) ->
  Buffer_length (drop 12 (buffer c ++ chunk) ++ more)
    < be32 (drop 8 (buffer c ++ chunk)) ->
  let size := be32 (drop 8 (buffer c ++ chunk)) in
  let c1 := set_buffer (drop 12 (buffer c ++ chunk)) (set_stream PACKET_DATA size c) in
  _processData c chunk = Ok (c1, []) /\
  _processData c1 more = Ok (set_buffer (buffer c1 ++ more) c1, []) /\
  exists c' evs,
    _processData c chunk0 = Ok (c', evs) /\
    Forall (fun e => is_ready e \/ is_video e) evs.
Proof.
  intros Hwf Hr Hs Hlen Hsz size c1.
  assert (Hsz' : Buffer_length (buffer c ++ chunk) - 12 < size).
  { unfold Buffer_length in *. rewrite length_app, length_drop in Hsz.
    subst size. lia. }
  split; [|split].
  - apply processData_meta; assumption.
  - apply processData_waits.
    + unfold wf. simpl. apply be32_range.
    + exact Hr.
    + reflexivity.
    + exact Hsz.
  - destruct (processData_total c chunk0 Hwf) as (c' & l' & evs & HR & Heq).
    exists (set_buffer l' c'), evs. split; [assumption|].
    eapply Runs_events; eassumption.
Qed.

Lemma framer_accepts_any_declared_size_witness :
  let c := streaming_client in
  let chunk := sample_pts ++ [xff; xff; xff; xff] in
  let size := be32 (drop 8 (buffer c ++ chunk)) in
  let c1 := set_buffer (drop 12 (buffer c ++ chunk)) (set_stream PACKET_DATA size c) in
  _processData c chunk = Ok (c1, []) /\
  _processData c1 [x01; x02; x03] = Ok (set_buffer (buffer c1 ++ [x01; x02; x03]) c1, []) /\
  exists c' evs,
    _processData c sample_header = Ok (c', evs) /\
    Forall (fun e => is_ready e \/ is_video e) evs.
Proof.
  apply (framer_accepts_any_declared_size streaming_client
           (sample_pts ++ [xff; xff; xff; xff]) [x01; x02; x03] sample_header).
  - unfold wf. simpl. lia.
  - reflexivity.
  - reflexivity.
  - vm_compute. discriminate.
  - vm_compute. reflexivity.
Defined.

(** C6, as stated, fails twice: a stream shorter than the header yields
    no device info at all, and a NUL inside the name is removed although
    it is not trailing. *)
Lemma framer_device_info_counterexample :
  (exists c', feed (new_ScrcpyClient "A" 27183) [take 75 sample_header] = Ok (c', [])) /\
  (exists c' info,
     feed (new_ScrcpyClient "A" 27183) [nul_header] = Ok (c', [ready info]) /\
     name info = [65; 66] /\
     spec_name nul_header = [65; 0; 66] /\
     name info <> spec_name nul_header).
Proof.
  split.
  - eexists. vm_compute. reflexivity.
  - eexists. eexists. vm_compute. repeat split. discriminate.
Qed.

(** C6, amended. Whatever the chunking, a stream of fewer than 76 bytes
    emits nothing; a stream of at least 76 bytes emits the device info
    exactly once, as the first event, and only video packets after it.
    The name is the UTF-8 text of bytes [0,64) with every NUL character
    removed, the width and the height are the big-endian 32-bit values at
    bytes [68,72) and [72,76); bytes [64,68) play no part. *)
Theorem framer_device_info_first s p chunks :
  exists c' evs,
    feed (new_ScrcpyClient s p) chunks = Ok (c', evs) /\
    (Buffer_length (concat chunks) < 76 -> evs = []) /\
    (76 <= Buffer_length (concat chunks) ->
     exists vids,
       evs = ready {| name := replace_nul (toString_utf8 (take 64 (concat chunks)));
                      width := be32 (drop 68 (concat chunks));
                      height := be32 (drop 72 (concat chunks)) |} :: vids /\
       Forall is_video vids).
Proof.
  set (c0 := new_ScrcpyClient s p).
  destruct (processData_total c0 (concat chunks) (new_client_wf s p))
    as (c' & l' & evs & HR & Heq).
  exists (set_buffer l' c'), evs.
  split; [|split].
  - rewrite feed_concat by (apply new_client_wf || apply new_client_quiescent).
    exact Heq.
  - intros Hlt.
    change (buffer c0 ++ concat chunks) with (concat chunks) in HR.
    pose proof (consume_short (set_buffer (concat chunks) c0) (concat chunks)
                  eq_refl Hlt) as Hn.
    apply (Runs_none _ _ _ _ _ Hn) in HR. apply HR.
  - intros Hge.
    change (buffer c0 ++ concat chunks) with (concat chunks) in HR.
    exact (Runs_from_header (set_buffer (concat chunks) c0) _ _ _ _ eq_refl Hge HR).
Qed.

Lemma framer_device_info_first_witness :
  exists c' evs,
    feed (new_ScrcpyClient "A" 27183) [take 10 nul_header; drop 10 nul_header]
    = Ok (c', evs) /\
    (Buffer_length (concat [take 10 nul_header; drop 10 nul_header]) < 76 -> evs = []) /\
    (76 <= Buffer_length (concat [take 10 nul_header; drop 10 nul_header]) ->
     exists vids,
       evs = ready {| name := replace_nul (toString_utf8
                                 (take 64 (concat [take 10 nul_header; drop 10 nul_header])));
                      width := be32 (drop 68 (concat [take 10 nul_header; drop 10 nul_header]));
                      height := be32 (drop 72 (concat [take 10 nul_header; drop 10 nul_header])) |}
             :: vids /\
       Forall is_video vids).
Proof.
  exact (framer_device_info_first "A" 27183 [take 10 nul_header; drop 10 nul_header]).
Defined.

(** ** The touch encoder *)

(** C3, as stated, fails: for a touch-down at the centre of a 1080 x 2400
    device, bytes [18,20) hold the width 1080, not the pressure value;
    the pressure value is at [22,24), behind width and height. *)
Lemma touch_layout_counterexample :
  exists msg,
    sendTouch double double_round_scale never_throws running_client 0
      double_half double_half
    = Ok (running_client, [socket_write 3%nat msg]) /\
    subarray msg 18 20 = be_bytes 2 1080 /\
    subarray msg 20 22 = be_bytes 2 2400 /\
    subarray msg 22 24 = be_bytes 2 65535 /\
    ~ spec_touch_layout msg 0 540 1200 1080 2400.
Proof.
  eexists. split; [vm_compute; reflexivity|].
  repeat split; try (vm_compute; reflexivity).
  intros (_ & _ & _ & _ & _ & H & _). vm_compute in H. discriminate.
Qed.

(** C3, amended. Every message [sendTouch] writes is 32 bytes long with
    byte [0] = 2, byte [1] = the action code, bytes [10,14) = x and
    [14,18) = y as big-endian int32, bytes [18,20) = the device width and
    [20,22) = the device height as uint16, bytes [22,24) = 0 when the
    action is 1 (up) and 65535 otherwise, bytes [24,28) = 1 and bytes
    [28,32) = 0. Every value fits its field (a value that does not makes
    the write throw), and the client is left unchanged. *)
Theorem sendTouch_layout Fraction (round_scale : Fraction -> Z -> JsNumber)
    write_throws c action xp yp sock c' effs :
  socket c = Some sock -> width (deviceInfo c) <> 0 ->
  sendTouch Fraction round_scale write_throws c action xp yp = Ok (c', effs) ->
  exists msg,
    c' = c /\
    effs = socket_write sock msg ::
           (if write_throws sock msg then [console_error] else []) /\
    touch_layout msg action
      (stored (round_scale xp (width (deviceInfo c))))
      (stored (round_scale yp (height (deviceInfo c))))
      (width (deviceInfo c)) (height (deviceInfo c)) /\
    touch_fields_fit action
      (stored (round_scale xp (width (deviceInfo c))))
      (stored (round_scale yp (height (deviceInfo c))))
      (width (deviceInfo c)) (height (deviceInfo c)).
Proof.
  intros Hs Hw H.
  destruct (sendTouch_message _ _ _ _ _ _ _ _ _ _ Hs Hw H) as (-> & -> & Hfit).
  eexists. split; [reflexivity|]. split; [reflexivity|].
  split; [apply touch_message_layout|exact Hfit].
Qed.

Lemma sendTouch_layout_witness :
  exists msg,
    running_client = running_client /\
    [socket_write 3%nat (touch_message 1 360 (-1200) 1080 2400)]
    = socket_write 3%nat msg ::
      (if never_throws 3%nat msg then [console_error] else []) /\
    touch_layout msg 1
      (stored (double_round_scale double_third (width (deviceInfo running_client))))
      (stored (double_round_scale double_minus_half (height (deviceInfo running_client))))
      (width (deviceInfo running_client)) (height (deviceInfo running_client)) /\
    touch_fields_fit 1
      (stored (double_round_scale double_third (width (deviceInfo running_client))))
      (stored (double_round_scale double_minus_half (height (deviceInfo running_client))))
      (width (deviceInfo running_client)) (height (deviceInfo running_client)).
Proof.
  apply (sendTouch_layout double double_round_scale never_throws running_client 1
           double_third double_minus_half 3%nat).
  - reflexivity.
  - vm_compute. discriminate.
  - vm_compute. reflexivity.
Defined.

(** C10. A touch sent while no transport socket is present, or while
    the device width is still 0, does nothing: no exception, no effect at
    all (no byte written), the client unchanged. *)
Theorem sendTouch_noop_before_ready Fraction (round_scale : Fraction -> Z -> JsNumber)
    write_throws c action xp yp :
  socket c = None \/ width (deviceInfo c) = 0 ->
  sendTouch Fraction round_scale write_throws c action xp yp = Ok (c, []).
Proof.
  intros [H|H]; unfold sendTouch.
  - rewrite H. reflexivity.
  - rewrite H. destruct (socket c); reflexivity.
Qed.

Lemma sendTouch_noop_before_ready_witness :
  (socket (new_ScrcpyClient "A" 27183) = None \/
   width (deviceInfo (new_ScrcpyClient "A" 27183)) = 0) /\
  sendTouch double double_round_scale never_throws (new_ScrcpyClient "A" 27183) 0
    double_half double_half
  = Ok (new_ScrcpyClient "A" 27183, []).
Proof.
  split; [left; reflexivity|].
  apply (sendTouch_noop_before_ready double double_round_scale never_throws
           (new_ScrcpyClient "A" 27183) 0 double_half double_half).
  left. reflexivity.
Defined.

(** ** The port pool *)

(** C7. Whatever ports are leased, [allocPort] either returns the lowest
    port of [27183, 28000) that is not leased and adds it to the leased set,
    or, when every port of the range is leased, throws the error "No
    available ports". *)
Theorem allocPort_lowest_free (u : gset Z) :
  match allocPort u with
  | Ok (p, u') =>
      27183 <= p < 28000 /\ (p ∉ u) /\
      (forall q, 27183 <= q < p -> q ∈ u) /\ u' = {[p]} ∪ u
  | Throw e =>
      e = Error "No available ports" /\ forall q, 27183 <= q < 28000 -> q ∈ u
  | Diverge => False
  end.
Proof.
  unfold allocPort. apply allocPort_loop_spec; [lia|lia|]. intros q Hq. lia.
Qed.

Lemma allocPort_lowest_free_witness :
  match allocPort all_ports with
  | Ok (p, u') =>
      27183 <= p < 28000 /\ (p ∉ all_ports) /\
      (forall q, 27183 <= q < p -> q ∈ all_ports) /\ u' = {[p]} ∪ all_ports
  | Throw e =>
      e = Error "No available ports" /\
      forall q, 27183 <= q < 28000 -> q ∈ all_ports
  | Diverge => False
  end.
Proof. exact (allocPort_lowest_free all_ports). Defined.

(** ** Teardown *)

(** C4, as stated, fails. When the agent of a running session exits, the
    client destroys its socket, closes its listener and kills the process,
    but port 27183 stays leased and the session stays registered. When
    the transport socket fails, the client only reports it: nothing is
    released. *)
Lemma teardown_counterexample :
  (agent_exited "A" running_main).2 =
    [socket_destroy 3%nat; server_close 1%nat; process_kill 2%nat; emit stopped] /\
  27183 ∈ usedPorts (agent_exited "A" running_main).1 /\
  Map_has "A" (activeClients (agent_exited "A" running_main).1) = true /\
  (transport_failed "A" running_main).2 =
    [console_error; emit error; emit disconnected] /\
  (transport_failed "A" running_main).1 = running_main.
Proof.
  repeat split; reflexivity.
Qed.

(** C4, amended. [stop] destroys the socket if present, closes the
    listener if present and kills the agent process if present, in this
    order, whatever [kill] does, clears the three handles and emits
    ['stopped']; it does not touch the port pool, so after an agent exit
    the port is still leased and the session still registered. A failing
    transport socket releases nothing: the client only reports it. The
    fourth release, of the port, happens when the scanner removes the
    session of a device that is gone: it stops the client, then releases
    the port, then unregisters the session. When the removal loop ends
    the port is not in the pool's set of leased ports; after the scan it
    is leased only if the same scan, behind the release, has allocated it
    again for a session it created. *)
Theorem teardown_releases devices m serial info c :
  scanning m = false ->
  (serial, info) ∈ activeClients m ->
  serial ∉ (dev_serial <$> devices) ->
  (localServer (stop c).1 = None /\ adbProcess (stop c).1 = None /\
   socket (stop c).1 = None /\
   (stop c).2 =
     from_option (fun s => [socket_destroy s]) [] (socket c) ++
     from_option (fun l => [server_close l]) [] (localServer c) ++
     from_option (fun p => [process_kill p]) [] (adbProcess c) ++
     [emit stopped]) /\
  (Map_has serial (activeClients (deviceScanner devices m).1) = false /\
   (info_port info
    ∉ usedPorts (remove_absent (activeClients m) (list_to_set (dev_serial <$> devices))
                   (set_scanning true m)).1) /\
   exists pre post,
     (deviceScanner devices m).2 =
     pre ++ [client_stopped serial (stop (client info)).2;
             port_released (info_port info);
             session_removed serial] ++ post /\
     (info_port info ∈ usedPorts (deviceScanner devices m).1 ->
      port_allocated (info_port info) ∈ post)) /\
  (usedPorts (agent_exited serial m).1 = usedPorts m /\
   Map_has serial (activeClients (agent_exited serial m).1) = true /\
   exists info',
     Map_get serial (activeClients m) = Some info' /\
     (agent_exited serial m).2 = (stop (client info')).2) /\
  (usedPorts (transport_failed serial m).1 = usedPorts m /\
   (transport_failed serial m).2 = [console_error; emit error; emit disconnected]).
Proof.
  intros Hs Hin Hdev.
  assert (HS : serial ∉ (list_to_set (dev_serial <$> devices) : gset string))
    by (rewrite elem_of_list_to_set; assumption).
  split; [|split; [|split]].
  - destruct c as [? ? [l|] [p|] [s|] ? ? ? ? ?]; repeat split.
  - unfold deviceScanner. rewrite Hs.
    set (S := list_to_set (dev_serial <$> devices) : gset string) in *.
    set (m0 := set_scanning true m).
    destruct (remove_absent_actions (activeClients m0) S serial info Hin HS m0)
      as (pre & post & Hacts).
    pose proof (scan_keys_in devices m0) as Hkeys. fold S in Hkeys.
    pose proof (remove_absent_frees (activeClients m0) S serial info Hin HS m0) as Hfree.
    change (activeClients m) with (activeClients m0).
    destruct (remove_absent (activeClients m0) S m0) as [m_r a1].
    specialize (Hkeys m_r a1 eq_refl).
    pose proof (add_devices_ports devices m_r (info_port info)) as Hports.
    destruct (add_devices devices m_r) as [[m_a a2] r].
    simpl in *. split; [|split; [exact Hfree|]].
    + destruct (Map_has serial (activeClients m_a)) eqn:Hh; [|reflexivity].
      apply Map_has_elem in Hh as [v Hv]. apply Hkeys in Hv. contradiction.
    + exists pre, (post ++ a2 ++ match r with
                                 | Throw e => [scanner_error e]
                                 | _ => []
                                 end).
      split; [rewrite Hacts; rewrite <- !app_assoc; reflexivity|].
      intros Hleased. destruct (Hports Hleased) as [Hbefore|Hnew]; [contradiction|].
      apply elem_of_app. right. apply elem_of_app. left. exact Hnew.
  - destruct (Map_get_elem _ _ _ Hin) as [info' Hget].
    unfold agent_exited. rewrite Hget.
    split; [reflexivity|]. split; [apply Map_has_set|].
    exists info'. split; reflexivity.
  - destruct (Map_get_elem _ _ _ Hin) as [info' Hget].
    unfold transport_failed. rewrite Hget. split; reflexivity.
Qed.

Lemma teardown_releases_witness :
  (localServer (stop running_client).1 = None /\
   adbProcess (stop running_client).1 = None /\
   socket (stop running_client).1 = None /\
   (stop running_client).2 =
     from_option (fun s => [socket_destroy s]) [] (socket running_client) ++
     from_option (fun l => [server_close l]) [] (localServer running_client) ++
     from_option (fun p => [process_kill p]) [] (adbProcess running_client) ++
     [emit stopped]) /\
  (Map_has "A" (activeClients (deviceScanner [mkDevice "B" "Pixel"] running_main).1) = false /\
   (info_port {| client := running_client; info_port := 27183 |}
    ∉ usedPorts (remove_absent (activeClients running_main)
                   (list_to_set (dev_serial <$> [mkDevice "B" "Pixel"]))
                   (set_scanning true running_main)).1) /\
   exists pre post,
     (deviceScanner [mkDevice "B" "Pixel"] running_main).2 =
     pre ++ [client_stopped "A"
               (stop (client {| client := running_client; info_port := 27183 |})).2;
             port_released (info_port {| client := running_client; info_port := 27183 |});
             session_removed "A"] ++ post /\
     (info_port {| client := running_client; info_port := 27183 |}
      ∈ usedPorts (deviceScanner [mkDevice "B" "Pixel"] running_main).1 ->
      port_allocated (info_port {| client := running_client; info_port := 27183 |})
      ∈ post)) /\
  (usedPorts (agent_exited "A" running_main).1 = usedPorts running_main /\
   Map_has "A" (activeClients (agent_exited "A" running_main).1) = true /\
   exists info',
     Map_get "A" (activeClients running_main) = Some info' /\
     (agent_exited "A" running_main).2 = (stop (client info')).2) /\
  (usedPorts (transport_failed "A" running_main).1 = usedPorts running_main /\
   (transport_failed "A" running_main).2 = [console_error; emit error; emit disconnected]).
Proof.
  apply (teardown_releases [mkDevice "B" "Pixel"] running_main "A"
           {| client := running_client; info_port := 27183 |} running_client).
  - reflexivity.
  - simpl. left.
  - simpl. intros H. inversion H as [|? ? ? H']; subst. inversion H'.
Defined.

(** ** The device scanner *)

(** C8. Whatever the registry state, a second scan against the same set
    of attached devices (listed in the same order or not) leaves the state
    exactly as the first scan left it and performs no session creation,
    stop or removal and no port allocation or release; the only thing it
    may do is log again the error that ended the first scan. *)
Theorem deviceScanner_idempotent devices devices' m :
  (forall s, s ∈ dev_serial <$> devices' <-> s ∈ dev_serial <$> devices) ->
  (deviceScanner devices' (deviceScanner devices m).1).1 = (deviceScanner devices m).1 /\
  Forall is_scanner_error (deviceScanner devices' (deviceScanner devices m).1).2.
Proof.
  intros Hset. destruct (scanning m) eqn:Hs.
  - assert (H1 : forall ds, deviceScanner ds m = (m, []))
      by (intros ds; unfold deviceScanner; rewrite Hs; reflexivity).
    rewrite (H1 devices). cbn [fst snd]. rewrite (H1 devices').
    split; [reflexivity|constructor].
  - destruct (deviceScanner_result devices m Hs) as (m_a & H1 & Hsc & Hkeys & Hcase).
    rewrite H1.
    destruct (deviceScanner_again devices devices' m_a Hset Hsc Hkeys Hcase)
      as (acts & -> & Hacts).
    split; [reflexivity|exact Hacts].
Qed.

Lemma deviceScanner_idempotent_witness :
  (forall s, s ∈ dev_serial <$> [mkDevice "B" "Pixel"; mkDevice "A" "Pixel"; mkDevice "B" "Pixel"]
             <-> s ∈ dev_serial <$> [mkDevice "A" "Pixel"; mkDevice "B" "Pixel"]) /\
  (deviceScanner [mkDevice "B" "Pixel"; mkDevice "A" "Pixel"; mkDevice "B" "Pixel"]
     (deviceScanner [mkDevice "A" "Pixel"; mkDevice "B" "Pixel"] running_main).1).1
  = (deviceScanner [mkDevice "A" "Pixel"; mkDevice "B" "Pixel"] running_main).1 /\
  Forall is_scanner_error
    (deviceScanner [mkDevice "B" "Pixel"; mkDevice "A" "Pixel"; mkDevice "B" "Pixel"]
       (deviceScanner [mkDevice "A" "Pixel"; mkDevice "B" "Pixel"] running_main).1).2.
Proof.
  assert (Hset : forall s,
            s ∈ dev_serial <$> [mkDevice "B" "Pixel"; mkDevice "A" "Pixel"; mkDevice "B" "Pixel"]
            <-> s ∈ dev_serial <$> [mkDevice "A" "Pixel"; mkDevice "B" "Pixel"]).
  { intros s. simpl. rewrite !elem_of_cons. rewrite elem_of_nil. tauto. }
  split; [exact Hset|].
  exact (deviceScanner_idempotent
           [mkDevice "A" "Pixel"; mkDevice "B" "Pixel"]
           [mkDevice "B" "Pixel"; mkDevice "A" "Pixel"; mkDevice "B" "Pixel"]
           running_main Hset).
Defined.

(** ** Keyframe replay *)

(** C9. A viewer that connects for a session whose cache holds the three
    packets is sent exactly these, SPS then PPS then IDR, in the
    connection handler itself; everything sent to it afterwards (live
    packets of its device, status replies) comes behind them. *)
Theorem keyframe_replay_on_subscribe m id serial a b k incoming :
  serial <> ""%string ->
  Map_get serial (deviceBuffers m) =
    Some {| sps := Some a; pps := Some b; idr := Some k |} ->
  (forall ws, ws ∈ wss_clients m -> ws_id ws <> id) ->
  sent_to id (on_connection id (Some serial) m).1 = [a; b; k] /\
  sent_to id (foldl on_incoming (on_connection id (Some serial) m).1 incoming) =
    [a; b; k] ++ deliveries id serial incoming.
Proof.
  intros Hne Hget Hfresh.
  set (w := {| ws_id := id; ws_serial := Some serial; readyState := OPEN;
               sent := [a; b; k] |}).
  assert (Hm1 : wss_clients (on_connection id (Some serial) m).1 = wss_clients m ++ [w]).
  { unfold on_connection. rewrite (Map_get_has _ _ _ Hget).
    rewrite bool_decide_eq_false_2 by assumption. simpl.
    rewrite Hget. simpl.
    destruct (Map_get serial (activeClients m)); reflexivity. }
  split.
  - rewrite (sent_to_app id _ _ _ Hm1), sent_to_others by assumption.
    simpl. rewrite bool_decide_eq_true_2 by reflexivity. reflexivity.
  - apply (on_incoming_run id serial incoming _ (wss_clients m) w Hm1);
      (reflexivity || assumption).
Qed.

Lemma keyframe_replay_on_subscribe_witness :
  let m := foldl on_incoming running_main
             [live_packet "A" sample_sps; live_packet "A" sample_pps;
              live_packet "A" sample_idr; live_packet "A" sample_frame] in
  let incoming := [live_packet "A" sample_frame; live_packet "B" sample_idr;
                   status_reply 7%nat sample_pts; live_packet "A" sample_sps] in
  sent_to 7%nat (on_connection 7%nat (Some "A"%string) m).1
    = [sample_sps; sample_pps; sample_idr] /\
  sent_to 7%nat (foldl on_incoming (on_connection 7%nat (Some "A"%string) m).1 incoming)
    = [sample_sps; sample_pps; sample_idr] ++ deliveries 7%nat "A" incoming.
Proof.
  apply (keyframe_replay_on_subscribe
           (foldl on_incoming running_main
              [live_packet "A" sample_sps; live_packet "A" sample_pps;
               live_packet "A" sample_idr; live_packet "A" sample_frame])
           7%nat "A"%string sample_sps sample_pps sample_idr).
  - discriminate.
  - vm_compute. reflexivity.
  - intros ws H. vm_compute in H. inversion H.
Defined.

(** * Further properties of the code *)

(** ** The framer on arbitrary streams *)

Lemma feed_post chunks : forall c c' evs,
  wf c -> quiescent c -> feed c chunks = Ok (c', evs) -> wf c' /\ quiescent c'.
Proof.
  induction chunks as [|a rest IH]; intros c c' evs Hwf Hq H; simpl in H.
  - inversion H; subst. auto.
  - destruct (_processData c a) as [[c1 e1]| |] eqn:E; simpl in H; try discriminate.
    destruct (processData_post _ _ _ _ Hwf E) as [Hwf1 Hq1].
    destruct (feed c1 rest) as [[c2 e2]| |] eqn:E2; simpl in H; try discriminate.
    inversion H; subst. eapply IH; eassumption.
Qed.

Lemma reachable_wf c : reachable c -> wf c /\ quiescent c.
Proof.
  intros (s & p & chunks & evs & H).
  exact (feed_post chunks _ _ _ (new_client_wf s p) (new_client_quiescent s p) H).
Qed.

Lemma quiescent_bounded c : wf c -> quiescent c -> buffer_bounded c.
Proof.
  unfold wf, quiescent, consume, buffer_bounded. intros Hwf H.
  destruct (Buffer_length (buffer c) <=? 0) eqn:E0.
  - zbool. rewrite (Buffer_length_0 (buffer c)) by lia.
    destruct (readState c), (streamState c); try (unfold Buffer_length; simpl; lia).
    right. reflexivity.
  - destruct (readState c).
    + destruct (Buffer_length (buffer c) <? 76) eqn:E; [zbool|discriminate].
      destruct (streamState c); lia.
    + destruct (streamState c).
      * destruct (Buffer_length (buffer c) <? 12) eqn:E; [zbool; lia|discriminate].
      * destruct (Buffer_length (buffer c) <? currentPacketSize c) eqn:E;
          [zbool; left; lia|discriminate].
Qed.

(** X1. From any state the framer can be in, two chunkings of the same
    bytes give the same final state and the same events, whatever the
    bytes are. *)
Theorem feed_chunking_irrelevant c chunks1 chunks2 :
  reachable c ->
  concat chunks1 = concat chunks2 ->
  feed c chunks1 = feed c chunks2.
Proof.
  intros Hr Heq. destruct (reachable_wf c Hr) as [Hwf Hq].
  rewrite !feed_concat by assumption. rewrite Heq. reflexivity.
Qed.

Lemma feed_chunking_irrelevant_witness :
  reachable streaming_client /\
  feed streaming_client
    [sample_pts; [x00; x00]; [x00; x02; xaa]; [xbb; x00]]
  = feed streaming_client
    [sample_pts ++ [x00; x00; x00; x02]; []; [xaa; xbb; x00]].
Proof.
  assert (Hr : reachable streaming_client).
  { exists "A"%string, 27183, [sample_header], [ready (header_info sample_header)].
    vm_compute. reflexivity. }
  split; [exact Hr|].
  apply (feed_chunking_irrelevant streaming_client _ _ Hr). reflexivity.
Defined.

(** X2. A call of the framer never throws and never fails to return;
    afterwards fewer bytes are held back than the state waits for: fewer
    than 76 before the header, fewer than 12 before a meta, fewer than the
    declared size (or none) before a payload. *)
Theorem processData_returns_bounded c chunk :
  wf c ->
  exists c' evs,
    _processData c chunk = Ok (c', evs) /\ wf c' /\ buffer_bounded c'.
Proof.
  intros Hwf.
  destruct (processData_total c chunk Hwf) as (c' & l' & evs & HR & Heq).
  exists (set_buffer l' c'), evs. split; [assumption|].
  destruct (processData_post _ _ _ _ Hwf Heq) as [Hwf' Hq'].
  split; [assumption|]. apply quiescent_bounded; assumption.
Qed.

Lemma processData_returns_bounded_witness :
  wf streaming_client /\
  exists c' evs,
    _processData streaming_client (sample_pts ++ [x00; x00; x00; x09; x01]) = Ok (c', evs) /\
    wf c' /\ buffer_bounded c'.
Proof.
  assert (Hwf : wf streaming_client) by (unfold wf; simpl; lia).
  split; [exact Hwf|].
  exact (processData_returns_bounded streaming_client
           (sample_pts ++ [x00; x00; x00; x09; x01]) Hwf).
Defined.

Lemma Runs_deviceInfo c l c' l' evs :
  readState c = STREAMING -> Runs c l c' l' evs -> deviceInfo c' = deviceInfo c.
Proof.
  intros Hs HR. induction HR as [c l Hc|c l c1 l1 ev c2 l2 evs Hc _ IH]; [reflexivity|].
  unfold consume in Hc. rewrite Hs in Hc.
  destruct (Buffer_length l <=? 0); [discriminate|].
  destruct (streamState c).
  - destruct (Buffer_length l <? 12); [discriminate|]. inversion Hc; subst.
    rewrite IH by assumption. reflexivity.
  - destruct (Buffer_length l <? currentPacketSize c); [discriminate|].
    inversion Hc; subst. rewrite IH by assumption. reflexivity.
Qed.

Lemma processData_streaming c chunk c' evs :
  wf c -> readState c = STREAMING ->
  _processData c chunk = Ok (c', evs) ->
  wf c' /\ readState c' = STREAMING /\ deviceInfo c' = deviceInfo c /\
  Forall is_video evs.
Proof.
  intros Hwf Hs H.
  destruct (processData_total c chunk Hwf) as (c1 & l1 & e1 & HR & Heq).
  rewrite Heq in H. inversion H; subst.
  destruct (Runs_streaming (set_buffer (buffer c ++ chunk) c) _ _ _ _ Hs HR) as [Hs' Hv].
  pose proof (Runs_deviceInfo (set_buffer (buffer c ++ chunk) c) _ _ _ _ Hs HR) as Hd.
  pose proof (Runs_wf (set_buffer (buffer c ++ chunk) c) _ _ _ _ Hwf HR) as Hwf'.
  repeat split; assumption.
Qed.

(** X3. Once the header has been read the client streams for good:
    whatever is fed, the device info is never replaced, no second
    ['ready'] is emitted, and every event is a video packet. *)
Theorem streaming_is_permanent chunks : forall c c' evs,
  wf c -> readState c = STREAMING ->
  feed c chunks = Ok (c', evs) ->
  readState c' = STREAMING /\ deviceInfo c' = deviceInfo c /\ Forall is_video evs.
Proof.
  induction chunks as [|a rest IH]; intros c c' evs Hwf Hs H; simpl in H.
  - inversion H; subst. repeat split; auto.
  - destruct (_processData c a) as [[c1 e1]| |] eqn:E; simpl in H; try discriminate.
    destruct (processData_streaming _ _ _ _ Hwf Hs E) as (Hwf1 & Hs1 & Hd1 & Hv1).
    destruct (feed c1 rest) as [[c2 e2]| |] eqn:E2; simpl in H; try discriminate.
    inversion H; subst.
    destruct (IH _ _ _ Hwf1 Hs1 E2) as (Hs2 & Hd2 & Hv2).
    repeat split; [assumption|congruence|]. apply Forall_app. auto.
Qed.

Lemma streaming_is_permanent_witness :
  wf streaming_client /\ readState streaming_client = STREAMING /\
  exists c' evs,
    feed streaming_client [sample_header; sample_pts; [x00; x00; x00; x01; xaa]]
    = Ok (c', evs) /\
    readState c' = STREAMING /\
    deviceInfo c' = deviceInfo streaming_client /\
    Forall is_video evs.
Proof.
  assert (Hwf : wf streaming_client) by (unfold wf; simpl; lia).
  split; [exact Hwf|]. split; [reflexivity|].
  eexists. eexists. split; [vm_compute; reflexivity|].
  eapply (streaming_is_permanent
            [sample_header; sample_pts; [x00; x00; x00; x01; xaa]] streaming_client);
    [exact Hwf|reflexivity|vm_compute; reflexivity].
Defined.

Lemma payloads_app e1 e2 : payloads (e1 ++ e2) = payloads e1 ++ payloads e2.
Proof.
  induction e1 as [|e e1 IH]; [reflexivity|].
  destruct e; simpl; rewrite IH; reflexivity.
Qed.

Lemma Buffer_length_app (a b : Buffer) :
  Buffer_length (a ++ b) = Buffer_length a + Buffer_length b.
Proof. unfold Buffer_length. rewrite length_app. lia. Qed.

Lemma Runs_accounting c l c' l' evs :
  wf c -> readState c = STREAMING -> Runs c l c' l' evs ->
  Buffer_length l =
  Buffer_length l' + Buffer_length (concat (payloads evs)) +
  12 * (Z.of_nat (length (payloads evs)) + pending_meta c' - pending_meta c).
Proof.
  intros Hwf Hs HR.
  induction HR as [c l Hc|c l c1 l1 ev c2 l2 evs Hc _ IH].
  - simpl. unfold Buffer_length at 3. simpl. lia.
  - pose proof (consume_wf _ _ _ _ _ Hwf Hc) as Hwf1.
    unfold consume in Hc. rewrite Hs in Hc. unfold wf in Hwf.
    destruct (Buffer_length l <=? 0) eqn:E0; [discriminate|].
    destruct (streamState c) eqn:Est.
    + destruct (Buffer_length l <? 12) eqn:E; [discriminate|]. inversion Hc; subst.
      specialize (IH Hwf1 Hs). simpl app.
      assert (Hd : Buffer_length (drop 12 l) = Buffer_length l - 12)
        by (unfold Buffer_length in *; rewrite length_drop; zbool; lia).
      rewrite Hd in IH. unfold pending_meta in *. simpl in IH. rewrite Est. lia.
    + destruct (Buffer_length l <? currentPacketSize c) eqn:E; [discriminate|].
      inversion Hc; subst. specialize (IH Hwf1 Hs). zbool.
      assert (Hd : Buffer_length (drop (Z.to_nat (currentPacketSize c)) l)
                   = Buffer_length l - currentPacketSize c)
        by (unfold Buffer_length in *; rewrite length_drop; lia).
      assert (Ht : Buffer_length (take (Z.to_nat (currentPacketSize c)) l)
                   = currentPacketSize c)
        by (unfold Buffer_length in *; rewrite length_take; lia).
      rewrite Hd in IH. simpl. rewrite Buffer_length_app, Ht.
      unfold pending_meta in *. simpl in IH. rewrite Est.
      rewrite Nat2Z.inj_succ. lia.
Qed.

(** X4. While streaming, every byte fed is accounted for: the bytes
    buffered before plus the bytes fed equal the bytes still buffered,
    plus the payload bytes emitted, plus 12 bytes for each packet meta
    read. *)
Theorem streaming_byte_accounting chunks : forall c c' evs,
  wf c -> readState c = STREAMING ->
  feed c chunks = Ok (c', evs) ->
  Buffer_length (buffer c) + Buffer_length (concat chunks) =
  Buffer_length (buffer c') + Buffer_length (concat (payloads evs)) +
  12 * (Z.of_nat (length (payloads evs)) + pending_meta c' - pending_meta c).
Proof.
  induction chunks as [|a rest IH]; intros c c' evs Hwf Hs H; simpl in H.
  - inversion H; subst. simpl. unfold Buffer_length at 2 4. simpl. lia.
  - destruct (_processData c a) as [[c1 e1]| |] eqn:E; simpl in H; try discriminate.
    destruct (processData_streaming _ _ _ _ Hwf Hs E) as (Hwf1 & Hs1 & _ & _).
    destruct (feed c1 rest) as [[c2 e2]| |] eqn:E2; simpl in H; try discriminate.
    inversion H; subst. specialize (IH _ _ _ Hwf1 Hs1 E2).
    destruct (processData_total c a Hwf) as (cr & lr & er & HR & Heq).
    rewrite Heq in E. inversion E; subst.
    pose proof (Runs_accounting (set_buffer (buffer c ++ a) c) _ _ _ _ Hwf Hs HR) as Hacc.
    rewrite Buffer_length_app in Hacc.
    simpl concat. rewrite payloads_app, concat_app, length_app.
    rewrite !Buffer_length_app.
    change (buffer (set_buffer lr cr)) with lr in IH.
    change (pending_meta (set_buffer lr cr)) with (pending_meta cr) in IH.
    change (pending_meta (set_buffer (buffer c ++ a) c)) with (pending_meta c) in Hacc.
    lia.
Qed.

Lemma streaming_byte_accounting_witness :
  wf streaming_client /\ readState streaming_client = STREAMING /\
  exists c' evs,
    feed streaming_client
      [sample_pts; [x00; x00; x00; x02; xaa]; [xbb; x00; x00; x00]] = Ok (c', evs) /\
    Buffer_length (buffer streaming_client) +
    Buffer_length (concat [sample_pts; [x00; x00; x00; x02; xaa]; [xbb; x00; x00; x00]]) =
    Buffer_length (buffer c') + Buffer_length (concat (payloads evs)) +
    12 * (Z.of_nat (length (payloads evs)) + pending_meta c'
          - pending_meta streaming_client).
Proof.
  assert (Hwf : wf streaming_client) by (unfold wf; simpl; lia).
  split; [exact Hwf|]. split; [reflexivity|].
  eexists. eexists. split; [vm_compute; reflexivity|].
  eapply (streaming_byte_accounting
            [sample_pts; [x00; x00; x00; x02; xaa]; [xbb; x00; x00; x00]]
            streaming_client);
    [exact Hwf|reflexivity|vm_compute; reflexivity].
Defined.

(** ** The touch encoder, failures included *)

(** X5. With a socket and a non-zero width, [sendTouch] writes its message
    exactly when the action code, both coordinates, the width and the
    height fit their fields, and throws a RangeError otherwise; a NaN
    coordinate fits and is written as 0, an infinite one does not fit. *)
Theorem sendTouch_writes_or_throws Fraction (round_scale : Fraction -> Z -> JsNumber)
    write_throws c action xp yp sock :
  socket c = Some sock -> width (deviceInfo c) <> 0 ->
  let x := round_scale xp (width (deviceInfo c)) in
  let y := round_scale yp (height (deviceInfo c)) in
  let msg := touch_message action (stored x) (stored y)
               (width (deviceInfo c)) (height (deviceInfo c)) in
  sendTouch Fraction round_scale write_throws c action xp yp =
  if touch_fits action x y (width (deviceInfo c)) (height (deviceInfo c))
  then Ok (c, socket_write sock msg ::
              (if write_throws sock msg then [console_error] else []))
  else Throw RangeError.
Proof.
  intros Hs Hw x y msg. unfold sendTouch. rewrite Hs. fold x y.
  destruct (width (deviceInfo c) =? 0) eqn:E; [zbool; contradiction|].
  unfold touch_fits, writeUInt8, writeUInt16BE, writeUInt32BE, writeInt32BE, write_be.
  subst msg. unfold touch_message.
  remember (out_of_range (Int action) 0 255) as b1.
  remember (out_of_range x (-2147483648) 2147483647) as b2.
  remember (out_of_range y (-2147483648) 2147483647) as b3.
  remember (out_of_range (Int (width (deviceInfo c))) 0 65535) as b4.
  remember (out_of_range (Int (height (deviceInfo c))) 0 65535) as b5.
  assert (Hp : out_of_range (Int (if action =? 1 then 0 else 65535)) 0 65535 = false)
    by (destruct (action =? 1); reflexivity).
  rewrite Hp.
  destruct b1, b2, b3, b4, b5; reflexivity.
Qed.

Lemma sendTouch_writes_or_throws_witness :
  socket running_client = Some 3%nat /\ width (deviceInfo running_client) <> 0 /\
  sendTouch double double_round_scale never_throws running_client 256
    double_half double_half
  = Throw RangeError.
Proof.
  split; [reflexivity|]. split; [vm_compute; discriminate|].
  rewrite (sendTouch_writes_or_throws double double_round_scale never_throws
             running_client 256 double_half double_half 3%nat);
    [reflexivity|reflexivity|vm_compute; discriminate].
Defined.

(** ** Teardown, twice *)

(** X6. Stopping a stopped client releases nothing a second time: the
    second [stop] only emits ['stopped'] again and leaves the client as
    it is. *)
Theorem stop_twice c :
  stop (stop c).1 = ((stop c).1, [emit stopped]).
Proof. destruct c as [? ? [l|] [p|] [s|] ? ? ? ? ?]; reflexivity. Qed.

(** ** Starting a client *)

(** X7. A [start] one of whose awaited steps fails ends with no listener,
    no agent process and no socket: the agent is never spawned, a listener
    that was opened is closed again, and ['error'] then ['stopped'] are
    emitted. A [start] whose steps all succeed holds the new listener and
    the new agent process and emits no ['error']. *)
Theorem start_outcome r c :
  (start_succeeds r = false ->
   localServer (start r c).1 = None /\ adbProcess (start r c).1 = None /\
   socket (start r c).1 = None /\
   (forall s p, spawn_server s p ∉ (start r c).2) /\
   (forall l p, listen l p ∈ (start r c).2 ->
                client_effect (server_close l) ∈ (start r c).2) /\
   client_effect (emit error) ∈ (start r c).2 /\
   last (start r c).2 = Some (client_effect (emit stopped))) /\
  (start_succeeds r = true ->
   localServer (start r c).1 = Some (server_handle r) /\
   adbProcess (start r c).1 = Some (agent_handle r) /\
   socket (start r c).1 = socket c /\
   (client_effect (emit error) ∉ (start r c).2) /\
   last (start r c).2 = Some (spawn_server (serial c) (agent_handle r))).
Proof.
  destruct r as [b1 b2 b3 b4 l p].
  destruct c as [sn pt [l0|] [p0|] [s0|] bf rs ss sz di];
    destruct b1, b2, b3, b4; (split; [intros H|intros H]); try discriminate H;
    cbn -[elem_of]; repeat split; try reflexivity;
    try (intros s1 p1 Hin; elem_cases Hin; elem_search);
    try (intros Hin; elem_cases Hin);
    elem_search.
Qed.

Lemma start_outcome_witness :
  start_succeeds (mkStartRun true true false true 5%nat 6%nat) = false /\
  localServer (start (mkStartRun true true false true 5%nat 6%nat)
                 (new_ScrcpyClient "A" 27183)).1 = None /\
  adbProcess (start (mkStartRun true true false true 5%nat 6%nat)
                (new_ScrcpyClient "A" 27183)).1 = None /\
  socket (start (mkStartRun true true false true 5%nat 6%nat)
            (new_ScrcpyClient "A" 27183)).1 = None /\
  (forall s p, spawn_server s p ∉ (start (mkStartRun true true false true 5%nat 6%nat)
                                     (new_ScrcpyClient "A" 27183)).2) /\
  (forall l p, listen l p ∈ (start (mkStartRun true true false true 5%nat 6%nat)
                               (new_ScrcpyClient "A" 27183)).2 ->
               client_effect (server_close l)
               ∈ (start (mkStartRun true true false true 5%nat 6%nat)
                    (new_ScrcpyClient "A" 27183)).2) /\
  client_effect (emit error) ∈ (start (mkStartRun true true false true 5%nat 6%nat)
                                  (new_ScrcpyClient "A" 27183)).2 /\
  last (start (mkStartRun true true false true 5%nat 6%nat)
          (new_ScrcpyClient "A" 27183)).2 = Some (client_effect (emit stopped)).
Proof.
  split; [reflexivity|].
  exact (proj1 (start_outcome (mkStartRun true true false true 5%nat 6%nat)
                  (new_ScrcpyClient "A" 27183)) eq_refl).
Defined.

(** ** Keys and text *)

(** X8. When the power query exits with a non-zero code, whatever it
    printed counts as empty output: [wakeScreen] then sends SLEEP (223),
    [setScreenPower(true)] sends WAKEUP (224) and [setScreenPower(false)]
    sends nothing. *)
Theorem power_query_failed serial code out :
  code <> 0 ->
  wakeScreen serial (closed code out) =
    [adb serial dumpsys_power; adb serial (input_keyevent 223)] /\
  setScreenPower serial true (closed code out) =
    [adb serial dumpsys_power; adb serial (input_keyevent 224)] /\
  setScreenPower serial false (closed code out) = [adb serial dumpsys_power].
Proof.
  intros Hc. unfold wakeScreen, setScreenPower, runAdbCommand.
  destruct (code =? 0) eqn:E; [zbool; contradiction|]. repeat split.
Qed.

Lemma power_query_failed_witness :
  1 <> 0 /\
  wakeScreen "A" (closed 1 (str "mWakefulness=Asleep")) =
    [adb "A" dumpsys_power; adb "A" (input_keyevent 223)] /\
  setScreenPower "A" true (closed 1 (str "mWakefulness=Asleep")) =
    [adb "A" dumpsys_power; adb "A" (input_keyevent 224)] /\
  setScreenPower "A" false (closed 1 (str "mWakefulness=Asleep")) =
    [adb "A" dumpsys_power].
Proof.
  split; [discriminate|].
  apply (power_query_failed "A" 1 (str "mWakefulness=Asleep")). discriminate.
Defined.

Lemma replace_all_cons m b c s :
  replace_all m b (c :: s) = (if m c then b c else [c]) ++ replace_all m b s.
Proof. reflexivity. Qed.

Lemma replace_all_Forall (P : Z -> Prop) m b s :
  (forall c, m c = true -> Forall P (b c)) ->
  (forall c, c ∈ s -> m c = false -> P c) ->
  Forall P (replace_all m b s).
Proof.
  intros Hb. induction s as [|c s IH]; intros Hs; [constructor|].
  rewrite replace_all_cons. apply Forall_app. split.
  - destruct (m c) eqn:E; [auto|]. constructor; [|constructor].
    apply Hs; [left|assumption].
  - apply IH. intros c' Hc'. apply Hs. right. assumption.
Qed.

Lemma char_escaped_self q s : forall prev,
  q <> 92 ->
  char_escaped q prev (replace_all (fun c => c =? q) (fun _ => [92; q]) s) = true.
Proof.
  induction s as [|c s IH]; intros prev Hq; [reflexivity|].
  rewrite replace_all_cons. destruct (c =? q) eqn:E.
  - zbool. subst c. cbn [char_escaped app].
    destruct (92 =? q) eqn:E1; [zbool; congruence|].
    rewrite !Z.eqb_refl. cbn [andb]. apply IH. assumption.
  - cbn [char_escaped app]. rewrite E. cbn [andb]. apply IH. assumption.
Qed.

Lemma char_escaped_other q q' s : forall prev,
  q <> q' -> q <> 92 ->
  char_escaped q prev s = true ->
  char_escaped q prev (replace_all (fun c => c =? q') (fun _ => [92; q']) s) = true.
Proof.
  induction s as [|c s IH]; intros prev Hq Hq92 H; [reflexivity|].
  rewrite replace_all_cons. cbn [char_escaped] in H.
  apply andb_true_iff in H as [H1 H2].
  destruct (c =? q') eqn:E.
  - zbool. subst c. cbn [char_escaped app].
    destruct (92 =? q) eqn:E1; [zbool; congruence|].
    destruct (q' =? q) eqn:E2; [zbool; congruence|]. cbn [andb].
    apply IH; assumption.
  - cbn [char_escaped app]. rewrite H1. cbn [andb]. apply IH; assumption.
Qed.

Lemma quotes_escaped_both s : forall prev,
  quotes_escaped prev s = char_escaped 34 prev s && char_escaped 39 prev s.
Proof.
  induction s as [|c s IH]; intros prev; [reflexivity|].
  cbn [quotes_escaped char_escaped]. rewrite IH.
  destruct (c =? 34) eqn:E1, (c =? 39) eqn:E2; cbn [orb];
    destruct (prev =? 92), (char_escaped 34 c s), (char_escaped 39 c s);
    try reflexivity; zbool; lia.
Qed.

(** X9. The text [sendText] hands to the shell holds no white space
    character at all, and each single or double quote in it has a
    backslash right before it. *)
Theorem safeText_escapes text :
  Forall (fun c => is_space c = false) (safeText text) /\
  quotes_escaped 0 (safeText text) = true.
Proof.
  split.
  - unfold safeText.
    apply replace_all_Forall; [intros c _; repeat constructor|].
    intros c Hc _. revert c Hc. apply Forall_forall.
    apply replace_all_Forall; [intros c _; repeat constructor|].
    intros c Hc _. revert c Hc. apply Forall_forall.
    apply replace_all_Forall; [intros c _; repeat constructor|].
    intros c _ Hc. exact Hc.
  - rewrite quotes_escaped_both. unfold safeText. apply andb_true_iff. split.
    + apply char_escaped_self. lia.
    + apply char_escaped_other; [lia|lia|]. apply char_escaped_self. lia.
Qed.

(** X10. A text without white space and without quotes is passed on as it
    is, between two single quotes; an empty text issues no command. *)
Theorem sendText_plain serial text :
  Forall (fun c => is_space c = false /\ c <> 34 /\ c <> 39) text ->
  sendText serial text =
  match text with
  | [] => []
  | _ => [adb serial (input_text ([39] ++ text ++ [39]))]
  end.
Proof.
  intros H. assert (Hs : safeText text = text).
  { unfold safeText. induction H as [|c s (Hc1 & Hc2 & Hc3) _ IH]; [reflexivity|].
    rewrite !replace_all_cons, Hc1. simpl app. rewrite !replace_all_cons.
    destruct (c =? 39) eqn:E1; [zbool; contradiction|]. simpl app.
    rewrite !replace_all_cons.
    destruct (c =? 34) eqn:E2; [zbool; contradiction|]. simpl app.
    f_equal. exact IH. }
  unfold sendText. rewrite Hs. reflexivity.
Qed.

Lemma sendText_plain_witness :
  Forall (fun c => is_space c = false /\ c <> 34 /\ c <> 39) (str "hello") /\
  sendText "A" (str "hello") = [adb "A" (input_text (str "'hello'"))].
Proof.
  assert (H : Forall (fun c => is_space c = false /\ c <> 34 /\ c <> 39) (str "hello")).
  { repeat constructor; discriminate. }
  split; [exact H|]. exact (sendText_plain "A" (str "hello") H).
Defined.

(** ** The registry *)

Lemma Map_has_false {V} k (m : JsMap V) : Map_has k m = false <-> k ∉ m.*1.
Proof.
  split.
  - intros H Hin. apply list_elem_of_fmap in Hin as ([k' v] & -> & Hin).
    assert (Ht : Map_has k' m = true) by (apply Map_has_elem; eauto).
    simpl in H. congruence.
  - intros H. destruct (Map_has k m) eqn:E; [|reflexivity].
    apply Map_has_elem in E as [v Hv]. exfalso. apply H.
    apply list_elem_of_fmap. exists (k, v). auto.
Qed.

Lemma Map_delete_keys {V} k (m : JsMap V) :
  (Map_delete k m).*1 = filter (fun x => x <> k) m.*1.
Proof.
  unfold Map_delete, JsMap. induction m as [|[k' v] m IH]; [reflexivity|].
  rewrite fmap_cons, !filter_cons. cbn [fst].
  destruct (decide (k' <> k)); [rewrite fmap_cons; cbn [fst]|]; rewrite IH; reflexivity.
Qed.

Lemma Map_set_new {V} k (v : V) m : k ∉ m.*1 -> Map_set k v m = m ++ [(k, v)].
Proof.
  induction m as [|[k' v'] m IH]; intros H; [reflexivity|].
  simpl. rewrite fmap_cons in H. apply not_elem_of_cons in H as [Hne Hni].
  destruct (decide (k' = k)); [simpl in Hne; congruence|].
  rewrite IH by assumption. reflexivity.
Qed.

Lemma Map_set_existing {V} (f : string * V -> Z) k (v v' : V) m :
  Map_get k m = Some v' -> f (k, v) = f (k, v') ->
  (Map_set k v m).*1 = m.*1 /\ f <$> Map_set k v m = f <$> m.
Proof.
  induction m as [|[k0 v0] m IH]; intros Hg Hf; [discriminate|].
  simpl in *. destruct (decide (k0 = k)) as [->|Hne].
  - inversion Hg; subst. rewrite !fmap_cons, Hf. auto.
  - destruct (IH Hg Hf) as [H1 H2]. rewrite !fmap_cons, H1, H2. auto.
Qed.

Lemma Map_set_keys {V} k (v v' : V) m :
  Map_get k m = Some v' -> (Map_set k v m).*1 = m.*1.
Proof.
  intros Hg. exact (proj1 (Map_set_existing (fun _ => 0) k v v' m Hg eq_refl)).
Qed.

Lemma Map_get_elem_of {V} k (v : V) m : Map_get k m = Some v -> (k, v) ∈ m.
Proof.
  induction m as [|[k0 v0] m IH]; [discriminate|]. simpl.
  destruct (decide (k0 = k)) as [->|Hne]; intros H.
  - inversion H; subst. left.
  - right. auto.
Qed.

Lemma NoDup_fmap_elem {A B} (f : A -> B) (l : list A) x y :
  NoDup (f <$> l) -> x ∈ l -> y ∈ l -> f x = f y -> x = y.
Proof.
  induction l as [|a l IH]; intros Hnd Hx Hy Hf; [inversion Hx|].
  rewrite fmap_cons in Hnd. apply NoDup_cons in Hnd as [Hni Hnd].
  apply elem_of_cons in Hx as [->|Hx]; apply elem_of_cons in Hy as [->|Hy].
  - reflexivity.
  - exfalso. apply Hni. rewrite Hf. apply list_elem_of_fmap_2. assumption.
  - exfalso. apply Hni. rewrite <- Hf. apply list_elem_of_fmap_2. assumption.
  - auto.
Qed.

Lemma registry_ok_scanning b m : registry_ok m -> registry_ok (set_scanning b m).
Proof. intros H. exact H. Qed.

(** Unregistering a session and releasing its port keeps the registry
    in order. *)
Lemma registry_ok_remove m k info :
  registry_ok m -> (k, info) ∈ activeClients m ->
  registry_ok (set_registry (Map_delete k (activeClients m))
                            (Map_delete k (deviceBuffers m))
                            (freePort (info_port info) (usedPorts m)) m).
Proof.
  intros (Hk & Hp & Hu & Hr & Hb & Hc) Hin.
  unfold registry_ok, session_ports in *. simpl.
  assert (Hsub : sublist (Map_delete k (activeClients m)) (activeClients m))
    by apply sublist_filter.
  assert (Hports : forall p,
            p ∈ (fun e : string * Entry => info_port e.2) <$> Map_delete k (activeClients m)
            <-> p ∈ (fun e : string * Entry => info_port e.2) <$> activeClients m /\
                p <> info_port info).
  { intros p. split.
    - intros Hpin. apply list_elem_of_fmap in Hpin as (e & -> & He).
      apply Map_delete_elem in He as [He Hne]. split.
      + apply (list_elem_of_fmap_2 (fun e : string * Entry => info_port e.2)). assumption.
      + intros Heq. assert (e = (k, info)).
        { apply (NoDup_fmap_elem (fun e : string * Entry => info_port e.2)
                   (activeClients m)); assumption. }
        subst e. apply Hne. reflexivity.
    - intros [Hpin Hne]. apply list_elem_of_fmap in Hpin as (e & -> & He).
      apply (list_elem_of_fmap_2 (fun e : string * Entry => info_port e.2)).
      apply Map_delete_elem. split; [assumption|].
      intros Heq. apply Hne. f_equal.
      assert (e = (k, info)); [|subst e; reflexivity].
      apply (NoDup_fmap_elem fst (activeClients m)); assumption. }
  split; [|split; [|split; [|split; [|split]]]].
  - rewrite Map_delete_keys. apply NoDup_filter. assumption.
  - refine (sublist_NoDup _ _ Hp _). apply fmap_sublist, Hsub.
  - intros p. rewrite Hports. unfold freePort.
    rewrite elem_of_difference, elem_of_singleton, Hu. reflexivity.
  - intros p Hpin. apply Hports in Hpin as [Hpin _]. apply Hr. assumption.
  - rewrite !Map_delete_keys, Hb. reflexivity.
  - intros k' e He. apply Map_delete_elem in He as [He _]. apply Hc. assumption.
Qed.

(** Registering a new session under a freshly allocated port keeps the
    registry in order. *)
Lemma registry_ok_add m k p u :
  registry_ok m -> Map_has k (activeClients m) = false ->
  allocPort (usedPorts m) = Ok (p, u) ->
  registry_ok
    (set_registry
       (Map_set k {| client := new_ScrcpyClient k p; info_port := p |} (activeClients m))
       (Map_set k {| sps := None; pps := None; idr := None |} (deviceBuffers m))
       u m).
Proof.
  intros (Hk & Hp & Hu & Hr & Hb & Hc) Hh Ha.
  pose proof (allocPort_loop_spec (usedPorts m) 818 27183
                ltac:(lia) ltac:(lia) ltac:(intros; lia)) as Hspec.
  unfold allocPort in Ha. rewrite Ha in Hspec.
  destruct Hspec as (Hrange & Hfree & _ & ->).
  apply Map_has_false in Hh.
  assert (Hh' : k ∉ (deviceBuffers m).*1) by (rewrite Hb; assumption).
  unfold registry_ok, session_ports in *. simpl.
  rewrite (Map_set_new k _ (activeClients m) Hh).
  rewrite (Map_set_new k _ (deviceBuffers m) Hh').
  rewrite !fmap_app. simpl.
  split; [|split; [|split; [|split; [|split]]]].
  - apply NoDup_app. split; [assumption|]. split; [|apply NoDup_singleton].
    intros x Hx Hx'. apply list_elem_of_singleton in Hx'. subst x. contradiction.
  - apply NoDup_app. split; [assumption|]. split; [|apply NoDup_singleton].
    intros x Hx Hx'. apply list_elem_of_singleton in Hx'. subst x.
    apply Hfree. apply Hu. assumption.
  - intros q. rewrite elem_of_union, elem_of_singleton, elem_of_app,
      list_elem_of_singleton, Hu. tauto.
  - intros q Hq. apply elem_of_app in Hq as [Hq|Hq]; [auto|].
    apply list_elem_of_singleton in Hq. subst q. assumption.
  - rewrite Hb. reflexivity.
  - intros k' e He. apply elem_of_app in He as [He|He]; [auto|].
    apply list_elem_of_singleton in He. inversion He; subst. split; reflexivity.
Qed.

Lemma remove_absent_ok entries S : forall m,
  registry_ok m ->
  (forall e, e ∈ entries -> e ∈ activeClients m) -> NoDup entries.*1 ->
  registry_ok (remove_absent entries S m).1.
Proof.
  induction entries as [|[k info] rest IH]; intros m Hok Hin Hnd; [assumption|].
  rewrite fmap_cons in Hnd. apply NoDup_cons in Hnd as [Hni Hnd]. cbn [fst] in Hni.
  simpl. destruct (bool_decide (k ∈ S)).
  - apply IH; [assumption| |assumption]. intros e He. apply Hin. right. assumption.
  - destruct (stop (client info)) as [c effs].
    match goal with
    | |- context [remove_absent rest S ?m1] =>
        specialize (IH m1); destruct (remove_absent rest S m1) as [m2 acts]
    end.
    simpl. apply IH; [| |assumption].
    + apply registry_ok_remove; [assumption|]. apply Hin. left.
    + intros e He. simpl. apply Map_delete_elem. split; [apply Hin; right; assumption|].
      intros Heq. apply Hni. rewrite <- Heq. apply (list_elem_of_fmap_2 fst). assumption.
Qed.

Lemma add_devices_ok ds : forall m,
  registry_ok m -> registry_ok (add_devices ds m).1.1.
Proof.
  induction ds as [|d rest IH]; intros m Hok; simpl; [assumption|].
  destruct (Map_has (dev_serial d) (activeClients m)) eqn:Hh; [apply IH; assumption|].
  destruct (allocPort (usedPorts m)) as [[p u]| |] eqn:Ha; try assumption.
  match goal with
  | |- context [add_devices rest ?m1] =>
      specialize (IH m1); destruct (add_devices rest m1) as [[m2 acts] r]
  end.
  apply IH. apply registry_ok_add; assumption.
Qed.

Lemma deviceScanner_ok devices m :
  registry_ok m -> registry_ok (deviceScanner devices m).1.
Proof.
  intros Hok. unfold deviceScanner. destruct (scanning m); [assumption|].
  set (S := list_to_set (dev_serial <$> devices) : gset string).
  set (m0 := set_scanning true m).
  assert (Hok0 : registry_ok m0) by exact Hok.
  pose proof (remove_absent_ok (activeClients m0) S m0 Hok0
                ltac:(auto) (proj1 Hok0)) as Hr.
  destruct (remove_absent (activeClients m0) S m0) as [m_r a1].
  pose proof (add_devices_ok devices m_r Hr) as Ha.
  destruct (add_devices devices m_r) as [[m_a a2] r].
  exact Ha.
Qed.

Lemma cacheNal_keys serial buf b : (cacheNal serial buf b).*1 = b.*1.
Proof.
  unfold cacheNal. destruct (Map_get serial b) as [cache|] eqn:Hg; [|reflexivity].
  repeat match goal with
         | |- context [if ?c then _ else _] => destruct c
         end; try reflexivity; eapply Map_set_keys; eassumption.
Qed.

Lemma registry_ok_entry m k info c' :
  registry_ok m -> Map_get k (activeClients m) = Some info ->
  serial c' = serial (client info) -> port c' = port (client info) ->
  registry_ok
    (set_registry
       (Map_set k {| client := c'; info_port := info_port info |} (activeClients m))
       (deviceBuffers m) (usedPorts m) m).
Proof.
  intros (Hk & Hp & Hu & Hr & Hb & Hc) Hg Hs Hpt.
  destruct (Map_set_existing (fun e => info_port e.2) k
              {| client := c'; info_port := info_port info |} info
              (activeClients m) Hg eq_refl) as [Hkeys Hports].
  unfold registry_ok, session_ports in *. simpl. rewrite Hkeys, Hports.
  split; [assumption|]. split; [assumption|]. split; [assumption|].
  split; [assumption|]. split; [assumption|].
  intros k' e He. apply Map_set_elem in He as [Heq|Hin]; [|apply (Hc _ _ Hin)].
  inversion Heq; subst. simpl. rewrite Hs, Hpt.
  apply (Hc k info). apply Map_get_elem_of. assumption.
Qed.

Lemma main_reachable_ok m : main_reachable m -> registry_ok m.
Proof.
  induction 1 as [|devices m _ IH|i m _ IH|id s m _ IH|s m _ IH
                  |s m _ IH|key c' m _ IH].
  - unfold registry_ok, session_ports. simpl.
    split; [apply NoDup_nil_2|]. split; [apply NoDup_nil_2|].
    split; [intros p; rewrite elem_of_empty, elem_of_nil; reflexivity|].
    split; [intros p Hp; inversion Hp|]. split; [reflexivity|].
    intros k e He. inversion He.
  - apply deviceScanner_ok. assumption.
  - destruct IH as (Hk & Hp & Hu & Hr & Hb & Hc).
    destruct i as [s data|id data]; unfold registry_ok, session_ports in *; simpl.
    + rewrite cacheNal_keys. repeat (split; [assumption|]). assumption.
    + repeat (split; [assumption|]). assumption.
  - unfold on_connection.
    repeat match goal with
           | |- context [if ?c then _ else _] => destruct c
           | |- context [match ?x with _ => _ end] => destruct x
           end; exact IH.
  - unfold agent_exited. destruct (Map_get s (activeClients m)) as [info|] eqn:Hg;
      [|assumption].
    unfold adbProcess_on_close.
    destruct (stop (client info)) as [c effs] eqn:Hstop. simpl.
    apply registry_ok_entry; try assumption.
    + apply (f_equal fst) in Hstop. simpl in Hstop. subst c.
      destruct (client info). reflexivity.
    + apply (f_equal fst) in Hstop. simpl in Hstop. subst c.
      destruct (client info). reflexivity.
  - unfold transport_failed. destruct (Map_get s (activeClients m)) as [info|] eqn:Hg;
      [|assumption].
    simpl. apply registry_ok_entry; try assumption; reflexivity.
  - unfold client_progress. destruct (Map_get key (activeClients m)) as [info|] eqn:Hg;
      [|assumption].
    apply registry_ok_entry; try assumption; reflexivity.
Qed.

(** X11. In every state the handlers lead to, no two sessions share a
    serial or a port, a port is leased exactly when a registered session
    holds it (none leaks, none is shared with a session that is gone),
    every session's port lies in [27183, 28000), the NAL caches exist for
    exactly the registered serials, and each client carries the serial and
    the port it is registered under. *)
Theorem registry_invariant m : main_reachable m -> registry_ok m.
Proof. exact (main_reachable_ok m). Qed.

Lemma registry_invariant_witness :
  main_reachable
    (on_incoming
       (deviceScanner [mkDevice "B" "Pixel"]
          (agent_exited "A"
             (deviceScanner [mkDevice "A" "Pixel"; mkDevice "B" "Pixel"] empty_main).1).1).1
       (live_packet "B" sample_sps)) /\
  registry_ok
    (on_incoming
       (deviceScanner [mkDevice "B" "Pixel"]
          (agent_exited "A"
             (deviceScanner [mkDevice "A" "Pixel"; mkDevice "B" "Pixel"] empty_main).1).1).1
       (live_packet "B" sample_sps)).
Proof.
  assert (H : main_reachable
    (on_incoming
       (deviceScanner [mkDevice "B" "Pixel"]
          (agent_exited "A"
             (deviceScanner [mkDevice "A" "Pixel"; mkDevice "B" "Pixel"] empty_main).1).1).1
       (live_packet "B" sample_sps))).
  { apply reach_incoming, reach_scan, reach_agent_exited, reach_scan, reach_initial. }
  split; [exact H|]. exact (registry_invariant _ H).
Defined.

(** ** What a scan does *)

Lemma deviceScanner_unfold devices m :
  scanning m = false ->
  exists m_r a1 m_a a2 r,
    remove_absent (activeClients m) (list_to_set (dev_serial <$> devices))
                  (set_scanning true m) = (m_r, a1) /\
    add_devices devices m_r = (m_a, a2, r) /\
    deviceScanner devices m =
      (set_scanning false m_a,
       a1 ++ a2 ++ match r with Throw e => [scanner_error e] | _ => [] end).
Proof.
  intros Hs. unfold deviceScanner. rewrite Hs.
  change (activeClients (set_scanning true m)) with (activeClients m).
  destruct (remove_absent (activeClients m) (list_to_set (dev_serial <$> devices))
              (set_scanning true m)) as [m_r a1] eqn:Hr.
  destruct (add_devices devices m_r) as [[m_a a2] r] eqn:Ha.
  exists m_r, a1, m_a, a2, r. repeat split. exact Ha.
Qed.

Lemma remove_absent_no_error entries S : forall m,
  Forall (fun a => ~ is_scanner_error a) (remove_absent entries S m).2.
Proof.
  induction entries as [|[k info] rest IH]; intros m; simpl; [constructor|].
  destruct (bool_decide (k ∈ S)); [apply IH|].
  destruct (stop (client info)) as [c effs].
  match goal with
  | |- context [remove_absent rest S ?m1] =>
      specialize (IH m1); destruct (remove_absent rest S m1) as [m2 acts]
  end.
  simpl in *. repeat (constructor; [intros []|]). assumption.
Qed.

Lemma add_devices_no_error ds : forall m,
  Forall (fun a => ~ is_scanner_error a) (add_devices ds m).1.2.
Proof.
  induction ds as [|d rest IH]; intros m; simpl; [constructor|].
  destruct (Map_has (dev_serial d) (activeClients m)); [apply IH|].
  destruct (allocPort (usedPorts m)) as [[p u]| |]; try constructor.
  match goal with
  | |- context [add_devices rest ?m1] =>
      specialize (IH m1); destruct (add_devices rest m1) as [[m2 acts] r]
  end.
  simpl in *. repeat (constructor; [intros []|]). assumption.
Qed.

(** The allocation loop always ends: with a port that was free, or with
    the error when every port of the range is leased. *)
Lemma allocPort_outcome u :
  match allocPort u with
  | Ok (p, u') => 27183 <= p < 28000 /\ (p ∉ u) /\ u' = {[p]} ∪ u
  | Throw e => e = Error "No available ports" /\ forall q, 27183 <= q < 28000 -> q ∈ u
  | Diverge => False
  end.
Proof.
  pose proof (allocPort_loop_spec u 818 27183
                ltac:(lia) ltac:(lia) ltac:(intros; lia)) as H.
  unfold allocPort. destruct (allocPort_loop 818 27183 u) as [[p u']|e|]; tauto.
Qed.

(** X12. A scan that was not skipped and logged no error leaves exactly
    the attached devices registered: every device found has a session and
    no other serial has one. *)
Theorem scan_converges devices m :
  scanning m = false ->
  Forall (fun a => ~ is_scanner_error a) (deviceScanner devices m).2 ->
  forall s, Map_has s (activeClients (deviceScanner devices m).1) = true <->
            s ∈ dev_serial <$> devices.
Proof.
  intros Hs Hne s.
  destruct (deviceScanner_unfold devices m Hs) as (m_r & a1 & m_a & a2 & r & Hr & Ha & Heq).
  rewrite Heq in *. cbn [fst snd] in *.
  change (activeClients (set_scanning false m_a)) with (activeClients m_a).
  pose proof (scan_keys_in devices (set_scanning true m) m_r a1 Hr) as Hkeys.
  pose proof (add_devices_outcome devices m_r m_a a2 r Ha) as Hout.
  rewrite Ha in Hkeys. cbn [fst] in Hkeys.
  split.
  - intros Hh. apply Map_has_elem in Hh as [v Hv].
    apply (elem_of_list_to_set (C := gset string)). apply (Hkeys (s, v)). assumption.
  - intros Hin. apply list_elem_of_fmap in Hin as (d & -> & Hd).
    destruct r as [[]|e|].
    + apply Hout. assumption.
    + exfalso. apply Forall_app in Hne as [_ Hne]. apply Forall_app in Hne as [_ Hne].
      inversion Hne as [|? ? Hx _]; subst. apply Hx. exact I.
    + exfalso. pose proof (allocPort_outcome (usedPorts m_a)) as Hd'.
      rewrite Hout in Hd'. exact Hd'.
Qed.

Lemma scan_converges_witness :
  scanning running_main = false /\
  Forall (fun a => ~ is_scanner_error a)
         (deviceScanner [mkDevice "B" "Pixel"; mkDevice "C" "Nexus"] running_main).2 /\
  forall s,
    Map_has s (activeClients
                 (deviceScanner [mkDevice "B" "Pixel"; mkDevice "C" "Nexus"]
                    running_main).1) = true <->
    s ∈ dev_serial <$> [mkDevice "B" "Pixel"; mkDevice "C" "Nexus"].
Proof.
  assert (H : Forall (fun a => ~ is_scanner_error a)
                (deviceScanner [mkDevice "B" "Pixel"; mkDevice "C" "Nexus"]
                   running_main).2).
  { vm_compute. repeat (constructor; [intros []|]). constructor. }
  split; [reflexivity|]. split; [exact H|].
  exact (scan_converges [mkDevice "B" "Pixel"; mkDevice "C" "Nexus"] running_main
           eq_refl H).
Defined.

Lemma range_ports_length (l : list Z) :
  NoDup l -> (forall p, p ∈ l <-> 27183 <= p < 28000) -> length l = 817%nat.
Proof.
  intros Hnd Hin.
  assert (Hperm : l ≡ₚ seqZ 27183 817).
  { apply NoDup_Permutation; [assumption|apply NoDup_seqZ|].
    intros x. rewrite Hin, elem_of_seqZ. lia. }
  rewrite Hperm, length_seqZ. reflexivity.
Qed.

(** X13. The only error a scan logs is the one of the port pool, and in a
    state the handlers lead to it is logged only when all 817 ports are
    held by registered sessions: the scan ends with 817 sessions. *)
Theorem scan_error_means_full devices m e :
  main_reachable m ->
  scanner_error e ∈ (deviceScanner devices m).2 ->
  e = Error "No available ports" /\
  length (activeClients (deviceScanner devices m).1) = 817%nat.
Proof.
  intros Hreach Hin.
  pose proof (deviceScanner_ok devices m (main_reachable_ok m Hreach)) as Hok.
  destruct (scanning m) eqn:Hs.
  { unfold deviceScanner in Hin. rewrite Hs in Hin. inversion Hin. }
  destruct (deviceScanner_unfold devices m Hs) as (m_r & a1 & m_a & a2 & r & Hr & Ha & Heq).
  rewrite Heq in *. cbn [fst snd] in *.
  pose proof (remove_absent_no_error (activeClients m)
                (list_to_set (dev_serial <$> devices)) (set_scanning true m)) as H1.
  pose proof (add_devices_no_error devices m_r) as H2.
  rewrite Hr in H1. rewrite Ha in H2. cbn [fst snd] in *.
  rewrite Forall_forall in H1, H2.
  apply elem_of_app in Hin as [Hin|Hin]; [exfalso; exact (H1 _ Hin I)|].
  apply elem_of_app in Hin as [Hin|Hin]; [exfalso; exact (H2 _ Hin I)|].
  pose proof (add_devices_outcome devices m_r m_a a2 r Ha) as Hout.
  destruct r as [[]|e'|]; try (inversion Hin; fail).
  apply list_elem_of_singleton in Hin. inversion Hin; subst e'.
  pose proof (allocPort_outcome (usedPorts m_a)) as Hfull. rewrite Hout in Hfull.
  destruct Hfull as [He Hfull]. split; [assumption|].
  destruct Hok as (_ & Hp & Hu & Hrange & _ & _). unfold session_ports in *.
  change (activeClients (set_scanning false m_a)) with (activeClients m_a) in *.
  change (usedPorts (set_scanning false m_a)) with (usedPorts m_a) in *.
  rewrite <- (length_fmap (fun e : string * Entry => info_port e.2)).
  apply range_ports_length; [assumption|].
  intros p. split; [apply Hrange|]. intros Hp'. apply Hu. apply Hfull. assumption.
Qed.

Lemma scan_error_means_full_witness :
  main_reachable empty_main /\
  scanner_error (Error "No available ports")
    ∈ (deviceScanner (numbered_devices 818) empty_main).2 /\
  Error "No available ports" = Error "No available ports" /\
  length (activeClients (deviceScanner (numbered_devices 818) empty_main).1) = 817%nat.
Proof.
  assert (Hin : scanner_error (Error "No available ports")
                  ∈ (deviceScanner (numbered_devices 818) empty_main).2).
  { apply last_Some_elem_of. vm_compute. reflexivity. }
  split; [apply reach_initial|]. split; [exact Hin|].
  exact (scan_error_means_full (numbered_devices 818) empty_main _ reach_initial Hin).
Defined.

Lemma Map_get_delete_ne {V} k s (m : JsMap V) :
  k <> s -> Map_get s (Map_delete k m) = Map_get s m.
Proof.
  intros Hne. unfold Map_delete, JsMap. induction m as [|[k' v] m IH]; [reflexivity|].
  rewrite filter_cons. cbn [fst]. destruct (decide (k' <> k)) as [Hk|Hk].
  - simpl. rewrite IH. reflexivity.
  - simpl. destruct (decide (k' = s)) as [->|_]; [|exact IH].
    exfalso. apply Hk. intros ->. apply Hne. reflexivity.
Qed.

Lemma Map_get_set_ne {V} k s (v : V) (m : JsMap V) :
  k <> s -> Map_get s (Map_set k v m) = Map_get s m.
Proof.
  intros Hne. induction m as [|[k' v'] m IH]; simpl.
  - destruct (decide (k = s)); [contradiction|reflexivity].
  - destruct (decide (k' = k)) as [->|Hk]; simpl.
    + destruct (decide (k = s)); [contradiction|reflexivity].
    + rewrite IH. reflexivity.
Qed.

Lemma Map_get_set_eq {V} k (v : V) (m : JsMap V) : Map_get k (Map_set k v m) = Some v.
Proof.
  induction m as [|[k' v'] m IH]; simpl.
  - destruct (decide (k = k)); [reflexivity|contradiction].
  - destruct (decide (k' = k)) as [->|Hk]; simpl.
    + destruct (decide (k = k)); [reflexivity|contradiction].
    + destruct (decide (k' = k)); [contradiction|exact IH].
Qed.

Lemma remove_absent_keeps entries (S : gset string) s : forall m,
  s ∈ S ->
  Map_get s (activeClients (remove_absent entries S m).1) = Map_get s (activeClients m) /\
  Map_get s (deviceBuffers (remove_absent entries S m).1) = Map_get s (deviceBuffers m) /\
  Forall (fun a => action_serial a <> Some s) (remove_absent entries S m).2.
Proof.
  induction entries as [|[k info] rest IH]; intros m Hs; simpl.
  - repeat split. constructor.
  - destruct (bool_decide (k ∈ S)) eqn:Hk; [apply IH; assumption|].
    apply bool_decide_eq_false in Hk.
    assert (Hne : k <> s) by (intros ->; contradiction).
    destruct (stop (client info)) as [c effs].
    match goal with
    | |- context [remove_absent rest S ?m1] =>
        specialize (IH m1 Hs); destruct (remove_absent rest S m1) as [m2 acts]
    end.
    simpl in *. destruct IH as (H1 & H2 & H3).
    rewrite H1, H2, !Map_get_delete_ne by assumption.
    repeat split. repeat (constructor; [simpl; congruence|]). assumption.
Qed.

Lemma add_devices_keeps ds s : forall m,
  Map_has s (activeClients m) = true ->
  Map_get s (activeClients (add_devices ds m).1.1) = Map_get s (activeClients m) /\
  Map_get s (deviceBuffers (add_devices ds m).1.1) = Map_get s (deviceBuffers m) /\
  Forall (fun a => action_serial a <> Some s) (add_devices ds m).1.2.
Proof.
  induction ds as [|d rest IH]; intros m Hs; simpl.
  - repeat split. constructor.
  - destruct (Map_has (dev_serial d) (activeClients m)) eqn:Hd; [apply IH; assumption|].
    assert (Hne : dev_serial d <> s) by (intros Heq; rewrite Heq in Hd; congruence).
    destruct (allocPort (usedPorts m)) as [[p u]| |]; try (repeat split; constructor).
    match goal with
    | |- context [add_devices rest ?m1] =>
        specialize (IH m1); destruct (add_devices rest m1) as [[m2 acts] r]
    end.
    simpl in *. destruct IH as (H1 & H2 & H3); [apply Map_has_set_mono; assumption|].
    rewrite H1, H2, !Map_get_set_ne by assumption.
    repeat split. repeat (constructor; [simpl; congruence|]). assumption.
Qed.

(** X14. A scan leaves the session of a device that is registered and
    still attached alone: the same client under the same port, the same
    cached packets, and no stop, removal, creation or start for its
    serial. *)
Theorem scan_keeps_attached devices m s :
  s ∈ dev_serial <$> devices ->
  Map_has s (activeClients m) = true ->
  Map_get s (activeClients (deviceScanner devices m).1) = Map_get s (activeClients m) /\
  Map_get s (deviceBuffers (deviceScanner devices m).1) = Map_get s (deviceBuffers m) /\
  Forall (fun a => action_serial a <> Some s) (deviceScanner devices m).2.
Proof.
  intros Hin Hh. destruct (scanning m) eqn:Hs.
  { unfold deviceScanner. rewrite Hs. repeat split. constructor. }
  destruct (deviceScanner_unfold devices m Hs) as (m_r & a1 & m_a & a2 & r & Hr & Ha & Heq).
  rewrite Heq. cbn [fst snd].
  change (activeClients (set_scanning false m_a)) with (activeClients m_a).
  change (deviceBuffers (set_scanning false m_a)) with (deviceBuffers m_a).
  assert (HS : s ∈ (list_to_set (dev_serial <$> devices) : gset string))
    by (apply elem_of_list_to_set; assumption).
  destruct (remove_absent_keeps (activeClients m) _ s (set_scanning true m) HS)
    as (R1 & R2 & R3).
  rewrite Hr in R1, R2, R3. cbn [fst snd] in *.
  change (activeClients (set_scanning true m)) with (activeClients m) in R1.
  change (deviceBuffers (set_scanning true m)) with (deviceBuffers m) in R2.
  assert (Hh' : Map_has s (activeClients m_r) = true)
    by (unfold Map_has in *; rewrite R1; assumption).
  destruct (add_devices_keeps devices s m_r Hh') as (A1 & A2 & A3).
  rewrite Ha in A1, A2, A3. cbn [fst snd] in *.
  split; [congruence|]. split; [congruence|].
  apply Forall_app. split; [assumption|]. apply Forall_app. split; [assumption|].
  destruct r; repeat constructor. simpl. congruence.
Qed.

Lemma scan_keeps_attached_witness :
  ("A"%string ∈ dev_serial <$> [mkDevice "B" "Pixel"; mkDevice "A" "Nexus"]) /\
  Map_has "A" (activeClients running_main) = true /\
  Map_get "A" (activeClients
                 (deviceScanner [mkDevice "B" "Pixel"; mkDevice "A" "Nexus"]
                    running_main).1)
  = Map_get "A" (activeClients running_main) /\
  Map_get "A" (deviceBuffers
                 (deviceScanner [mkDevice "B" "Pixel"; mkDevice "A" "Nexus"]
                    running_main).1)
  = Map_get "A" (deviceBuffers running_main) /\
  Forall (fun a => action_serial a <> Some "A"%string)
         (deviceScanner [mkDevice "B" "Pixel"; mkDevice "A" "Nexus"] running_main).2.
Proof.
  assert (Hin : "A"%string ∈ dev_serial <$> [mkDevice "B" "Pixel"; mkDevice "A" "Nexus"])
    by (simpl; elem_search).
  split; [exact Hin|]. split; [reflexivity|].
  exact (scan_keeps_attached [mkDevice "B" "Pixel"; mkDevice "A" "Nexus"] running_main
           "A" Hin eq_refl).
Defined.

(** ** The port pool *)

(** X15. Releasing the port just allocated gives back the pool as it was;
    while it stays leased, the next allocation returns a higher port. *)
Theorem allocPort_freePort u p u' :
  allocPort u = Ok (p, u') ->
  freePort p u' = u /\
  forall q u'', allocPort u' = Ok (q, u'') -> p < q.
Proof.
  intros Ha.
  pose proof (allocPort_loop_spec u 818 27183
                ltac:(lia) ltac:(lia) ltac:(intros; lia)) as H1.
  unfold allocPort in Ha. rewrite Ha in H1. destruct H1 as (Hr & Hfree & Hlow & ->).
  split.
  - unfold freePort. apply set_eq. intros x.
    rewrite elem_of_difference, elem_of_union, !elem_of_singleton.
    split; [intros [[?|?] ?]; [contradiction|assumption]|].
    intros Hx. split; [right; assumption|]. intros ->. contradiction.
  - intros q u'' Hb.
    pose proof (allocPort_loop_spec ({[p]} ∪ u) 818 27183
                  ltac:(lia) ltac:(lia) ltac:(intros; lia)) as H2.
    unfold allocPort in Hb. rewrite Hb in H2. destruct H2 as (Hr2 & Hfree2 & _ & _).
    destruct (Z_lt_le_dec p q) as [|Hle]; [assumption|]. exfalso. apply Hfree2.
    apply elem_of_union. destruct (decide (q = p)) as [->|Hne].
    + left. apply elem_of_singleton. reflexivity.
    + right. apply Hlow. lia.
Qed.

Lemma allocPort_freePort_witness :
  allocPort {[27183; 27185]} = Ok (27184, {[27184]} ∪ {[27183; 27185]}) /\
  freePort 27184 ({[27184]} ∪ {[27183; 27185]}) = {[27183; 27185]} /\
  forall q u'', allocPort ({[27184]} ∪ {[27183; 27185]}) = Ok (q, u'') -> 27184 < q.
Proof.
  assert (H : allocPort {[27183; 27185]} = Ok (27184, {[27184]} ∪ {[27183; 27185]}))
    by (vm_compute; reflexivity).
  split; [exact H|]. exact (allocPort_freePort _ _ _ H).
Defined.

(** ** Viewers *)

Lemma same_keys_get {A B} (a : JsMap A) (b : JsMap B) k :
  a.*1 = b.*1 -> Map_has k a = Map_has k b.
Proof.
  revert b. induction a as [|[k1 v1] a IH]; intros [|[k2 v2] b] H; try discriminate H.
  - reflexivity.
  - rewrite !fmap_cons in H. cbn [fst] in H. inversion H; subst.
    unfold Map_has in *. simpl. destruct (decide (k2 = k)); [reflexivity|].
    apply IH. assumption.
Qed.

(** X16. In a state the handlers lead to the connection handler never
    throws: a serial that has a NAL cache has a session, so the lookup of
    the session's client does not fail. *)
Theorem connection_never_throws id serial m :
  main_reachable m -> (on_connection id serial m).2 = Ok tt.
Proof.
  intros Hreach. destruct (main_reachable_ok m Hreach) as (_ & _ & _ & _ & Hb & _).
  unfold on_connection. destruct serial as [s|]; [|reflexivity]. simpl.
  destruct (bool_decide (s = "")); [reflexivity|]. simpl.
  destruct (Map_has s (deviceBuffers m)) eqn:Hh; [|reflexivity]. simpl.
  rewrite (same_keys_get _ _ s Hb) in Hh. unfold Map_has in Hh.
  destruct (Map_get s (activeClients m)); [reflexivity|discriminate].
Qed.

Lemma connection_never_throws_witness :
  main_reachable (deviceScanner [mkDevice "A" "Pixel"] empty_main).1 /\
  (on_connection 1%nat (Some "A"%string)
     (deviceScanner [mkDevice "A" "Pixel"] empty_main).1).2 = Ok tt.
Proof.
  assert (H : main_reachable (deviceScanner [mkDevice "A" "Pixel"] empty_main).1)
    by apply reach_scan, reach_initial.
  split; [exact H|]. exact (connection_never_throws 1%nat (Some "A"%string) _ H).
Defined.

Lemma cacheNal_other serial s buf b :
  s <> serial -> Map_get serial (cacheNal s buf b) = Map_get serial b.
Proof.
  intros Hne. unfold cacheNal. destruct (Map_get s b) as [cache|]; [|reflexivity].
  repeat match goal with
         | |- context [if ?c then _ else _] => destruct c
         end; try reflexivity; apply Map_get_set_ne; assumption.
Qed.

Lemma cacheNal_same serial buf b cache :
  Map_get serial b = Some cache ->
  Map_get serial (cacheNal serial buf b) =
  Some {| sps := if nalType buf =? 7 then Some buf else sps cache;
          pps := if nalType buf =? 8 then Some buf else pps cache;
          idr := if nalType buf =? 5 then Some buf else idr cache |}.
Proof.
  intros Hg. unfold cacheNal. rewrite Hg.
  destruct (nalType buf =? 7) eqn:E7.
  - zbool. rewrite E7. simpl. apply Map_get_set_eq.
  - destruct (nalType buf =? 8) eqn:E8.
    + zbool. rewrite E8. simpl. apply Map_get_set_eq.
    + destruct (nalType buf =? 5) eqn:E5; [apply Map_get_set_eq|].
      rewrite Hg. destruct cache; reflexivity.
Qed.

Lemma cache_after_run incoming : forall m serial cache,
  Map_get serial (deviceBuffers m) = Some cache ->
  Map_get serial (deviceBuffers (foldl on_incoming m incoming)) =
  Some {| sps := latest 7 serial incoming (sps cache);
          pps := latest 8 serial incoming (pps cache);
          idr := latest 5 serial incoming (idr cache) |}.
Proof.
  induction incoming as [|i rest IH]; intros m serial cache Hg.
  - simpl. rewrite Hg. destruct cache; reflexivity.
  - cbn [foldl latest]. destruct i as [s data|j data].
    + destruct (decide (s = serial)) as [->|Hne].
      * rewrite (IH (on_incoming m (live_packet serial data)) serial _
                   (cacheNal_same serial data _ cache Hg)).
        rewrite bool_decide_eq_true_2 by reflexivity. reflexivity.
      * rewrite (IH (on_incoming m (live_packet s data)) serial cache)
          by (simpl; rewrite cacheNal_other by assumption; assumption).
        rewrite bool_decide_eq_false_2 by assumption. reflexivity.
    + apply (IH (on_incoming m (status_reply j data))). assumption.
Qed.

(** X17. After any run of deliveries the cache of a registered device
    holds, in each slot, the most recent packet of that NAL type the
    device sent (type 7, 8 and 5), or what the slot held before when none
    came; packets of other devices and of other types change nothing. *)
Theorem cache_holds_latest incoming m serial cache :
  Map_get serial (deviceBuffers m) = Some cache ->
  Map_get serial (deviceBuffers (foldl on_incoming m incoming)) =
  Some {| sps := latest 7 serial incoming (sps cache);
          pps := latest 8 serial incoming (pps cache);
          idr := latest 5 serial incoming (idr cache) |}.
Proof. exact (cache_after_run incoming m serial cache). Qed.

Lemma cache_holds_latest_witness :
  Map_get "A" (deviceBuffers running_main)
    = Some {| sps := None; pps := None; idr := None |} /\
  Map_get "A" (deviceBuffers
                 (foldl on_incoming running_main
                    [live_packet "A" sample_sps; live_packet "A" sample_idr;
                     live_packet "B" sample_pps; live_packet "A" sample_frame;
                     live_packet "A" sample_sps]))
  = Some {| sps := Some sample_sps; pps := None; idr := Some sample_idr |}.
Proof.
  split; [reflexivity|].
  exact (cache_holds_latest
           [live_packet "A" sample_sps; live_packet "A" sample_idr;
            live_packet "B" sample_pps; live_packet "A" sample_frame;
            live_packet "A" sample_sps]
           running_main "A" {| sps := None; pps := None; idr := None |} eq_refl).
Defined.

Lemma on_incoming_ids m i :
  ws_id <$> wss_clients (on_incoming m i) = ws_id <$> wss_clients m.
Proof.
  destruct i as [s data|j data]; cbn [on_incoming on_video_data set_clients wss_clients];
    unfold broadcast; cbn [set_deviceBuffers wss_clients];
    induction (wss_clients m) as [|w l IH]; try reflexivity;
    cbn [map]; rewrite !fmap_cons, IH; destruct (_ && _); reflexivity.
Qed.

Lemma foldl_on_incoming_ids incoming : forall m,
  ws_id <$> wss_clients (foldl on_incoming m incoming) = ws_id <$> wss_clients m.
Proof.
  induction incoming as [|i rest IH]; intros m; [reflexivity|].
  simpl. rewrite IH. apply on_incoming_ids.
Qed.

Lemma fresh_ids id (l l' : list WebSocket) :
  ws_id <$> l' = ws_id <$> l ->
  (forall ws, ws ∈ l -> ws_id ws <> id) -> forall ws, ws ∈ l' -> ws_id ws <> id.
Proof.
  intros Heq Hl ws Hws Hid.
  assert (Hin : ws_id ws ∈ ws_id <$> l')
    by (apply (list_elem_of_fmap_2 ws_id); assumption).
  rewrite Heq in Hin. apply list_elem_of_fmap in Hin as (w & Hw & Hwl).
  apply (Hl w Hwl). congruence.
Qed.

(** X18. A viewer that connects after any run of deliveries is sent, in
    the connection handler, the most recent SPS, then the most recent PPS,
    then the most recent IDR packet of its device, each one only if one is
    cached. *)
Theorem connection_replays_latest m id serial cache incoming :
  serial <> ""%string ->
  Map_get serial (deviceBuffers m) = Some cache ->
  (forall ws, ws ∈ wss_clients m -> ws_id ws <> id) ->
  sent_to id (on_connection id (Some serial) (foldl on_incoming m incoming)).1 =
  option_list (latest 7 serial incoming (sps cache)) ++
  option_list (latest 8 serial incoming (pps cache)) ++
  option_list (latest 5 serial incoming (idr cache)).
Proof.
  intros Hne Hg Hfresh.
  pose proof (cache_after_run incoming m serial cache Hg) as Hc.
  pose proof (fresh_ids id _ _ (foldl_on_incoming_ids incoming m) Hfresh) as Hf.
  set (m' := foldl on_incoming m incoming) in *.
  set (a := latest 7 serial incoming (sps cache)) in *.
  set (b := latest 8 serial incoming (pps cache)) in *.
  set (k := latest 5 serial incoming (idr cache)) in *.
  set (w := {| ws_id := id; ws_serial := Some serial; readyState := OPEN;
               sent := option_list a ++ option_list b ++ option_list k |}).
  assert (Hm1 : wss_clients (on_connection id (Some serial) m').1 = wss_clients m' ++ [w]).
  { unfold on_connection. rewrite (Map_get_has _ _ _ Hc).
    rewrite bool_decide_eq_false_2 by assumption. simpl.
    rewrite Hc. simpl.
    destruct (Map_get serial (activeClients m')); subst w;
      destruct a, b, k; reflexivity. }
  rewrite (sent_to_app id _ _ _ Hm1), sent_to_others by assumption.
  simpl. rewrite bool_decide_eq_true_2 by reflexivity. rewrite app_nil_r. reflexivity.
Qed.

Lemma connection_replays_latest_witness :
  "A"%string <> ""%string /\
  Map_get "A" (deviceBuffers running_main)
    = Some {| sps := None; pps := None; idr := None |} /\
  (forall ws, ws ∈ wss_clients running_main -> ws_id ws <> 7%nat) /\
  sent_to 7%nat
    (on_connection 7%nat (Some "A"%string)
       (foldl on_incoming running_main
          [live_packet "A" sample_idr; live_packet "A" sample_sps;
           live_packet "A" sample_frame])).1
  = [sample_sps; sample_idr].
Proof.
  assert (Hf : forall ws, ws ∈ wss_clients running_main -> ws_id ws <> 7%nat)
    by (intros ws H; inversion H).
  split; [discriminate|]. split; [reflexivity|]. split; [exact Hf|].
  exact (connection_replays_latest running_main 7%nat "A"
           {| sps := None; pps := None; idr := None |}
           [live_packet "A" sample_idr; live_packet "A" sample_sps;
            live_packet "A" sample_frame]
           ltac:(discriminate) eq_refl Hf).
Defined.

Lemma quiet_on_incoming id m i :
  quiet id (wss_clients m) -> quiet id (wss_clients (on_incoming m i)).
Proof.
  intros Hq ws Hws Hid.
  destruct i as [s data|j data]; simpl in Hws; unfold broadcast in Hws;
    apply list_elem_of_In, in_map_iff in Hws as (x & <- & Hx);
    apply list_elem_of_In in Hx;
    (destruct (is_open x) eqn:Eo;
     [destruct (bool_decide _) eqn:Eb; simpl in *;
      [destruct (Hq x Hx Hid); congruence|exact (Hq x Hx Hid)]
     |simpl in *; exact (Hq x Hx Hid)]).
Qed.

Lemma quiet_sent_to id m : quiet id (wss_clients m) -> sent_to id m = [].
Proof.
  unfold sent_to. induction (wss_clients m) as [|w l IH]; intros Hq; [reflexivity|].
  simpl. rewrite IH by (intros ws Hws; apply Hq; right; assumption).
  destruct (bool_decide (ws_id w = id)) eqn:E; [|reflexivity].
  apply bool_decide_eq_true in E. destruct (Hq w ltac:(left) E) as [_ ->]. reflexivity.
Qed.

(** X19. A viewer the connection handler turns away (no serial, an empty
    one, or one without a NAL cache) is never sent anything: nothing in
    the handler and nothing by any later delivery. *)
Theorem rejected_viewer_gets_nothing m id serial incoming :
  rejected serial m ->
  (forall ws, ws ∈ wss_clients m -> ws_id ws <> id) ->
  sent_to id (foldl on_incoming (on_connection id serial m).1 incoming) = [].
Proof.
  intros Hrej Hfresh. apply quiet_sent_to.
  assert (Hq : quiet id (wss_clients (on_connection id serial m).1)).
  { assert (Hinv : (on_connection id serial m).1 =
                   set_clients (wss_clients m ++
                                  [{| ws_id := id; ws_serial := None;
                                      readyState := CLOSING; sent := [] |}]) m).
    { unfold on_connection. destruct serial as [s|]; [|reflexivity].
      destruct Hrej as [->|Hh]; [reflexivity|]. rewrite Hh.
      rewrite orb_true_r. reflexivity. }
    rewrite Hinv. simpl. intros ws Hws Hid.
    apply elem_of_app in Hws as [Hws|Hws]; [destruct (Hfresh ws Hws Hid)|].
    apply list_elem_of_singleton in Hws. subst ws. split; reflexivity. }
  revert Hq. generalize (on_connection id serial m).1.
  induction incoming as [|i rest IH]; intros m0 Hq; [assumption|].
  simpl. apply IH. apply quiet_on_incoming. assumption.
Qed.

Lemma rejected_viewer_gets_nothing_witness :
  rejected (Some "B"%string) running_main /\
  (forall ws, ws ∈ wss_clients running_main -> ws_id ws <> 7%nat) /\
  sent_to 7%nat
    (foldl on_incoming (on_connection 7%nat (Some "B"%string) running_main).1
       [live_packet "B" sample_idr; status_reply 7%nat sample_pts]) = [].
Proof.
  assert (Hr : rejected (Some "B"%string) running_main) by (right; reflexivity).
  assert (Hf : forall ws, ws ∈ wss_clients running_main -> ws_id ws <> 7%nat)
    by (intros ws H; inversion H).
  split; [exact Hr|]. split; [exact Hf|].
  exact (rejected_viewer_gets_nothing running_main 7%nat (Some "B"%string)
           [live_packet "B" sample_idr; status_reply 7%nat sample_pts] Hr Hf).
Defined.

(** ** The listing of attached devices *)

Lemma split_spaces_cons s : exists w ws, split_spaces s = w :: ws.
Proof.
  induction s as [|c s IH]; simpl; [eauto|].
  destruct (is_space c).
  - destruct s as [|c' s']; [eauto|]. destruct (is_space c'); [exact IH|eauto].
  - destruct IH as (w & ws & ->). simpl. eauto.
Qed.

Lemma split_on_cons sep s : exists w ws, split_on sep s = w :: ws.
Proof.
  induction s as [|c s IH]; simpl; [eauto|].
  destruct (c =? sep); [eauto|]. destruct IH as (w & ws & ->). simpl. eauto.
Qed.






























Lemma starts_with_true pat : forall s,
  starts_with pat s = true -> exists b, s = pat ++ b.
Proof.
  induction pat as [|p pat IH]; intros s H; [exists s; reflexivity|].
  destruct s as [|c s]; [discriminate H|]. cbn [starts_with] in H.
  apply andb_true_iff in H as [Hc Hs]. apply Z.eqb_eq in Hc. subst c.
  destruct (IH s Hs) as [b ->]. exists b. reflexivity.
Qed.

(** X21. Whatever [adb devices -l] prints, and also when it cannot be
    run, every device [getAdbDevices] resolves to has a serial and a
    model: neither field is ever [undefined]. *)
Theorem getAdbDevices_fields_defined r :
  Forall (fun d => is_Some (adb_serial d) /\ is_Some (adb_model d)) (getAdbDevices r).
Proof.
  destruct r as [code out|]; [|constructor]. unfold getAdbDevices.
  apply Forall_fmap, Forall_forall. intros l _. unfold device_of_line. cbn -[str].
  split.
  - destruct (split_spaces_cons l) as (w & ws & ->). eexists. reflexivity.
  - destruct (List.find (starts_with (str "model:")) (split_spaces l)) as [t|] eqn:Hf;
      [|eexists; reflexivity].
    apply List.find_some in Hf as [_ Ht].
    apply starts_with_true in Ht as [b ->].
    change (str "model:" ++ b) with (109 :: 111 :: 100 :: 101 :: 108 :: 58 :: b).
    cbn [split_on Z.eqb Pos.eqb].
    destruct (split_on_cons 58 b) as (w & ws & ->). eexists. reflexivity.
Qed.

(** ** Device details and power status *)

(** X22. When the property queries run but exit with a code other than 0,
    [getDeviceDetails] does not answer 'Unknown': it resolves to an empty
    model and the version 'Android ' with nothing behind it, and logs
    nothing. 'Unknown' is the answer, with an error logged, when one of the
    queries cannot be run at all. *)
Theorem details_of_failed_queries toLowerCase serial q1 q2 q3 q4 q5 :
  (Forall exit_nonzero [q1; q2; q3; q4; q5] ->
   getDeviceDetails toLowerCase serial q1 q2 q3 q4 q5 =
   ({| det_model := []; det_version := str "Android " |}, detail_queries serial)) /\
  (spawn_failed ∈ [q1; q2; q3; q4; q5] ->
   getDeviceDetails toLowerCase serial q1 q2 q3 q4 q5 =
   ({| det_model := str "Unknown"; det_version := str "Unknown" |},
    detail_queries serial ++ [client_effect console_error])).
Proof.
  split.
  - intros H. repeat (apply Forall_cons in H as [? H]).
    destruct q1 as [c1 o1|], q2 as [c2 o2|], q3 as [c3 o3|], q4 as [c4 o4|],
             q5 as [c5 o5|]; try contradiction.
    unfold exit_nonzero in *. unfold getDeviceDetails, runAdbCommand.
    destruct (c1 =? 0) eqn:E1; [zbool; contradiction|].
    destruct (c2 =? 0) eqn:E2; [zbool; contradiction|].
    destruct (c3 =? 0) eqn:E3; [zbool; contradiction|].
    destruct (c4 =? 0) eqn:E4; [zbool; contradiction|].
    destruct (c5 =? 0) eqn:E5; [zbool; contradiction|].
    reflexivity.
  - intros H. unfold getDeviceDetails, runAdbCommand.
    destruct q1 as [c1 o1|]; [|reflexivity]. destruct (c1 =? 0);
    (destruct q2 as [c2 o2|]; [|reflexivity]); destruct (c2 =? 0);
    (destruct q3 as [c3 o3|]; [|reflexivity]); destruct (c3 =? 0);
    (destruct q4 as [c4 o4|]; [|reflexivity]); destruct (c4 =? 0);
    (destruct q5 as [c5 o5|]; [|reflexivity]);
    exfalso; elem_cases H.
Qed.

Lemma details_of_failed_queries_witness :
  Forall exit_nonzero
    [closed 1 (str "error: closed"); closed 1 []; closed 255 []; closed 1 []; closed 1 []] /\
  getDeviceDetails (fun s => s) "A"
    (closed 1 (str "error: closed")) (closed 1 []) (closed 255 []) (closed 1 [])
    (closed 1 []) =
  ({| det_model := []; det_version := str "Android " |}, detail_queries "A").
Proof.
  assert (H : Forall exit_nonzero
                [closed 1 (str "error: closed"); closed 1 []; closed 255 [];
                 closed 1 []; closed 1 []])
    by (repeat constructor; discriminate).
  split; [exact H|].
  exact (proj1 (details_of_failed_queries (fun s => s) "A" _ _ _ _ _) H).
Defined.

(** X23. For a power report that names neither 'mWakefulness=Awake' nor
    'mWakefulness=Asleep' (another state, or no output) the viewer is told
    'Asleep', and the 'wake' message then sends SLEEP (223), not WAKEUP;
    [setScreenPower(true)] sends WAKEUP (224). *)
Theorem power_state_neither ws serial code out :
  is_open ws = true ->
  includes (str "mWakefulness=Awake") out = false ->
  includes (str "mWakefulness=Asleep") out = false ->
  sendPowerStatus ws serial (closed code out) =
    ([adb serial dumpsys_power], Some (status_message false)) /\
  wakeScreen serial (closed code out) =
    [adb serial dumpsys_power; adb serial (input_keyevent 223)] /\
  setScreenPower serial true (closed code out) =
    [adb serial dumpsys_power; adb serial (input_keyevent 224)].
Proof.
  intros Ho Haw Has. unfold sendPowerStatus, wakeScreen, setScreenPower, runAdbCommand.
  rewrite Ho. destruct (code =? 0); cbn [negb]; rewrite ?Haw, ?Has; repeat split.
Qed.

Lemma power_state_neither_witness :
  is_open {| ws_id := 1; ws_serial := Some "A"%string; readyState := OPEN; sent := [] |}
    = true /\
  includes (str "mWakefulness=Awake") (str "mWakefulness=Dozing") = false /\
  includes (str "mWakefulness=Asleep") (str "mWakefulness=Dozing") = false /\
  sendPowerStatus
    {| ws_id := 1; ws_serial := Some "A"%string; readyState := OPEN; sent := [] |}
    "A" (closed 0 (str "mWakefulness=Dozing")) =
    ([adb "A" dumpsys_power], Some (status_message false)) /\
  wakeScreen "A" (closed 0 (str "mWakefulness=Dozing")) =
    [adb "A" dumpsys_power; adb "A" (input_keyevent 223)] /\
  setScreenPower "A" true (closed 0 (str "mWakefulness=Dozing")) =
    [adb "A" dumpsys_power; adb "A" (input_keyevent 224)].
Proof.
  split; [reflexivity|]. split; [reflexivity|]. split; [reflexivity|].
  apply (power_state_neither
           {| ws_id := 1; ws_serial := Some "A"%string; readyState := OPEN; sent := [] |}
           "A" 0 (str "mWakefulness=Dozing")); reflexivity.
Defined.
(** ** Touches inside the screen *)

Lemma digits2_pos_size p : digits2_pos p = Pos.size p.
Proof. induction p; simpl; congruence. Qed.

Lemma digits2_pos_gt p : Z.pos p < 2 ^ Z.pos (digits2_pos p).
Proof.
  rewrite digits2_pos_size. pose proof (Pos.size_gt p) as H.
  rewrite <- Pos2Z.inj_pow. exact H.
Qed.

Lemma digits2_pos_le p k : 0 <= k -> Z.pos p < 2 ^ k -> Z.pos (digits2_pos p) <= k.
Proof.
  intros Hk Hp. rewrite digits2_pos_size. pose proof (Pos.size_le p) as H.
  assert (H' : 2 ^ Z.pos (Pos.size p) <= 2 * Z.pos p).
  { rewrite <- Pos2Z.inj_pow. exact H. }
  assert (Hlt : 2 ^ Z.pos (Pos.size p) < 2 ^ (k + 1)).
  { rewrite Z.pow_add_r, Z.pow_1_r by lia. lia. }
  apply Z.pow_lt_mono_r_iff in Hlt; lia.
Qed.

Lemma fexp_nonpos m e W :
  0 <= m -> e <= 0 -> 0 < W < 2 ^ 53 -> m <= W * 2 ^ (- e) ->
  fexp 53 1024 (Zdigits2 m + e) <= 0.
Proof.
  intros Hm He HW Hb. unfold fexp. change (emin 53 1024) with (-1074).
  apply Z.max_lub; [|lia].
  destruct m as [|p|p]; [simpl; lia| |lia].
  assert (Hp : Z.pos (digits2_pos p) <= 53 - e).
  { apply digits2_pos_le; [lia|].
    replace (53 - e) with (53 + - e) by lia. rewrite Z.pow_add_r by lia.
    assert (0 < 2 ^ (- e)) by (apply Z.pow_pos_nonneg; lia). nia. }
  simpl Zdigits2. lia.
Qed.

Lemma shr_1_spec m r s :
  0 <= m -> shr_1 (Build_shr_record m r s) = Build_shr_record (m / 2) (Z.odd m) (r || s).
Proof.
  intros Hm. rewrite <- Z.div2_div.
  destruct m as [|[p|p|]|p]; try reflexivity; lia.
Qed.

Lemma shifted_step M k r :
  0 <= M -> 0 <= k -> shifted M k r -> shifted M (k + 1) (shr_1 r).
Proof.
  intros HM Hk [Hm Hex]. destruct r as [m rr ss]. simpl in Hm, Hex. subst m.
  assert (Hpow : 0 < 2 ^ k) by (apply Z.pow_pos_nonneg; lia).
  rewrite shr_1_spec by (apply Z.div_pos; lia). unfold shifted.
  rewrite Z.pow_add_r, Z.pow_1_r by lia. split; simpl.
  - apply Z.div_div; lia.
  - intros H0. apply Z.div_exact in H0; [|lia].
    set (q := M / (2 ^ k * 2)) in H0.
    assert (HMq : M = 2 * q * 2 ^ k) by lia.
    assert (Hmod : M mod 2 ^ k = 0) by (rewrite HMq; apply Z.mod_mul; lia).
    destruct (Hex Hmod) as [-> ->].
    assert (Hdiv : M / 2 ^ k = 2 * q) by (rewrite HMq; apply Z.div_mul; lia).
    rewrite Hdiv, Z.odd_mul. split; reflexivity.
Qed.

Lemma iter_pos_shifted M n : forall k r,
  0 <= M -> 0 <= k -> shifted M k r -> shifted M (k + Z.pos n) (iter_pos shr_1 n r).
Proof.
  induction n as [n IH|n IH|]; intros k r HM Hk H; simpl.
  - replace (k + Z.pos n~1) with (k + 1 + Z.pos n + Z.pos n) by lia.
    apply IH; [assumption|lia|]. apply IH; [assumption|lia|].
    apply shifted_step; assumption.
  - replace (k + Z.pos n~0) with (k + Z.pos n + Z.pos n) by lia.
    apply IH; [assumption|lia|]. apply IH; assumption.
  - apply shifted_step; assumption.
Qed.

(** A shift to the right: nothing happens, or the mantissa is divided. *)
Lemma shr_spec M e n :
  0 <= M ->
  exists r e', shr (Build_shr_record M false false) e n = (r, e') /\
    ((r = Build_shr_record M false false /\ e' = e /\ n <= 0) \/
     (0 < n /\ e' = e + n /\ shifted M n r)).
Proof.
  intros HM. destruct n as [|p|p]; simpl.
  - eexists _, _. split; [reflexivity|]. left. repeat split. lia.
  - eexists _, _. split; [reflexivity|]. right. split; [lia|]. split; [reflexivity|].
    apply (iter_pos_shifted M p 0); [assumption|lia|].
    split; simpl; [rewrite Z.div_1_r; reflexivity|auto].
  - eexists _, _. split; [reflexivity|]. left. repeat split. lia.
Qed.

Lemma round_nearest_even_bounds q l :
  q <= round_nearest_even q l <= q + 1.
Proof.
  destruct l as [|[| |]]; simpl; try lia. destruct (Z.even q); lia.
Qed.

(** Rounding to nearest does not pass an integer multiple of the unit. *)
Lemma shr_fexp_round M E W r e' :
  0 <= M -> E <= 0 -> 0 < W < 2 ^ 53 -> M <= W * 2 ^ (- E) ->
  shr_fexp 53 1024 M E loc_Exact = (r, e') ->
  0 <= round_nearest_even (shr_m r) (loc_of_shr_record r) /\ e' <= 0 /\
  round_nearest_even (shr_m r) (loc_of_shr_record r) <= W * 2 ^ (- e').
Proof.
  intros HM HE HW Hb Hs. unfold shr_fexp in Hs. simpl shr_record_of_loc in Hs.
  pose proof (fexp_nonpos M E W HM HE HW Hb) as Hf.
  destruct (shr_spec M E (fexp 53 1024 (Zdigits2 M + E) - E) HM)
    as (r0 & e0 & Heq & [(-> & -> & Hn)|(Hn & -> & Hsh & Hex)]);
    rewrite Heq in Hs; inversion Hs; subst r e'; clear Hs.
  - simpl. auto.
  - set (n := fexp 53 1024 (Zdigits2 M + E) - E) in *.
    replace (E + n) with (fexp 53 1024 (Zdigits2 M + E)) by (subst n; lia).
    set (e1 := fexp 53 1024 (Zdigits2 M + E)) in *.
    assert (Hpn : 0 < 2 ^ n) by (apply Z.pow_pos_nonneg; lia).
    assert (HbN : M <= W * 2 ^ (- e1) * 2 ^ n).
    { rewrite <- Z.mul_assoc, <- Z.pow_add_r by lia.
      replace (- e1 + n) with (- E) by (subst n; lia). exact Hb. }
    pose proof (round_nearest_even_bounds (shr_m r0) (loc_of_shr_record r0)) as Hr.
    assert (Hq0 : 0 <= shr_m r0) by (rewrite Hsh; apply Z.div_pos; lia).
    split; [lia|]. split; [exact Hf|].
    assert (Hq : shr_m r0 <= W * 2 ^ (- e1)).
    { rewrite Hsh. apply Z.div_le_upper_bound; [lia|]. lia. }
    destruct (Z.eq_dec (shr_m r0) (W * 2 ^ (- e1))) as [Heq'|Hne]; [|lia].
    assert (Hge : 2 ^ n * (M / 2 ^ n) <= M) by (apply Z.mul_div_le; lia).
    rewrite <- Hsh, Heq' in Hge.
    assert (HMeq : M = W * 2 ^ (- e1) * 2 ^ n) by lia.
    assert (Hmod : M mod 2 ^ n = 0) by (rewrite HMeq; apply Z.mod_mul; lia).
    destruct (Hex Hmod) as [Hr0 Hs0].
    destruct r0 as [m0 rr ss]. simpl in *. subst rr ss. simpl. lia.
Qed.

(** The second shift, of a mantissa the rounding made too long, only
    divides. *)
Lemma shr_fexp_exact M E W r e' :
  0 <= M -> E <= 0 -> 0 < W < 2 ^ 53 -> M <= W * 2 ^ (- E) ->
  shr_fexp 53 1024 M E loc_Exact = (r, e') ->
  0 <= shr_m r /\ e' <= 0 /\ shr_m r <= W * 2 ^ (- e').
Proof.
  intros HM HE HW Hb Hs. unfold shr_fexp in Hs. simpl shr_record_of_loc in Hs.
  pose proof (fexp_nonpos M E W HM HE HW Hb) as Hf.
  destruct (shr_spec M E (fexp 53 1024 (Zdigits2 M + E) - E) HM)
    as (r0 & e0 & Heq & [(-> & -> & Hn)|(Hn & -> & Hsh & Hex)]);
    rewrite Heq in Hs; inversion Hs; subst r e'; clear Hs.
  - simpl. auto.
  - set (n := fexp 53 1024 (Zdigits2 M + E) - E) in *.
    replace (E + n) with (fexp 53 1024 (Zdigits2 M + E)) by (subst n; lia).
    set (e1 := fexp 53 1024 (Zdigits2 M + E)) in *.
    assert (Hpn : 0 < 2 ^ n) by (apply Z.pow_pos_nonneg; lia).
    assert (HbN : M <= W * 2 ^ (- e1) * 2 ^ n).
    { rewrite <- Z.mul_assoc, <- Z.pow_add_r by lia.
      replace (- e1 + n) with (- E) by (subst n; lia). exact Hb. }
    rewrite Hsh. split; [apply Z.div_pos; lia|]. split; [exact Hf|].
    apply Z.div_le_upper_bound; lia.
Qed.

(** The double nearest to a mantissa and exponent standing for a value
    between 0 and the integer [W] lies between 0 and [W]. *)
Lemma binary_round_aux_below M E W :
  E <= 0 -> 0 < W < 2 ^ 53 -> Z.pos M <= W * 2 ^ (- E) ->
  below W (binary_round_aux 53 1024 false (Z.pos M) E loc_Exact).
Proof.
  intros HE HW Hb. unfold binary_round_aux.
  destruct (shr_fexp 53 1024 (Z.pos M) E loc_Exact) as [r1 e1] eqn:H1.
  destruct (shr_fexp_round (Z.pos M) E W r1 e1 ltac:(lia) HE HW Hb H1) as (Hm0 & He1 & Hm1).
  destruct (shr_fexp 53 1024 (round_nearest_even (shr_m r1) (loc_of_shr_record r1)) e1
              loc_Exact) as [r2 e2] eqn:H2.
  destruct (shr_fexp_exact _ e1 W r2 e2 Hm0 He1 HW Hm1 H2) as (Hm2 & He2 & Hb2).
  destruct (shr_m r2) as [|m|m]; [exact I| |lia].
  change (1024 - 53) with 971.
  destruct (e2 <=? 971) eqn:El; [|apply Z.leb_gt in El; lia].
  simpl. auto.
Qed.

Lemma iter_xO p d : Z.pos (Pos.iter xO p d) = Z.pos p * 2 ^ Z.pos d.
Proof.
  induction d as [|d IH] using Pos.peano_ind.
  - simpl. lia.
  - rewrite Pos.iter_succ, Pos2Z.inj_succ, Z.pow_succ_r by lia.
    rewrite Pos2Z.inj_xO, IH. lia.
Qed.

Lemma double_of_Z_below w : 0 <= w < 2 ^ 53 -> below w (double_of_Z w).
Proof.
  intros Hw. unfold double_of_Z, binary_normalize.
  destruct w as [|p|p]; [exact I| |lia].
  unfold binary_round, shl_align.
  pose proof (fexp_nonpos (Z.pos p) 0 (Z.pos p) ltac:(lia) ltac:(lia) ltac:(lia)
                ltac:(simpl; lia)) as Hf.
  simpl Zdigits2 in Hf.
  destruct (fexp 53 1024 (Z.pos (digits2_pos p) + 0) - 0) as [|d|d] eqn:Hd.
  - apply binary_round_aux_below; [lia|lia|simpl; lia].
  - apply binary_round_aux_below; [lia|lia|simpl; lia].
  - apply binary_round_aux_below; [assumption|lia|].
    rewrite iter_xO.
    replace (- fexp 53 1024 (Z.pos (digits2_pos p) + 0)) with (Z.pos d) by lia. lia.
Qed.

Lemma SFleb_finite m e n k :
  SFleb (S754_finite false m e) (S754_finite false n k) = true ->
  e < k \/ (e = k /\ Z.pos m <= Z.pos n).
Proof.
  unfold SFleb, SFcompare.
  change (Pos.compare_cont Eq m n) with (Pos.compare m n).
  destruct (Z.compare_spec e k) as [He|He|He]; intros H.
  - right. split; [assumption|].
    destruct (Pos.compare_spec m n) as [Hm|Hm|Hm]; [subst; lia|lia|discriminate H].
  - left. assumption.
  - discriminate H.
Qed.

Lemma in_unit_spec f :
  in_unit f = true ->
  match f with
  | S754_zero _ => True
  | S754_finite false m e => e < 0 /\ Z.pos m <= 2 ^ (- e)
  | _ => False
  end.
Proof.
  unfold in_unit. intros H. apply andb_true_iff in H as [H Hone].
  apply andb_true_iff in H as [Hvalid Hzero].
  destruct f as [s|s| |s m e]; [exact I| | |].
  - destruct s; [discriminate Hzero|discriminate Hone].
  - discriminate Hzero.
  - destruct s; [discriminate Hzero|].
    apply SFleb_finite in Hone.
    unfold valid_binary, bounded, canonical_mantissa in Hvalid.
    apply andb_true_iff in Hvalid as [Hcan _]. apply Z.eqb_eq in Hcan.
    unfold fexp in Hcan. change (emin 53 1024) with (-1074) in Hcan.
    assert (Hdig : Z.pos (digits2_pos m) <= 53) by lia.
    pose proof (digits2_pos_gt m) as Hgt.
    assert (Hm53 : Z.pos m < 2 ^ 53).
    { eapply Z.lt_le_trans; [exact Hgt|]. apply Z.pow_le_mono_r; lia. }
    destruct Hone as [He|[-> Hm]].
    + split; [lia|].
      eapply Z.le_trans; [apply Z.lt_le_incl; exact Hm53|].
      apply Z.pow_le_mono_r; lia.
    + split; [lia|]. exact Hm.
Qed.

(** The product of a Number between 0 and 1 and a Number between 0 and
    [W] lies between 0 and [W]. *)
Lemma double_mul_below f y W :
  W < 2 ^ 53 -> in_unit f = true -> below W y -> below W (double_mul f y).
Proof.
  intros HW Hf Hy. apply in_unit_spec in Hf.
  destruct f as [s|s| |[|] mx ex]; try contradiction;
    destruct y as [t|t| |[|] my ey]; try contradiction; try exact I.
  destruct Hf as [Hex Hmx]. destruct Hy as [Hey Hmy].
  assert (Hpx : 0 < 2 ^ (- ex)) by (apply Z.pow_pos_nonneg; lia).
  assert (Hpy : 0 < 2 ^ (- ey)) by (apply Z.pow_pos_nonneg; lia).
  assert (HW0 : 0 < W) by nia.
  unfold double_mul, SFmul. simpl xorb.
  apply binary_round_aux_below; [lia|lia|].
  rewrite Pos2Z.inj_mul.
  replace (- (ex + ey)) with (- ex + - ey) by lia. rewrite Z.pow_add_r by lia. nia.
Qed.

Lemma Math_round_below W x :
  0 <= W -> below W x -> exists z, Math_round x = Int z /\ 0 <= z <= W.
Proof.
  intros HW Hx. destruct x as [s|s| |[|] m e]; try contradiction.
  - exists 0. split; [reflexivity|lia].
  - destruct Hx as [He Hm]. unfold Math_round.
    destruct (0 <=? e) eqn:E0.
    + apply Z.leb_le in E0. assert (e = 0) by lia. subst e.
      exists (Z.pos m * 2 ^ 0). split; [reflexivity|]. simpl in *. lia.
    + eexists. split; [reflexivity|].
      assert (Hp : 0 < 2 ^ (- e)) by (apply Z.pow_pos_nonneg; lia).
      replace (1 - e) with (- e + 1) by lia. rewrite Z.pow_add_r, Z.pow_1_r by lia.
      split; [apply Z.div_pos; lia|].
      apply Z.lt_succ_r. apply Z.div_lt_upper_bound; [lia|]. nia.
Qed.

(** For a fraction between 0 and 1 the scaled coordinate lies between 0
    and the dimension. *)
Lemma double_round_scale_in_screen f d :
  in_unit f = true -> 0 <= d < 2 ^ 53 ->
  exists z, double_round_scale f d = Int z /\ 0 <= z <= d.
Proof.
  intros Hf Hd. unfold double_round_scale. apply Math_round_below; [lia|].
  apply double_mul_below; [lia|assumption|]. apply double_of_Z_below. assumption.
Qed.

(** X24. A touch at fractions that are Numbers between 0 and 1, on a
    device whose width (not 0) and height fit 16 bits, with an action code
    that fits a byte, is always written: [sendTouch] does not throw, and
    the coordinates it writes, [Math.round] of the double products, lie
    inside the screen, between 0 and the width and between 0 and the
    height. *)
Theorem sendTouch_in_screen write_throws c action xp yp sock :
  socket c = Some sock ->
  0 < width (deviceInfo c) <= 65535 -> 0 <= height (deviceInfo c) <= 65535 ->
  0 <= action <= 255 ->
  in_unit xp = true -> in_unit yp = true ->
  exists x y,
    double_round_scale xp (width (deviceInfo c)) = Int x /\
    double_round_scale yp (height (deviceInfo c)) = Int y /\
    0 <= x <= width (deviceInfo c) /\ 0 <= y <= height (deviceInfo c) /\
    sendTouch double double_round_scale write_throws c action xp yp =
      Ok (c, socket_write sock
               (touch_message action x y (width (deviceInfo c)) (height (deviceInfo c))) ::
             (if write_throws sock
                   (touch_message action x y (width (deviceInfo c))
                      (height (deviceInfo c)))
              then [console_error] else [])).
Proof.
  intros Hs Hw Hh Ha Hxp Hyp.
  destruct (double_round_scale_in_screen xp (width (deviceInfo c)) Hxp) as (x & Hx & Hxr);
    [change (2 ^ 53) with 9007199254740992; lia|].
  destruct (double_round_scale_in_screen yp (height (deviceInfo c)) Hyp) as (y & Hy & Hyr);
    [change (2 ^ 53) with 9007199254740992; lia|].
  exists x, y. split; [assumption|]. split; [assumption|].
  split; [assumption|]. split; [assumption|].
  assert (Hne : width (deviceInfo c) <> 0) by lia.
  destruct (sendTouch_succeeds double double_round_scale write_throws c action xp yp sock
              x y Hs Hne Hx Hy) as [effs He].
  { unfold touch_fields_fit. lia. }
  destruct (sendTouch_message double double_round_scale write_throws c action xp yp sock
              c effs Hs Hne He) as (_ & Heffs & _).
  rewrite Hx, Hy in Heffs. simpl stored in Heffs. rewrite He, Heffs. reflexivity.
Qed.

Lemma sendTouch_in_screen_witness :
  socket running_client = Some 3%nat /\
  0 < width (deviceInfo running_client) <= 65535 /\
  0 <= height (deviceInfo running_client) <= 65535 /\
  0 <= 0 <= 255 /\
  in_unit double_sample = true /\ in_unit double_one = true /\
  double_round_scale double_sample 1080 = Int 3 /\
  exists x y,
    double_round_scale double_sample (width (deviceInfo running_client)) = Int x /\
    double_round_scale double_one (height (deviceInfo running_client)) = Int y /\
    0 <= x <= width (deviceInfo running_client) /\
    0 <= y <= height (deviceInfo running_client) /\
    sendTouch double double_round_scale never_throws running_client 0
      double_sample double_one =
      Ok (running_client,
          socket_write 3%nat
            (touch_message 0 x y (width (deviceInfo running_client))
               (height (deviceInfo running_client))) ::
          (if never_throws 3%nat
                (touch_message 0 x y (width (deviceInfo running_client))
                   (height (deviceInfo running_client)))
           then [console_error] else [])).
Proof.
  assert (Hw : 0 < width (deviceInfo running_client) <= 65535)
    by (vm_compute; split; [reflexivity|discriminate]).
  assert (Hh : 0 <= height (deviceInfo running_client) <= 65535)
    by (vm_compute; split; discriminate).
  split; [reflexivity|]. split; [exact Hw|]. split; [exact Hh|].
  split; [lia|]. split; [vm_compute; reflexivity|]. split; [vm_compute; reflexivity|].
  split; [vm_compute; reflexivity|].
  exact (sendTouch_in_screen never_throws running_client 0 double_sample double_one 3%nat
           eq_refl Hw Hh ltac:(lia) eq_refl eq_refl).
Defined.
